(** * LLMCoderAgent: the file-review pipeline, embedded and verified

    The development follows the two revisions of the extension that the
    repository holds side by side:

    - [src/src/extension.ts]  (definitions named [Ext_...] below), and
    - [src/unnamed/part_004]  (definitions named [P4_...] below), the later
      revision with pluggable providers, retries and issue extraction.

    Asynchronous functions are embedded as functions that return a result
    ([Ok] or [Throw]) together with the effects they performed; the editor,
    the file system, the clock and the network are explicit inputs. *)

From Stdlib Require Import ZArith Ascii String Lia.
From stdpp Require Import base option list gmap strings pretty.

Open Scope Z_scope.

Set Warnings "-register-all".

(** ** JavaScript values shared by all components *)

(** A JavaScript string is a sequence of UTF-16 code units. *)
Definition jsstring := list N.

(** A literal of the source, written as a Rocq string. *)
Definition js (s : string) : jsstring :=
  N_of_ascii <$> list_ascii_of_string s.

(** [`${n}`] for an integral number [n]. *)
Definition num (n : Z) : jsstring := js (pretty n).

(** An [Error] object: only its [message] is observed by the code. *)
Record Error := mkError { message : jsstring }.

(** The outcome of an awaited call: a value, or a thrown [Error]. *)
Inductive Res (A : Type) : Type :=
| Ok (a : A)
| Throw (e : Error).
Arguments Ok {A} a.
Arguments Throw {A} e.

Definition is_ok {A} (r : Res A) : bool :=
  match r with Ok _ => true | Throw _ => false end.

Definition is_throw {A} (r : Res A) : bool :=
  match r with Ok _ => false | Throw _ => true end.

(** [s || d] on strings: the empty string is the only falsy string. *)
Definition str_or (s d : jsstring) : jsstring :=
  match s with [] => d | _ => s end.

(** ** Retry Dispatcher: [getLLMResponse] of part_004 (lines 358-384) *)

Module RetryDispatcher.

(** [interface ChatMessage]. *)
Inductive Role := user | assistant.
Record ChatMessage := {
  role : Role;
  content : jsstring;
  timestamp : Z;
}.

(** [interface LLMProvider], the two members the dispatcher uses.  The
    backend is external: the outcome of [getResponse] may differ from one
    call to the next, so it also takes the number of calls this provider has
    already served during the dispatch. *)
Record LLMProvider := {
  getName : jsstring;
  getResponse : jsstring -> list ChatMessage -> nat -> Res jsstring;
}.

(** The fields of [Config] read by the dispatcher. *)
Record Config := {
  apiMaxRetries : Z;
  apiRetryDelay : Z;
}.

(** What the dispatcher does to the outside world, in order. *)
Inductive Event :=
| EvGetResponse (attempt : Z)   (* provider.getResponse(prompt, chatHistory) *)
| EvSleep (delay : Z)           (* await new Promise(r => setTimeout(r, delay)) *)
| EvShowError (msg : jsstring). (* vscode.window.showErrorMessage(errorMsg, ...) *)

Section Dispatch.
(** [sanitizeHtml(response, { allowedTags: [pre, code, b, i], ... })]. *)
Variable sanitizeHtml : jsstring -> jsstring.
Variable config : Config.
Variable provider : LLMProvider.
Variable prompt : jsstring.
Variable chatHistory : list ChatMessage.

(** One run of the [for] loop body per unit of [left]; [left] is the
    number of iterations the loop condition [attempt < apiMaxRetries]
    still admits. *)
Fixpoint attempts (left : nat) (attempt : Z) (served : nat)
  : Res jsstring * list Event :=
  match left with
  | O =>
      (Throw (mkError (js "Unexpected error in getLLMResponse")),
       [EvShowError (js "Unexpected error in getLLMResponse")])
  | S left' =>
      match getResponse provider prompt chatHistory served with
      | Ok response =>
          let sanitized := sanitizeHtml response in
          (Ok (str_or sanitized (js "No response received from LLM")),
           [EvGetResponse attempt])
      | Throw error =>
          let message :=
            js "Failed to fetch " ++ getName provider ++
            js " response: " ++ message error in
          if attempt <? apiMaxRetries config - 1 then
            let delay := apiRetryDelay config * 2 ^ attempt in
            let '(r, evs) := attempts left' (attempt + 1) (S served) in
            (r, EvGetResponse attempt :: EvSleep delay :: evs)
          else
            let errorMsg :=
              message ++ js " (All " ++ num (apiMaxRetries config) ++
              js " retries failed)" in
            (Throw (mkError errorMsg),
             [EvGetResponse attempt; EvShowError errorMsg])
      end
  end.

Definition getLLMResponse : Res jsstring * list Event :=
  attempts (Z.to_nat (apiMaxRetries config)) 0 0%nat.
End Dispatch.

(** Observations on a run. *)
Definition calls (evs : list Event) : list Z :=
  omap (fun e => match e with EvGetResponse a => Some a | _ => None end) evs.

Definition sleeps (evs : list Event) : list Z :=
  omap (fun e => match e with EvSleep d => Some d | _ => None end) evs.


(** The failed attempts [from .. from + n - 1] that are retried: each call,
    and the sleep that follows it. *)
Definition retries (baseDelay from : Z) (n : nat) : list Event :=
  seq 0 n ≫= (fun i : nat =>
    [EvGetResponse (from + Z.of_nat i);
     EvSleep (baseDelay * 2 ^ (from + Z.of_nat i))]).


(** *** Inputs of the examples *)

(** Three attempts, one second of base delay (the defaults of [getConfig]). *)
Definition defaultRetry : Config :=
  {| apiMaxRetries := 3; apiRetryDelay := 1000 |}.

(** A backend that rejects every request. *)
Definition unreachable : LLMProvider :=
  {| getName := js "Ollama";
     getResponse := fun _ _ _ => Throw (mkError (js "connect ECONNREFUSED")) |}.


End RetryDispatcher.

(** ** The glob matcher used by the Inclusion Filter *)

Module Minimatch.

(** The parts of a glob: separators, wildcards and braces. *)

Definition slash : N := 47.
Definition star : N := 42.
Definition qmark : N := 63.
Definition dot : N := 46.
Definition lbrace : N := 123.
Definition rbrace : N := 125.
Definition comma : N := 44.

Definition MAX_PATTERN_LENGTH : N := 65536.

(** [s.split(/\/+/)]: runs of slashes separate the segments. *)
Fixpoint slashSplit_go (after_slash : bool) (s : jsstring) : list jsstring :=
  match s with
  | [] => [[]]
  | c :: s' =>
      if N.eqb c slash then
        if after_slash then slashSplit_go true s'
        else [] :: slashSplit_go true s'
      else
        match slashSplit_go false s' with
        | seg :: segs => (c :: seg) :: segs
        | [] => [[c]]
        end
  end.

Definition slashSplit (s : jsstring) : list jsstring := slashSplit_go false s.

(** Brace expansion, one level: [outs] are the expansions of what was read so
    far; inside a brace group, [group] holds the finished alternatives and the
    one being read. *)
Fixpoint braceExpand_go (outs : list jsstring)
    (group : option (list jsstring * jsstring)) (s : jsstring)
  : list jsstring :=
  match s with
  | [] =>
      match group with
      | None => outs
      | Some (done, cur) =>
          (* no closing brace: the text is literal *)
          let lit := lbrace :: concat ((fun a => a ++ [comma]) <$> done) ++ cur in
          (fun o => o ++ lit) <$> outs
      end
  | c :: s' =>
      match group with
      | None =>
          if N.eqb c lbrace then braceExpand_go outs (Some ([], [])) s'
          else braceExpand_go ((fun o => o ++ [c]) <$> outs) None s'
      | Some (done, cur) =>
          if N.eqb c comma then braceExpand_go outs (Some (done ++ [cur], [])) s'
          else if N.eqb c rbrace then
            braceExpand_go
              (o ← outs; a ← (done ++ [cur]); [o ++ a]) None s'
          else braceExpand_go outs (Some (done, cur ++ [c])) s'
      end
  end.

Definition braceExpand (pattern : jsstring) : list jsstring :=
  braceExpand_go [[]] None pattern.

Definition is_magic (c : N) : bool := N.eqb c star || N.eqb c qmark.

Definition starts_with_dot (f : jsstring) : bool :=
  match f with c :: _ => N.eqb c dot | [] => false end.

(** A segment pattern against a path segment: [*] is any run of characters,
    [?] is one character, anything else stands for itself. *)
Fixpoint wild (p f : jsstring) : bool :=
  match p with
  | [] => match f with [] => true | _ => false end
  | c :: p' =>
      if N.eqb c star then
        (fix any (f : jsstring) : bool :=
           wild p' f || match f with [] => false | _ :: f' => any f' end) f
      else if N.eqb c qmark then
        match f with [] => false | _ :: f' => wild p' f' end
      else
        match f with [] => false | d :: f' => N.eqb c d && wild p' f' end
  end.

Definition segMatch (p f : jsstring) : bool :=
  match p with
  | c :: _ =>
      if is_magic c
      then negb (starts_with_dot f) && negb (bool_decide (f = [])) && wild p f
      else wild p f
  | [] => bool_decide (f = [])
  end.

Definition is_globstar (p : jsstring) : bool := bool_decide (p = [star; star]).

(** [matchOne(file, pattern)]: segment by segment; [**] swallows any number of
    segments, none of which starts with a dot. *)
Fixpoint matchOne (pattern : list jsstring) (file : list jsstring) : bool :=
  match pattern with
  | [] => bool_decide (file = []) || bool_decide (file = [[]])
  | p :: pr =>
      if is_globstar p then
        match pr with
        | [] =>
            negb (bool_decide (file = [])) &&
            forallb (fun f => negb (starts_with_dot f)) file
        | _ =>
            (fix swallow (file : list jsstring) : bool :=
               match file with
               | [] => false
               | f :: fs =>
                   matchOne pr file ||
                   (negb (starts_with_dot f) && swallow fs)
               end) file
        end
      else
        match file with
        | [] => false
        | f :: fs => segMatch p f && matchOne pr fs
        end
  end.

(** Modelled from the spec: [minimatch], the external glob matcher that
    [shouldIncludeFile] imports (its source is not part of the repository).
    Section 4.1 asks for [**] (arbitrary depth), [*] (a wildcard inside one
    path segment) and brace alternation [{a,b,c}]; this model covers patterns
    built from literal characters, [?], [*], [**] and one level of braces,
    with the library's default options: a wildcard at the start of a segment
    and [**] do not match a segment that starts with a dot, and a pattern
    longer than 64 KiB is refused with a [TypeError]. *)
Definition minimatch (path pattern : jsstring) : Res bool :=
  if (MAX_PATTERN_LENGTH <? N.of_nat (length pattern))%N
  then Throw (mkError (js "pattern is too long"))
  else Ok (existsb (fun p => matchOne (slashSplit p) (slashSplit path))
             (braceExpand pattern)).

End Minimatch.

(** ** Inclusion Filter: [shouldIncludeFile] *)

Module InclusionFilter.

(** The two pattern lists, as [config.get] / [getConfig] deliver them. *)
Record Config := {
  includePatterns : list jsstring;
  excludePatterns : list jsstring;
}.

(** The defaults of [src/src/extension.ts] (lines 60-71) and of [getConfig]
    in part_004 (lines 272-281); they are the same lists. *)
Definition defaultIncludePatterns : list jsstring :=
  [js "**/*.{ts,js,py,md}"].

Definition defaultExcludePatterns : list jsstring :=
  [js "**/node_modules/**"; js "**/.git/**"; js "**/dist/**";
   js "**/build/**"; js "**/*.log"; js "**/*.lock"; js "**/*.bak.*"].

Definition defaultConfig : Config :=
  {| includePatterns := defaultIncludePatterns;
     excludePatterns := defaultExcludePatterns |}.

Section Filter.
(** [minimatch(relativePath, pattern)]; the call can throw. *)
Variable minimatch : jsstring -> jsstring -> Res bool.
(** [vscode.workspace.asRelativePath(uri)]. *)
Variable asRelativePath : jsstring -> jsstring.

(** [patterns.some((pattern) => minimatch(relativePath, pattern))]: the
    patterns are tried in order up to the first match; a throw of the callback
    ends the scan. *)
Fixpoint some (relativePath : jsstring) (patterns : list jsstring) : Res bool :=
  match patterns with
  | [] => Ok false
  | pattern :: rest =>
      match minimatch relativePath pattern with
      | Throw e => Throw e
      | Ok true => Ok true
      | Ok false => some relativePath rest
      end
  end.

(** [src/src/extension.ts], lines 55-89: both scans run inside [try]; the
    [catch] logs and returns [false]. *)
Definition Ext_shouldIncludeFile (uri : jsstring) (config : Config) : bool :=
  let relativePath := asRelativePath uri in
  match some relativePath (includePatterns config) with
  | Throw _ => false
  | Ok included =>
      match some relativePath (excludePatterns config) with
      | Throw _ => false
      | Ok excluded => included && negb excluded
      end
  end.

(** part_004, lines 295-301: [a.some(..) && !b.some(..)] with no handler;
    the exclude list is scanned only when an include pattern matched. *)
Definition P4_shouldIncludeFile (uri : jsstring) (config : Config) : Res bool :=
  let relativePath := asRelativePath uri in
  match some relativePath (includePatterns config) with
  | Throw e => Throw e
  | Ok false => Ok false
  | Ok true =>
      match some relativePath (excludePatterns config) with
      | Throw e => Throw e
      | Ok excluded => Ok (negb excluded)
      end
  end.

End Filter.

(** *** Inputs of the examples *)

(** A configuration that includes every file and keeps the default
    exclusions. *)
Definition includeAllConfig : Config :=
  {| includePatterns := [js "**/*"];
     excludePatterns := defaultExcludePatterns |}.

(** A configuration whose include pattern is 65537 stars long: longer than
    the matcher accepts. *)
Definition longPatternConfig : Config :=
  {| includePatterns := [replicate (Z.to_nat 65537) Minimatch.star];
     excludePatterns := defaultExcludePatterns |}.

End InclusionFilter.

(** ** Content Loader: [readFileContent] *)

Module ContentLoader.

(** [vscode.workspace.fs], as far as the loader uses it: [stat(uri).size]
    and [readFile(uri)], each of which can reject. *)
Record FileSystem := {
  stat_size : jsstring -> Res Z;
  readFile : jsstring -> Res (list N);
}.

Section Loader.
(** [new TextDecoder().decode(content)]. *)
Variable decode : list N -> jsstring.
Variable fs : FileSystem.

(** [src/src/extension.ts], lines 91-112.  Whatever is thrown inside [try],
    the size error included, is rethrown with the path in front. *)
Definition Ext_readFileContent (uri : jsstring) (maxFileSize : Z) : Res jsstring :=
  let rethrow (error : Error) : Res jsstring :=
    Throw (mkError (js "Error reading file " ++ uri ++ js ": " ++ message error)) in
  match stat_size fs uri with
  | Throw error => rethrow error
  | Ok size =>
      if maxFileSize <? size then
        rethrow (mkError (js "File size (" ++ num size ++
                          js " bytes) exceeds limit of " ++ num maxFileSize ++
                          js " bytes"))
      else
        match readFile fs uri with
        | Throw error => rethrow error
        | Ok content => Ok (decode content)
        end
  end.

(** part_004, lines 303-320.  [cache] is the optional [Map]; the map is
    shared with the caller, so the updated map is returned with the result. *)
Definition P4_readFileContent (uri : jsstring) (maxFileSize : Z)
    (cache : option (gmap jsstring jsstring))
  : Res jsstring * option (gmap jsstring jsstring) :=
  let rethrow (error : Error) : Res jsstring :=
    Throw (mkError (js "Failed to read file " ++ uri ++ js ": " ++ message error)) in
  match stat_size fs uri with
  | Throw error => (rethrow error, cache)
  | Ok size =>
      if maxFileSize <? size then
        (rethrow (mkError (js "File size (" ++ num size ++
                           js " bytes) exceeds limit of " ++ num maxFileSize)),
         cache)
      else
        match cache ≫= (fun c => c !! uri) with
        | Some cached => (Ok cached, cache)
        | None =>
            match readFile fs uri with
            | Throw error => (rethrow error, cache)
            | Ok content =>
                let decoded := decode content in
                (Ok decoded, (fun c => <[uri := decoded]> c) <$> cache)
            end
        end
  end.

End Loader.

(** The error of an oversized file, as each revision words it. *)
Definition Ext_tooLarge (uri : jsstring) (size maxFileSize : Z) : Error :=
  mkError (js "Error reading file " ++ uri ++ js ": " ++
           js "File size (" ++ num size ++ js " bytes) exceeds limit of " ++
           num maxFileSize ++ js " bytes").

Definition P4_tooLarge (uri : jsstring) (size maxFileSize : Z) : Error :=
  mkError (js "Failed to read file " ++ uri ++ js ": " ++
           js "File size (" ++ num size ++ js " bytes) exceeds limit of " ++
           num maxFileSize).

(** *** Inputs of the examples *)

(** A file system whose every file has [size] bytes, all zero. *)
Definition uniformFs (size : Z) : FileSystem :=
  {| stat_size := fun _ => Ok size;
     readFile := fun _ => Ok (replicate (Z.to_nat size) 0%N) |}.

End ContentLoader.

(** ** Review Parser: the two regular expressions of [reviewFile] *)

Module ReviewParser.

(** *** Character classes *)

Definition backtick : N := 96.
Definition newline : N := 10.

(** [\d] *)
Definition is_digit (c : N) : bool := (48 <=? c)%N && (c <=? 57)%N.

(** [\w], without the [u] and [i] flags: [A-Za-z0-9_]. *)
Definition is_word (c : N) : bool :=
  ((65 <=? c)%N && (c <=? 90)%N) || ((97 <=? c)%N && (c <=? 122)%N) ||
  is_digit c || (c =? 95)%N.

(** [[^\n]] *)
Definition not_newline (c : N) : bool := negb (c =? newline)%N.

(** [[\s\S]] *)
Definition any_char (c : N) : bool := true.

(** What [String.prototype.trim] removes: WhiteSpace and LineTerminator code
    units (TAB, LF, VT, FF, CR, SP, NBSP, the space separators, LS, PS, BOM). *)
Definition is_space (c : N) : bool :=
  ((9 <=? c)%N && (c <=? 13)%N) || (c =? 32)%N || (c =? 160)%N ||
  (c =? 5760)%N || ((8192 <=? c)%N && (c <=? 8202)%N) ||
  (c =? 8232)%N || (c =? 8233)%N || (c =? 8239)%N || (c =? 8287)%N ||
  (c =? 12288)%N || (c =? 65279)%N.

(** *** A backtracking matcher, in continuation-passing style

    A pattern takes the continuation that matches what follows it; a failed
    continuation makes a quantifier try its next alternative, as the
    JavaScript engine does. *)

Section Regex.
Context {R : Type}.

(** A literal. *)
Fixpoint lit (l : jsstring) (k : jsstring -> option R) (s : jsstring) : option R :=
  match l with
  | [] => k s
  | c :: l' =>
      match s with
      | d :: s' => if (c =? d)%N then lit l' k s' else None
      | [] => None
      end
  end.

(** [X*], greedy: the longest run first, then one character less at a time.
    The continuation receives the text matched and the rest. *)
Fixpoint star_greedy (X : N -> bool) (k : jsstring -> jsstring -> option R)
    (s : jsstring) : option R :=
  match s with
  | c :: s' =>
      if X c then
        match star_greedy X (fun m => k (c :: m)) s' with
        | Some r => Some r
        | None => k [] s
        end
      else k [] s
  | [] => k [] s
  end.

(** [X+], greedy. *)
Definition plus_greedy (X : N -> bool) (k : jsstring -> jsstring -> option R)
    (s : jsstring) : option R :=
  match s with
  | c :: s' => if X c then star_greedy X (fun m => k (c :: m)) s' else None
  | [] => None
  end.

(** [X*?], lazy: the shortest run first. *)
Fixpoint star_lazy (X : N -> bool) (k : jsstring -> jsstring -> option R)
    (s : jsstring) : option R :=
  match k [] s with
  | Some r => Some r
  | None =>
      match s with
      | c :: s' => if X c then star_lazy X (fun m => k (c :: m)) s' else None
      | [] => None
      end
  end.

(** The leftmost match: the pattern is tried at each position in turn. *)
Fixpoint search (re : jsstring -> option R) (s : jsstring) : option R :=
  match re s with
  | Some r => Some r
  | None => match s with [] => None | _ :: s' => search re s' end
  end.

End Regex.

(** *** Suggested replacement (part_004 lines 457-460, extension.ts 272-277) *)

Definition fence : jsstring := [backtick; backtick; backtick].

(** [/```[\s\S]*?```/], returning [match[0]]. *)
Definition fence_re : jsstring -> option jsstring :=
  lit fence (star_lazy any_char (fun body =>
    lit fence (fun _ => Some (fence ++ body ++ fence)))).

(** [.replace(/```/g, "")]: the occurrences are removed from left to right. *)
Fixpoint remove_fences (s : jsstring) : jsstring :=
  match s with
  | [] => []
  | a :: t =>
      match t with
      | b :: c :: s' =>
          if (a =? backtick)%N && (b =? backtick)%N && (c =? backtick)%N
          then remove_fences s'
          else a :: remove_fences t
      | _ => a :: remove_fences t
      end
  end.

Fixpoint trimStart (s : jsstring) : jsstring :=
  match s with
  | c :: s' => if is_space c then trimStart s' else s
  | [] => []
  end.

Definition trimEnd (s : jsstring) : jsstring := reverse (trimStart (reverse s)).

(** [.trim()] *)
Definition trim (s : jsstring) : jsstring := trimEnd (trimStart s).

(** [suggestedChanges]: [undefined] is [None]. *)
Definition suggestedChanges (review : jsstring) : option jsstring :=
  match search fence_re review with
  | Some changeMatch => Some (trim (remove_fences changeMatch))
  | None => None
  end.

(** *** Issues (part_004 lines 462-465) *)

(** A JavaScript number, as far as the line of an issue needs it: an
    integer that a double holds, or [Infinity]. *)
Inductive Number :=
| Finite (n : Z)
| Infinity.

(** [interface Issue]. *)
Record Issue := {
  line : Number;
  message : jsstring;
  severity : jsstring;
}.

(** The double nearest to an integer written in full, ties to the even
    mantissa: every integer below [2^53] is a double; from there on a double
    keeps the 53 leading bits; and what rounds to [2^1024] or more is
    [Infinity]. *)
Definition nearest_double (n : Z) : Number :=
  if n <? 2 ^ 53 then Finite n
  else
    let e := Z.log2 n - 52 in
    let q := Z.shiftr n e in
    let r := n - Z.shiftl q e in
    let half := Z.shiftl 1 (e - 1) in
    let q' := if (half <? r) || ((r =? half) && Z.odd q) then q + 1 else q in
    if 1024 <=? Z.log2 (Z.shiftl q' e) then Infinity
    else Finite (Z.shiftl q' e).

(** [x - 1] on such a number. *)
Definition minus_one (x : Number) : Number :=
  match x with
  | Finite n => nearest_double (n - 1)
  | Infinity => Infinity
  end.

(** The integer that a run of decimal digits writes. *)
Definition digit_value (c : N) : Z := Z.of_N c - 48.

Definition decimal (digits : jsstring) : Z :=
  foldl (fun acc c => 10 * acc + digit_value c) 0 digits.

(** [parseInt] on a run of decimal digits: the number nearest to the integer
    written.  (The language allows an engine to read the digits after the
    twentieth as zeros; V8, on which the extension runs, converts them
    all.) *)
Definition parseInt (digits : jsstring) : Number :=
  nearest_double (decimal digits).

(** [/Line (\d+): (\w+ severity) - ([^\n]+)/] at one position: the issue built
    from the three groups, and the text after the match. *)
Definition issue_re : jsstring -> option (Issue * jsstring) :=
  lit (js "Line ") (plus_greedy is_digit (fun g1 =>
    lit (js ": ") (plus_greedy is_word (fun w =>
      lit (js " severity") (
        lit (js " - ") (plus_greedy not_newline (fun g3 rest =>
          Some ({| line := parseInt g1;
                   severity := w ++ js " severity";
                   message := g3 |}, rest)))))))).

(** [review.matchAll(/.../g)] with the loop that pushes one issue per match.
    [skip] is the distance from the current position to [lastIndex]: after a
    match the scan resumes where the match ended. *)
Fixpoint matchAll_go (skip : nat) (s : jsstring) : list Issue :=
  match s with
  | [] => []
  | _ :: s' =>
      match skip with
      | S n => matchAll_go n s'
      | O =>
          match issue_re s with
          | Some (issue, rest) =>
              issue :: matchAll_go (length s - length rest - 1) s'
          | None => matchAll_go 0 s'
          end
      end
  end.

Definition parseIssues (review : jsstring) : list Issue := matchAll_go 0 review.

(** *** The reading of the specification, to compare with *)

(** The text after a leading fence. *)
Definition strip_fence (s : jsstring) : option jsstring :=
  match s with
  | a :: b :: c :: rest =>
      if (a =? backtick)%N && (b =? backtick)%N && (c =? backtick)%N
      then Some rest else None
  | _ => None
  end.

(** The text before the first [```] and the text after it. *)
Fixpoint find_fence (s : jsstring) : option (jsstring * jsstring) :=
  match s with
  | [] => None
  | a :: t =>
      match t with
      | b :: c :: rest =>
          if (a =? backtick)%N && (b =? backtick)%N && (c =? backtick)%N
          then Some ([], rest)
          else (fun '(pre, rest) => (a :: pre, rest)) <$> find_fence t
      | _ => None
      end
  end.

(** "The first triple-fenced code block in the reply, with the fence markers
    stripped": what stands between the first fence and the next one. *)
Definition firstFencedBlock (review : jsstring) : option jsstring :=
  '(_, after_open) ← find_fence review;
  '(body, _) ← find_fence after_open;
  Some body.

(** The same block with its two fences: [match[0]] of the leftmost match. *)
Definition fenced_match (s : jsstring) : option jsstring :=
  '(_, after_open) ← find_fence s;
  '(body, _) ← find_fence after_open;
  Some (fence ++ body ++ fence).

(** *** The issue pattern without backtracking

    In [/Line (\d+): (\w+ severity) - ([^\n]+)/] each greedy group is
    followed by a character outside its class, or by nothing: giving back
    characters never helps, so each group is the longest run of its class.
    [issue_direct] reads the pattern that way; it is proved equal to
    [issue_re] below. *)

Fixpoint takeW (X : N -> bool) (s : jsstring) : jsstring :=
  match s with
  | c :: s' => if X c then c :: takeW X s' else []
  | [] => []
  end.

Fixpoint dropW (X : N -> bool) (s : jsstring) : jsstring :=
  match s with
  | c :: s' => if X c then dropW X s' else s
  | [] => []
  end.

(** The text after the literal [l], when [s] starts with it. *)
Fixpoint strip (l s : jsstring) : option jsstring :=
  match l with
  | [] => Some s
  | c :: l' =>
      match s with
      | d :: s' => if (c =? d)%N then strip l' s' else None
      | [] => None
      end
  end.

(** The longest non-empty run of [X] at the start of [s], and the rest. *)
Definition run1 (X : N -> bool) (s : jsstring) : option (jsstring * jsstring) :=
  match takeW X s with
  | [] => None
  | m => Some (m, dropW X s)
  end.

Definition issue_direct (s : jsstring) : option (Issue * jsstring) :=
  r1 ← strip (js "Line ") s;
  '(g1, r2) ← run1 is_digit r1;
  r3 ← strip (js ": ") r2;
  '(w, r4) ← run1 is_word r3;
  r5 ← strip (js " severity") r4;
  r6 ← strip (js " - ") r5;
  '(g3, r7) ← run1 not_newline r6;
  Some ({| line := parseInt g1;
           severity := w ++ js " severity";
           message := g3 |}, r7).

(** A run is maximal when what follows is empty or starts outside the class. *)
Definition stops (X : N -> bool) (r : jsstring) : Prop :=
  match r with [] => True | c :: _ => X c = false end.

(** The text of an issue line: [Line <ds>: <w> severity - <msg>]. *)
Definition issue_text (ds w msg : jsstring) : jsstring :=
  js "Line " ++ ds ++ js ": " ++ w ++ js " severity" ++ js " - " ++ msg.

Definition issue_of (ds w msg : jsstring) : Issue :=
  {| line := parseInt ds; severity := w ++ js " severity"; message := msg |}.

(** A line matches the pattern when the pattern occurs in it. *)
Definition matches_pattern (l : jsstring) : Prop :=
  exists pre ds w msg post,
    l = pre ++ issue_text ds w msg ++ post /\
    ds <> [] /\ forallb is_digit ds = true /\
    w <> [] /\ forallb is_word w = true /\
    msg <> [] /\ forallb not_newline msg = true.

(** The lines of a text, separated by line feeds. *)
Fixpoint lines (s : jsstring) : list jsstring :=
  match s with
  | [] => [[]]
  | c :: s' =>
      if (c =? newline)%N then [] :: lines s'
      else match lines s' with
           | l :: ls => (c :: l) :: ls
           | [] => [[c]]
           end
  end.

(** The issue a single line yields, if the pattern occurs in it. *)
Definition lineIssue (l : jsstring) : option Issue := fst <$> search issue_re l.

(** The four normalized severity tags of the data model. *)
Definition normalizedSeverities : list jsstring :=
  [js "High"; js "Medium"; js "Low"; js "Info"].

(** Turns a character-class test into arithmetic. *)
Ltac class_arith H :=
  unfold is_word, is_digit, not_newline, newline in H;
  rewrite ?orb_true_iff, ?andb_true_iff, ?negb_true_iff,
    ?N.leb_le, ?N.eqb_eq, ?N.eqb_neq in H.

End ReviewParser.

(** ** The per-file pipeline: [reviewFile] *)

Module ReviewFile.
Import ContentLoader.

Definition nl : jsstring := [ReviewParser.newline].
Definition fence : jsstring := ReviewParser.fence.

(** [interface FileReview]; [relatedFiles] and [issues] exist in part_004
    only. *)
Record FileReview := {
  uri : jsstring;
  content : jsstring;
  review : jsstring;
  suggestedChanges : option jsstring;
  issues : option (list ReviewParser.Issue);
  relatedFiles : option (list jsstring);
}.

(** [array.join("\n")] *)
Fixpoint join_lines (l : list jsstring) : jsstring :=
  match l with
  | [] => []
  | [x] => x
  | x :: rest => x ++ nl ++ join_lines rest
  end.

(** [await Promise.all(xs.map(f))]: every result, or a rejection (here that
    of the first element that rejects); also [xs.map(f)] for an [f] that can
    throw. *)
Fixpoint mapM {A B : Type} (f : A -> Res B) (l : list A) : Res (list B) :=
  match l with
  | [] => Ok []
  | x :: rest =>
      match f x with
      | Throw e => Throw e
      | Ok y =>
          match mapM f rest with
          | Throw e => Throw e
          | Ok ys => Ok (y :: ys)
          end
      end
  end.

(** The number of lines of a document.  The text of a document is a string,
    and a string has at most [2^53 - 1] code units: a document has at most
    [2^53] lines. *)
Record LineCount := {
  count_of : Z;
  count_bound : Is_true (count_of <=? 2 ^ 53);
}.

Section Pipeline.
Variable decode : list N -> jsstring.
Variable fs : FileSystem.
Variable asRelativePath : jsstring -> jsstring.

(** *** [src/src/extension.ts], lines 250-285 *)

(** [getLLMResponse(prompt, config)] of that revision (lines 197-248): one
    request to the configured backend, which answers or rejects. *)
Variable Ext_getLLMResponse : jsstring -> Res jsstring.

Definition Ext_prompt (relativePath content : jsstring) : jsstring :=
  nl ++ js "Review the following code from " ++ relativePath ++ js ":" ++ nl ++
  fence ++ nl ++ content ++ nl ++ fence ++ nl ++ nl ++
  js "Provide a detailed review in markdown format, including:" ++ nl ++
  js "1. Code quality assessment" ++ nl ++
  js "2. Potential bugs or issues" ++ nl ++
  js "3. Performance improvements" ++ nl ++
  js "4. Security concerns" ++ nl ++
  js "5. Suggested changes (if any, in a " ++ fence ++ js " code block)" ++ nl ++
  nl ++ js "Ensure the review is concise and actionable." ++ nl.

(** The result, and the prompts that were sent to the backend. *)
Definition Ext_reviewFile (uri : jsstring) (maxFileSize : Z)
  : Res FileReview * list jsstring :=
  let rethrow (error : Error) : Res FileReview :=
    Throw (mkError (js "Failed to review file " ++ uri ++ js ": " ++
                    message error)) in
  match Ext_readFileContent decode fs uri maxFileSize with
  | Throw error => (rethrow error, [])
  | Ok content =>
      let prompt := Ext_prompt (asRelativePath uri) content in
      match Ext_getLLMResponse prompt with
      | Throw error => (rethrow error, [prompt])
      | Ok review =>
          (Ok {| uri := uri; content := content; review := review;
                 suggestedChanges := ReviewParser.suggestedChanges review;
                 issues := None; relatedFiles := None |},
           [prompt])
      end
  end.

(** *** part_004, lines 435-485 *)

(** [getRelatedFiles(uri, config)] (lines 386-399): the workspace-relative
    paths of the imports of the file that exist and pass the filter. *)
Variable getRelatedFiles : jsstring -> Res (list jsstring).
(** [join(workspaceFolders[0].uri.fsPath, file)] *)
Variable inWorkspace : jsstring -> jsstring.
(** [(await openTextDocument(uri)).lineCount] *)
Variable lineCount : jsstring -> Res LineCount.
Variable sanitizeHtml : jsstring -> jsstring.

Definition P4_relatedBlock (maxFileSize : Z) (file : jsstring) : Res jsstring :=
  match (P4_readFileContent decode fs (inWorkspace file) maxFileSize None).1 with
  | Throw e => Throw e
  | Ok text =>
      Ok (js "**Related File: " ++ file ++ js "**" ++ nl ++ fence ++ nl ++
          text ++ nl ++ fence)
  end.

Definition P4_projectContextSummary (relativePath : jsstring)
    (projectContext : option (list (jsstring * jsstring))) : jsstring :=
  match projectContext with
  | Some entries =>
      join_lines
        ((fun '(path, summary) => js "**" ++ path ++ js "**: " ++ summary)
           <$> filter (fun '(path, _) => path <> relativePath) entries)
  | None => []
  end.

Definition P4_defaultReviewPrompt (relativePath content : jsstring)
    (relatedContent : list jsstring) (projectContextSummary : jsstring)
  : jsstring :=
  js "You are an expert code reviewer. Review the following code from " ++
  relativePath ++ js ":" ++ nl ++ fence ++ nl ++ content ++ nl ++ fence ++ nl ++
  join_lines relatedContent ++ nl ++ nl ++ js "**Project Context**:" ++ nl ++
  str_or projectContextSummary (js "No additional context available.") ++ nl ++
  js "Provide a detailed review in markdown format with the following sections:" ++ nl ++
  js "1. **Code Quality**: Assess readability, maintainability, and adherence to best practices." ++ nl ++
  js "2. **Potential Issues**: Identify bugs or logical errors with specific line numbers." ++ nl ++
  js "3. **Performance**: Suggest optimizations for efficiency." ++ nl ++
  js "4. **Security**: Highlight potential vulnerabilities." ++ nl ++
  js "5. **Suggested Changes**: Provide a code block with recommended changes." ++ nl ++
  js "6. **Issues List**: Summarize issues in a bullet list with line numbers and severity (High/Medium/Low)." ++ nl ++
  js "Ensure the review is concise, actionable, and includes specific examples.".

(** [document.lineAt(issue.line - 1)] rejects a line outside the document. *)
Definition P4_lineAt (count : LineCount) (issue : ReviewParser.Issue)
  : Res unit :=
  match ReviewParser.minus_one (ReviewParser.line issue) with
  | ReviewParser.Finite l =>
      if (0 <=? l) && (l <? count_of count) then Ok tt
      else Throw (mkError (js "Illegal value for `line`"))
  | ReviewParser.Infinity => Throw (mkError (js "Illegal value for `line`"))
  end.

(** The result, and what the retry dispatcher did. *)
Definition P4_reviewFile (uri : jsstring) (maxFileSize : Z)
    (reviewPrompt : jsstring) (retry : RetryDispatcher.Config)
    (projectContext : option (list (jsstring * jsstring)))
    (provider : option RetryDispatcher.LLMProvider)
  : Res FileReview * list RetryDispatcher.Event :=
  match provider with
  | None => (Throw (mkError (js "No LLM provider configured")), [])
  | Some provider =>
  match (P4_readFileContent decode fs uri maxFileSize None).1 with
  | Throw e => (Throw e, [])
  | Ok content =>
  match getRelatedFiles uri with
  | Throw e => (Throw e, [])
  | Ok relatedFiles =>
  match mapM (P4_relatedBlock maxFileSize) relatedFiles with
  | Throw e => (Throw e, [])
  | Ok relatedContent =>
      let relativePath := asRelativePath uri in
      let prompt :=
        str_or reviewPrompt
          (P4_defaultReviewPrompt relativePath content relatedContent
             (P4_projectContextSummary relativePath projectContext)) in
      let '(response, events) :=
        RetryDispatcher.getLLMResponse sanitizeHtml retry provider prompt [] in
      match response with
      | Throw e => (Throw e, events)
      | Ok review =>
          let suggestedChanges := ReviewParser.suggestedChanges review in
          let issues := ReviewParser.parseIssues review in
          match lineCount uri with
          | Throw e => (Throw e, events)
          | Ok count =>
              match mapM (P4_lineAt count) issues with
              | Throw e => (Throw e, events)
              | Ok _ =>
                  (Ok {| uri := uri; content := content; review := review;
                         suggestedChanges := suggestedChanges;
                         issues := Some issues;
                         relatedFiles := Some relatedFiles |},
                   events)
              end
          end
      end
  end end end end.

End Pipeline.

End ReviewFile.

(** ** File Mutation Gate: [backupFile], [applyFileChanges], [applyFileContent] *)

Module MutationGate.

Definition slash : N := 47.

(** [path.basename(p)]: what follows the last separator of a file path. *)
Fixpoint basename_go (segment p : jsstring) : jsstring :=
  match p with
  | [] => segment
  | c :: p' =>
      if (c =? slash)%N then basename_go [] p'
      else basename_go (segment ++ [c]) p'
  end.

Definition basename (p : jsstring) : jsstring := basename_go [] p.

Definition dot : N := 46.

(** The characters of the decimal rendering of a number: the digits, and
    the sign. *)
Definition numeric (c : N) : Prop := (48 <= c <= 57)%N \/ c = 45%N.

(** A file name: no separator in it. *)
Definition no_slash (s : jsstring) : Prop := slash ∉ s.

(** [path.join(dir, name)] for a directory and a file name. *)
Definition join (dir name : jsstring) : jsstring := dir ++ [slash] ++ name.

(** The files on the disk, and the text documents the editor holds open.  A
    document with unsaved edits holds a text that is not the content of its
    file. *)
Record World := {
  disk : gmap jsstring jsstring;
  editor : gmap jsstring jsstring;
}.

(** What the editor, the file system, the clock and the user contribute to
    one run.  A write that fails may have written part of the file by then:
    the [..._left] fields say what it left at the path ([None]: the path is
    as it was). *)
Record Env := {
  tmpdir : jsstring;                (* os.tmpdir() *)
  now_suggested : Z;                (* Date.now() in the temporary file's name *)
  now_backup : Z;                   (* Date.now() / new Date().getTime() in backupFile *)
  open_error : option Error;        (* openTextDocument rejects a file it has to load *)
  writeFile_error : option Error;   (* fs.writeFile(tempFile, ...) rejects *)
  writeFile_left : option jsstring; (* ... and what it left of the temporary file *)
  diff_error : option Error;        (* executeCommand("vscode.diff", ...) rejects *)
  answer : option jsstring;         (* what showInformationMessage resolves to *)
  unlink_error : option Error;      (* fs.unlink(tempFile) rejects *)
  copy_error : option Error;        (* workspace.fs.copy rejects for its own reasons *)
  copy_left : option jsstring;      (* ... and what it left of the backup *)
  applyEdit_result : Res bool;      (* how workspace.applyEdit settles *)
  save_result : Res bool;           (* how document.save settles *)
  save_left : option jsstring;      (* what a save that did not succeed left of the file *)
}.

(** What a run does, in order. *)
Inductive Event :=
| EvWriteTemp (path : jsstring)           (* the temporary file is written *)
| EvUnlink (path : jsstring)              (* ... and removed *)
| EvBackup (source backup : jsstring)     (* the copy is made *)
| EvSave (path text : jsstring)           (* document.save() writes the file *)
| EvSaveFailed (path : jsstring)          (* document.save() resolves to false, or rejects *)
| EvShowError (msg : jsstring).

(** A step of the gate: it reads and changes the world, can throw, and
    leaves events behind.  During a run nothing but the gate changes the
    files and the documents. *)
Definition M (A : Type) : Type := World -> Res A * World * list Event.

Definition ret {A : Type} (a : A) : M A := fun w => (Ok a, w, []).

Definition throw {A : Type} (e : Error) : M A := fun w => (Throw e, w, []).

Definition bind {A B : Type} (m : M A) (k : A -> M B) : M B :=
  fun w =>
    match m w with
    | (Ok a, w', evs) => let '(r, w'', evs') := k a w' in (r, w'', evs ++ evs')
    | (Throw e, w', evs) => (Throw e, w', evs)
    end.

(** [try { m } catch (error) { handler }] *)
Definition try_catch {A : Type} (m : M A) (handler : Error -> M A) : M A :=
  fun w =>
    match m w with
    | (Ok a, w', evs) => (Ok a, w', evs)
    | (Throw e, w', evs) =>
        let '(r, w'', evs') := handler e w' in (r, w'', evs ++ evs')
    end.

#[global] Instance M_ret : MRet M := @ret.
#[global] Instance M_bind : MBind M := fun A B k m => bind m k.

Definition emit (ev : Event) : M unit := fun w => (Ok tt, w, [ev]).

Definition FileNotFound (path : jsstring) : Error :=
  mkError (js "EntryNotFound (FileSystemError): " ++ path).

Definition FileExists (path : jsstring) : Error :=
  mkError (js "EntryExists (FileSystemError): " ++ path).

(** The disk after a write to [path] that failed. *)
Definition leave (left : option jsstring) (path : jsstring)
    (d : gmap jsstring jsstring) : gmap jsstring jsstring :=
  match left with
  | Some partial => <[path := partial]> d
  | None => d
  end.

(** The world with another disk, and with another text of a document. *)
Definition with_disk (d : gmap jsstring jsstring) (w : World) : World :=
  {| disk := d; editor := editor w |}.

Definition with_text (uri text : jsstring) (w : World) : World :=
  {| disk := disk w; editor := <[uri := text]> (editor w) |}.

(** [(await vscode.workspace.openTextDocument(uri)).getText()]: the text of
    the document as the editor holds it, unsaved edits included; a file
    that is not open yet is loaded from the disk first. *)
Definition openTextDocument (env : Env) (uri : jsstring) : M jsstring :=
  fun w =>
    match editor w !! uri with
    | Some text => (Ok text, w, [])
    | None =>
        match open_error env with
        | Some e => (Throw e, w, [])
        | None =>
            match disk w !! uri with
            | Some text => (Ok text, with_text uri text w, [])
            | None => (Throw (FileNotFound uri), w, [])
            end
        end
    end.

(** [fs.writeFile(path, text, "utf8")] *)
Definition fs_writeFile (env : Env) (path text : jsstring) : M unit :=
  fun w =>
    match writeFile_error env with
    | Some e => (Throw e, with_disk (leave (writeFile_left env) path (disk w)) w, [])
    | None => (Ok tt, with_disk (<[path := text]> (disk w)) w, [EvWriteTemp path])
    end.

(** [vscode.commands.executeCommand("vscode.diff", ...)] *)
Definition showDiff (env : Env) : M unit :=
  fun w =>
    match diff_error env with
    | Some e => (Throw e, w, [])
    | None => (Ok tt, w, [])
    end.

(** [fs.unlink(path).catch(() => {})]: a rejection is swallowed, and the
    file stays. *)
Definition fs_unlink (env : Env) (path : jsstring) : M unit :=
  fun w =>
    match unlink_error env with
    | Some _ => (Ok tt, w, [])
    | None => (Ok tt, with_disk (delete path (disk w)) w, [EvUnlink path])
    end.

(** [vscode.workspace.fs.copy(source, target)]: it copies the file on the
    disk, and does not overwrite by default. *)
Definition fs_copy (env : Env) (source target : jsstring) : M unit :=
  fun w =>
    match copy_error env with
    | Some e => (Throw e, with_disk (leave (copy_left env) target (disk w)) w, [])
    | None =>
        match disk w !! source with
        | None => (Throw (FileNotFound source), w, [])
        | Some text =>
            match disk w !! target with
            | Some _ => (Throw (FileExists target), w, [])
            | None =>
                (Ok tt, with_disk (<[target := text]> (disk w)) w,
                 [EvBackup source target])
            end
        end
    end.

(** [await vscode.workspace.applyEdit(edit)], where [edit] replaces the
    whole text of the document by [newContent]: the text changes in the
    editor when the edit is applied, and the disk is not touched.  A text
    edit is applied as a whole or not at all. *)
Definition applyEdit (env : Env) (uri newContent : jsstring) : M bool :=
  fun w =>
    match applyEdit_result env with
    | Ok true => (Ok true, with_text uri newContent w, [])
    | Ok false => (Ok false, w, [])
    | Throw e => (Throw e, w, [])
    end.

(** [await document.save()]: it writes the text the editor holds at that
    moment.  (The document was opened before, so the first case does not
    arise in a run of the gate.) *)
Definition document_save (env : Env) (uri : jsstring) : M bool :=
  fun w =>
    match editor w !! uri with
    | None => (Ok false, w, [])
    | Some text =>
        match save_result env with
        | Ok true =>
            (Ok true, with_disk (<[uri := text]> (disk w)) w, [EvSave uri text])
        | Ok false =>
            (Ok false, with_disk (leave (save_left env) uri (disk w)) w,
             [EvSaveFailed uri])
        | Throw e =>
            (Throw e, with_disk (leave (save_left env) uri (disk w)) w,
             [EvSaveFailed uri])
        end
    end.

(** The preview and the question, shared by both revisions: the suggested
    text goes to a temporary file, the diff is shown, the user is asked, and
    the temporary file is removed. *)
Definition confirm (env : Env) (uri newContent : jsstring) : M bool :=
  let tempFile :=
    join (tmpdir env)
      (basename uri ++ js ".suggested." ++ num (now_suggested env)) in
  _ ← fs_writeFile env tempFile newContent;
  _ ← showDiff env;
  let apply := answer env in
  _ ← fs_unlink env tempFile;
  mret (bool_decide (apply = Some (js "Apply"))).

(** *** [src/src/extension.ts], lines 114-195 *)

Definition Ext_backupPath (uri : jsstring) (timestamp : Z) : jsstring :=
  uri ++ js ".bak." ++ num timestamp.

Definition Ext_backupFile (env : Env) (uri : jsstring) : M jsstring :=
  let timestamp := now_backup env in
  let backupUri := Ext_backupPath uri timestamp in
  try_catch
    (_ ← fs_copy env uri backupUri; mret backupUri)
    (fun error =>
       throw (mkError (js "Failed to create backup for " ++ uri ++ js ": " ++
                       message error))).

Definition Ext_applyFileChanges (env : Env) (uri newContent : jsstring)
    (autoApply : bool) : M bool :=
  try_catch
    (currentContent ← openTextDocument env uri;
     if bool_decide (currentContent = newContent) then mret false
     else
       proceed ← (if autoApply then mret true else confirm env uri newContent);
       if negb proceed then mret false
       else
         _ ← Ext_backupFile env uri;
         _ ← applyEdit env uri newContent;
         _ ← document_save env uri;
         mret true)
    (fun error =>
       _ ← emit (EvShowError (js "Failed to apply changes to " ++ uri ++
                              js ": " ++ message error));
       mret false).

(** *** part_004, lines 322-356 *)

Definition P4_backupPath (uri : jsstring) (timestamp : Z) : jsstring :=
  uri ++ js ".bak" ++ num timestamp.

Definition P4_backupFile (env : Env) (uri : jsstring) : M unit :=
  let timestamp := now_backup env in
  let backupUri := P4_backupPath uri timestamp in
  fs_copy env uri backupUri.

Definition P4_applyFileContent (env : Env) (uri newContent : jsstring)
    (autoApplyChanges : bool) : M bool :=
  currentContent ← openTextDocument env uri;
  if bool_decide (currentContent = newContent) then mret false
  else
    proceed ← (if negb autoApplyChanges then confirm env uri newContent
               else mret true);
    if negb proceed then mret false
    else
      _ ← P4_backupFile env uri;
      _ ← applyEdit env uri newContent;
      _ ← document_save env uri;
      mret true.




(** *** What the gate promises, for a run [(result, world', events)] from
    [world] with the backup path [bak] *)

(** The document of [uri] opens, and its text is [text]: the editor holds
    it with that text, or loads that text from the disk. *)
Definition opens (env : Env) (w : World) (uri text : jsstring) : Prop :=
  editor w !! uri = Some text \/
  (editor w !! uri = None /\ open_error env = None /\ disk w !! uri = Some text).

(** The change is confirmed: auto-apply is on, or the preview could be shown
    and the user chose Apply. *)
Definition confirmed (env : Env) (autoApply : bool) : Prop :=
  autoApply = true \/
  (writeFile_error env = None /\ diff_error env = None /\
   answer env = Some (js "Apply")).


(** *** Inputs of the examples *)


(** A disk with the one file [/w/a.ts], holding [old], and no document open
    in the editor. *)
Definition oneFile : World :=
  {| disk := {[ js "/w/a.ts" := js "old" ]}; editor := ∅ |}.

(** The same file, open in the editor with the unsaved text [draft]. *)
Definition unsavedDraft : World :=
  {| disk := {[ js "/w/a.ts" := js "old" ]};
     editor := {[ js "/w/a.ts" := js "draft" ]} |}.

End MutationGate.

(** ** Backend Adapter: [getResponse] of the three providers (part_004) *)

Module BackendAdapter.

(** The parsed body of a reply. *)
Inductive JSON :=
| JNull
| JBool (b : bool)
| JNum (n : Z)
| JStr (s : jsstring)
| JArr (items : list JSON)
| JObj (fields : list (jsstring * JSON)).

(** A value the adapter handles: [undefined] is [None]. *)
Definition Value := option JSON.

Definition truthy (v : Value) : bool :=
  match v with
  | None | Some JNull => false
  | Some (JBool b) => b
  | Some (JNum n) => negb (n =? 0)
  | Some (JStr s) => negb (bool_decide (s = []))
  | Some (JArr _) | Some (JObj _) => true
  end.

(** [a || b] *)
Definition or (a b : Value) : Value := if truthy a then a else b.

Fixpoint field (name : jsstring) (fields : list (jsstring * JSON)) : Value :=
  match fields with
  | [] => None
  | (k, v) :: rest => if bool_decide (k = name) then Some v else field name rest
  end.

Definition TypeError (what name : string) : Error :=
  mkError (js "Cannot read properties of " ++ js what ++
           js " (reading '" ++ js name ++ js "')").

(** [v.name] for one of the names the adapters read ([text], [response],
    [choices], [message], [content]): no primitive or array has them. *)
Definition get (v : Value) (name : string) : Res Value :=
  match v with
  | None => Throw (TypeError "undefined" name)
  | Some JNull => Throw (TypeError "null" name)
  | Some (JObj fields) => Ok (field (js name) fields)
  | Some _ => Ok None
  end.

(** [v?.name] *)
Definition get_opt (v : Value) (name : string) : Value :=
  match v with
  | Some (JObj fields) => field (js name) fields
  | _ => None
  end.

(** [v[0]] *)
Definition index0 (v : Value) : Res Value :=
  match v with
  | None => Throw (TypeError "undefined" "0")
  | Some JNull => Throw (TypeError "null" "0")
  | Some (JArr items) => Ok (head items)
  | Some (JStr s) => Ok ((fun c => JStr [c]) <$> head s)
  | Some (JObj fields) => Ok (field (js "0") fields)
  | Some _ => Ok None
  end.

(** How [axios.post] settles: with a response, or with an [AxiosError]
    ([err.response?.status], [err.code], [err.message]). *)
Inductive HttpOutcome :=
| Resolved (status : Z) (data : Value)
| Rejected (status : option Z) (code : option jsstring) (msg : jsstring).

Definition bindR {A B : Type} (r : Res A) (k : A -> Res B) : Res B :=
  match r with Ok a => k a | Throw e => Throw e end.

Section Providers.
(** [JSON.stringify] on a parsed body. *)
Variable stringify : JSON -> jsstring.

(** [JSON.stringify(v)]: [undefined] stays [undefined]. *)
Definition stringify_value (v : Value) : Value :=
  (fun j => JStr (stringify j)) <$> v.

(** [FlowiseProvider.getResponse], lines 91-109. *)
Definition Flowise_getResponse (url token : jsstring) (outcome : HttpOutcome)
  : Res Value :=
  match token with
  | [] => Throw (mkError (js "Flowise API token is invalid or missing"))
  | _ =>
      match outcome with
      | Resolved _ data =>
          Ok (or (or (or (get_opt data "text") (get_opt data "response"))
                     (stringify_value data))
                 (Some (JStr [])))
      | Rejected status code msg =>
          if bool_decide (status = Some 401) then
            Throw (mkError (js "Invalid Flowise API token. Please update your token in settings."))
          else if bool_decide (code = Some (js "ECONNREFUSED")) then
            Throw (mkError (js "Flowise server unreachable at " ++ url ++
                            js ". Check the URL and server status."))
          else Throw (mkError (js "Flowise API error: " ++ msg))
      end
  end.

(** [OpenAIProvider.getResponse], lines 151-169.  The [return] expression
    stands inside [try]: a [TypeError] it raises has no [response], and is
    rethrown as an API error. *)
Definition OpenAI_getResponse (outcome : HttpOutcome) : Res Value :=
  match outcome with
  | Resolved _ data =>
      match
        bindR (get data "choices") (fun choices =>
        bindR (index0 choices) (fun first =>
        bindR (get first "message") (fun message =>
        get message "content")))
      with
      | Ok content => Ok (or content (Some (JStr [])))
      | Throw err => Throw (mkError (js "OpenAI API error: " ++ message err))
      end
  | Rejected status code msg =>
      if bool_decide (status = Some 401) then
        Throw (mkError (js "Invalid OpenAI API key. Please update your key in settings."))
      else Throw (mkError (js "OpenAI API error: " ++ msg))
  end.

(** [OllamaProvider.getResponse], lines 210-227. *)
Definition Ollama_getResponse (outcome : HttpOutcome) : Res Value :=
  match outcome with
  | Resolved _ data =>
      match get data "response" with
      | Ok response => Ok (or response (Some (JStr [])))
      | Throw err => Throw (mkError (js "Ollama API error: " ++ message err))
      end
  | Rejected _ _ msg => Throw (mkError (js "Ollama API error: " ++ msg))
  end.

End Providers.

End BackendAdapter.

(** ** Batch Scheduler: [findFiles] *)

Module BatchScheduler.

(** A file tree as [readDirectory] and [FileType] show it. *)
Inductive FsNode :=
| FsFile                                         (* FileType.File *)
| FsDir (entries : list (jsstring * FsNode))     (* FileType.Directory *)
| FsUnreadable                                   (* a directory whose listing rejects *)
| FsOther.                                       (* FileType.SymbolicLink, Unknown *)

Definition join : jsstring -> jsstring -> jsstring := MutationGate.join.

(** *** [src/src/extension.ts], lines 287-320: a recursive generator *)

Section Ext.
(** [shouldIncludeFile(uri, config)] of that revision: it never throws. *)
Variable shouldIncludeFile : jsstring -> bool.
Variable maxFiles : Z.

(** One turn of [for (const folder of workspaceFolders)] for the folder
    [dir], entered with the counter at [fileCount]: the paths it yields, the
    counter afterwards, and whether [return] was reached.  The nested call
    [yield* findFiles([{ uri }], config)] starts with a fresh counter. *)
Fixpoint Ext_folder (dir : jsstring) (node : FsNode) (fileCount : Z)
  : list jsstring * Z * bool :=
  match node with
  | FsDir entries =>
      (fix loop (entries : list (jsstring * FsNode)) (fileCount : Z)
         : list jsstring * Z * bool :=
         match entries with
         | [] => ([], fileCount, false)
         | (name, child) :: rest =>
             if maxFiles <=? fileCount then ([], fileCount, true)
             else
               let uri := join dir name in
               match child with
               | FsFile =>
                   if shouldIncludeFile uri then
                     let '(ys, n, returned) := loop rest (fileCount + 1) in
                     (uri :: ys, n, returned)
                   else loop rest fileCount
               | FsDir _ | FsUnreadable =>
                   let nested := (Ext_folder uri child 0).1.1 in
                   let '(ys, n, returned) := loop rest fileCount in
                   (nested ++ ys, n, returned)
               | FsOther => loop rest fileCount
               end
         end) entries fileCount
  | _ => ([], fileCount, false)
  end.

Fixpoint Ext_folders (folders : list (jsstring * FsNode)) (fileCount : Z)
  : list jsstring :=
  match folders with
  | [] => []
  | (dir, node) :: rest =>
      let '(ys, n, returned) := Ext_folder dir node fileCount in
      if returned then ys else ys ++ Ext_folders rest n
  end.

Definition Ext_findFiles (workspaceFolders : list (jsstring * FsNode))
  : list jsstring :=
  Ext_folders workspaceFolders 0.

End Ext.

(** *** part_004, lines 487-512: a loop over a stack of directories *)

Section P4.
(** [shouldIncludeFile(uri, config)] of that revision: it can throw. *)
Variable shouldIncludeFile : jsstring -> Res bool.
Variable maxFiles : Z.

Inductive Status := Completed | Returned | Caught.

(** The [for] loop over the entries of one directory: the paths yielded, the
    counter, the stack, and how the loop ended ([Caught]: an exception left
    the loop and was logged by the [catch] around it). *)
Fixpoint P4_entries (dir : jsstring) (entries : list (jsstring * FsNode))
    (fileCount : Z) (stack : list (jsstring * FsNode))
  : list jsstring * Z * list (jsstring * FsNode) * Status :=
  match entries with
  | [] => ([], fileCount, stack, Completed)
  | (name, child) :: rest =>
      let uri := join dir name in
      match child with
      | FsFile =>
          match shouldIncludeFile uri with
          | Throw _ => ([], fileCount, stack, Caught)
          | Ok true =>
              if maxFiles <? fileCount + 1 then ([], fileCount + 1, stack, Returned)
              else
                let '(ys, n, st, status) := P4_entries dir rest (fileCount + 1) stack in
                (uri :: ys, n, st, status)
          | Ok false => P4_entries dir rest fileCount stack
          end
      | FsDir _ | FsUnreadable =>
          P4_entries dir rest fileCount (stack ++ [(uri, child)])
      | FsOther => P4_entries dir rest fileCount stack
      end
  end.

(** [while (stack.length && fileCount < config.maxFiles)], one turn per unit
    of [fuel]. *)
Fixpoint P4_while (fuel : nat) (stack : list (jsstring * FsNode)) (fileCount : Z)
  : list jsstring * Z * bool :=
  match fuel with
  | O => ([], fileCount, false)
  | S fuel' =>
      match reverse stack with
      | [] => ([], fileCount, false)
      | (dir, node) :: below =>
          if fileCount <? maxFiles then
            let stack' := reverse below in
            match node with
            | FsDir entries =>
                let '(ys, n, st, status) := P4_entries dir entries fileCount stack' in
                match status with
                | Returned => (ys, n, true)
                | _ =>
                    let '(ys', n', returned) := P4_while fuel' st n in
                    (ys ++ ys', n', returned)
                end
            | _ => P4_while fuel' stack' fileCount
            end
          else ([], fileCount, false)
      end
  end.

(** The number of directories a walk can pop: every node below the stack. *)
Fixpoint nodes (node : FsNode) : nat :=
  match node with
  | FsDir entries =>
      S ((fix sum (entries : list (jsstring * FsNode)) : nat :=
            match entries with
            | [] => 0%nat
            | (_, child) :: rest => (nodes child + sum rest)%nat
            end) entries)
  | _ => 1
  end.

Fixpoint P4_folders (folders : list (jsstring * FsNode)) (fileCount : Z)
  : list jsstring :=
  match folders with
  | [] => []
  | (dir, node) :: rest =>
      let '(ys, n, returned) := P4_while (nodes node) [(dir, node)] fileCount in
      if returned then ys else ys ++ P4_folders rest n
  end.

Definition P4_findFiles (folders : list (jsstring * FsNode)) : list jsstring :=
  P4_folders folders 0.

End P4.

(** *** Input of the example: two directories with one file each

    [/w/a/x.ts] and [/w/b/y.ts]. *)
Definition twoDirectories : FsNode :=
  FsDir [(js "a", FsDir [(js "x.ts", FsFile)]);
         (js "b", FsDir [(js "y.ts", FsFile)])].

(** The workspace root of the example, and paths relative to it. *)
Definition root : jsstring := js "/w".

Definition relativeToRoot (uri : jsstring) : jsstring :=
  drop (length root + 1) uri.

(** The filters of the two revisions under the default configuration. *)
Definition Ext_defaultFilter (uri : jsstring) : bool :=
  InclusionFilter.Ext_shouldIncludeFile Minimatch.minimatch relativeToRoot uri
    InclusionFilter.defaultConfig.

Definition P4_defaultFilter (uri : jsstring) : Res bool :=
  InclusionFilter.P4_shouldIncludeFile Minimatch.minimatch relativeToRoot uri
    InclusionFilter.defaultConfig.

(** The directories waiting on a stack, counted with all that lies below. *)
Definition stack_nodes (stack : list (jsstring * FsNode)) : nat :=
  sum_list_with (fun e => nodes e.2) stack.

End BatchScheduler.

(** ** Worker pool: [processFilesConcurrently]

    [src/src/extension.ts] lines 322-358 and part_004 lines 514-547. *)

Module WorkerPool.

(** What the pool does, in order. *)
Inductive Event :=
| EvStart (uri : jsstring)                   (* processor(uri, config, ...) is called *)
| EvSettled (uri : jsstring) (fulfilled : bool) (* the promise it returned settles *)
| EvProgress (processed total errors : nat)  (* panel.webview.html = `Reviewing... p/t files processed (e errors)` *)
| EvLog (msg : jsstring).                    (* log(`Error processing ...`, "ERROR") *)

(** part_004's [panel]: what the assignment [panel.webview.html = ...] does
    when it is to show that [processed] files are done.  The setter of a
    webview throws ([Webview is disposed]) once the panel has been closed,
    which the user can do at any time during the review; [None] is an
    assignment that goes through. *)
Definition Panel := nat -> option Error.

(** A panel that stays open. *)
Definition openPanel : Panel := fun _ => None.

(** A panel that was closed before the first file was done. *)
Definition closedPanel : Panel :=
  fun _ => Some (mkError (js "Webview is disposed")).

(** The variables the workers share.  [awaiting] holds one path per worker
    that is suspended at [await processor(uri, ...)]; a worker whose loop has
    ended is in no list.  [processed] and [errors] are the counters of
    part_004. *)
Record State (T : Type) := {
  queue : list jsstring;
  awaiting : list jsstring;
  results : list T;
  processed : nat;
  errors : nat;
  events : list Event;
}.
Arguments queue {T} _.
Arguments awaiting {T} _.
Arguments results {T} _.
Arguments processed {T} _.
Arguments errors {T} _.
Arguments events {T} _.

Section Pool.
Context {T : Type}.
(** How the promise of [processor(uri, config, ...)] settles. *)
Variable processor : jsstring -> Res T.
(** [uris.length], and part_004's optional [panel]. *)
Variable total : nat.
Variable panel : option Panel.

(** [log(`Error processing ${uri.fsPath}: ${error.message}`, "ERROR")] *)
Definition logged (uri : jsstring) (error : Error) : Event :=
  EvLog (js "Error processing " ++ uri ++ js ": " ++ message error).

(** The head of a worker's loop: [while (queue.length) { const uri =
    queue.shift()!; ... await processor(uri, ...)]. *)
Definition loop (st : State T) : State T :=
  match queue st with
  | [] => st
  | uri :: rest =>
      {| queue := rest; awaiting := awaiting st ++ [uri];
         results := results st; processed := processed st;
         errors := errors st; events := events st ++ [EvStart uri] |}
  end.

(** [if (panel) panel.webview.html = ...], which part_004 runs inside the
    [try], after [results.push(...)] and [processed++]: the new value of
    [errors] and what is observed.  An assignment that throws is caught by
    the same [catch] as a rejected call: [errors++] and a line in the log. *)
Definition progress (uri : jsstring) (st : State T) : nat * list Event :=
  match panel with
  | None => (errors st, [])
  | Some set_html =>
      match set_html (S (processed st)) with
      | None =>
          (errors st, [EvProgress (S (processed st)) total (errors st)])
      | Some error => (S (errors st), [logged uri error])
      end
  end.

(** The [i]-th suspended worker resumes: the rest of its loop body, and the
    head of the loop again. *)
Definition settle (i : nat) (st : State T) : State T :=
  match awaiting st !! i with
  | None => st
  | Some uri =>
      loop
        match processor uri with
        | Ok result =>
            {| queue := queue st; awaiting := delete i (awaiting st);
               results := results st ++ [result];
               processed := S (processed st);
               errors := (progress uri st).1;
               events := events st ++ EvSettled uri true ::
                           (progress uri st).2 |}
        | Throw error =>
            {| queue := queue st; awaiting := delete i (awaiting st);
               results := results st;
               processed := processed st; errors := S (errors st);
               events := events st ++ [EvSettled uri false; logged uri error] |}
        end
  end.

(** The event loop: each entry of [schedule] names the suspended worker
    whose promise settles next (counted among those suspended, modulo their
    number).  The order is the environment's choice. *)
Fixpoint run (schedule : list nat) (st : State T) : State T :=
  match schedule with
  | [] => st
  | i :: later =>
      match awaiting st with
      | [] => st
      | _ => run later (settle (i mod length (awaiting st)) st)
      end
  end.

(** [const results = []; const queue = [...uris];] *)
Definition start (uris : list jsstring) : State T :=
  {| queue := uris; awaiting := []; results := []; processed := 0%nat;
     errors := 0%nat; events := [] |}.

(** [workers] calls of the worker function, each running up to its first
    [await]. *)
Definition spawn (workers : nat) (st : State T) : State T :=
  Nat.iter workers loop st.

(** [await Promise.all(workers); return results]: the value, once every
    worker has left its loop; [None] while one is still suspended. *)
Definition returned (st : State T) : option (list T) :=
  match awaiting st with
  | [] => Some (results st)
  | _ => None
  end.

End Pool.

(** [src/src/extension.ts], lines 322-358: [for (let i = 0; i <
    Math.min(batchSize, uris.length); i++) workers.push(runWorker())]. *)
Definition Ext_processFilesConcurrently {T : Type}
    (processor : jsstring -> Res T) (uris : list jsstring) (batchSize : Z)
    (schedule : list nat) : State T :=
  let workers := Z.to_nat (Z.min batchSize (Z.of_nat (length uris))) in
  run processor (length uris) None schedule
    (spawn workers (start uris)).

(** part_004, lines 514-547: [Array(Math.min(config.reviewBatchSize,
    uris.length)).fill(0).map(async () => {...})]; [Array(n)] throws a
    [RangeError] for a negative [n]. *)
Definition P4_processFilesConcurrently {T : Type}
    (processor : jsstring -> Res T) (uris : list jsstring)
    (reviewBatchSize : Z) (panel : option Panel) (schedule : list nat)
  : Res (State T) :=
  let workers := Z.min reviewBatchSize (Z.of_nat (length uris)) in
  if workers <? 0 then Throw (mkError (js "Invalid array length"))
  else
    Ok (run processor (length uris) panel schedule
          (spawn (Z.to_nat workers) (start uris))).

(** Observations on a run. *)
Definition started (evs : list Event) : list jsstring :=
  omap (fun e => match e with EvStart uri => Some uri | _ => None end) evs.

Definition settled (evs : list Event) : list jsstring :=
  omap (fun e => match e with EvSettled uri _ => Some uri | _ => None end) evs.

(** The value of a fulfilled promise. *)
Definition fulfilled {T : Type} (r : Res T) : option T :=
  match r with Ok a => Some a | Throw _ => None end.

(** How many of the first [processed] progress updates threw. *)
Definition failed_updates (panel : option Panel) (processed : nat) : nat :=
  match panel with
  | None => 0%nat
  | Some set_html =>
      length (filter (fun p => is_Some (set_html p)) (seq 1 processed))
  end.

(** What every state of a run over [uris] satisfies: each file is started in
    the order of the list; a started file has settled or is in progress; the
    results are the values of the fulfilled calls, in the order they settled;
    [processed] counts them, and [errors] counts the rejected calls and the
    progress updates that threw. *)
Definition invariant {T : Type} (processor : jsstring -> Res T)
    (panel : option Panel) (uris : list jsstring) (st : State T) : Prop :=
  started (events st) ++ queue st = uris /\
  started (events st) ≡ₚ settled (events st) ++ awaiting st /\
  results st = omap (fun uri => fulfilled (processor uri)) (settled (events st)) /\
  processed st = length (results st) /\
  (processed st + errors st)%nat =
    (length (settled (events st)) + failed_updates panel (processed st))%nat.

(** A worker leaves its loop only when the queue is empty. *)
Definition drained {T : Type} (st : State T) : Prop :=
  awaiting st = [] -> queue st = [].

(** The work left: one unit per file queued or in progress. *)
Definition work {T : Type} (st : State T) : nat :=
  (length (queue st) + length (awaiting st))%nat.

(** The calls in progress are the ones started last: what holds as long as
    the calls settle in the order they were started. *)
Definition in_order {T : Type} (st : State T) : Prop :=
  started (events st) = settled (events st) ++ awaiting st.

(** *** Inputs of the examples *)

(** Three files, and a processor that fails on the second one. *)
Definition threeFiles : list jsstring :=
  [js "/w/a.ts"; js "/w/b.ts"; js "/w/c.ts"].

Definition lengthUnlessB (uri : jsstring) : Res nat :=
  if bool_decide (uri = js "/w/b.ts") then Throw (mkError (js "timeout"))
  else Ok (length uri).

End WorkerPool.

(** ** String and array methods of JavaScript used by the chat and the
    diagnostics *)

Module JsString.

Definition is_ascii (c : N) : bool := (c <? 128)%N.

Definition lower_ascii (c : N) : N :=
  if (65 <=? c)%N && (c <=? 90)%N then (c + 32)%N else c.

Section Case.
(** The Unicode case mapping of [String.prototype.toLowerCase], for the
    strings that are not plain ASCII. *)
Variable unicodeLower : jsstring -> jsstring.

(** [s.toLowerCase()]: on an ASCII string the letters [A-Z] become [a-z] and
    nothing else changes. *)
Definition toLowerCase (s : jsstring) : jsstring :=
  if forallb is_ascii s then lower_ascii <$> s else unicodeLower s.
End Case.

(** [hay.startsWith(needle)] *)
Definition startsWith (needle hay : jsstring) : bool :=
  bool_decide (is_Some (ReviewParser.strip needle hay)).

(** [hay.includes(needle)] *)
Fixpoint includes (needle hay : jsstring) : bool :=
  startsWith needle hay ||
  match hay with
  | [] => false
  | _ :: hay' => includes needle hay'
  end.

(** [array.slice(start)] for an integral [start]: a negative [start] counts
    from the end, and [-0] is [0]. *)
Definition slice_from {A : Type} (start : Z) (l : list A) : list A :=
  let len := Z.of_nat (length l) in
  let k := if start <? 0 then Z.max (len + start) 0 else Z.min start len in
  drop (Z.to_nat k) l.

(** [array.slice(start, end)] for integral bounds. *)
Definition slice {A : Type} (start stop : Z) (l : list A) : list A :=
  let len := Z.of_nat (length l) in
  let k := if start <? 0 then Z.max (len + start) 0 else Z.min start len in
  let final := if stop <? 0 then Z.max (len + stop) 0 else Z.min stop len in
  take (Z.to_nat (final - k)) (drop (Z.to_nat k) l).

(** The names every object inherits from [Object.prototype]: [key in obj]
    and [obj[key]] find them too. *)
Definition objectPrototypeKeys : list jsstring :=
  [js "constructor"; js "__defineGetter__"; js "__defineSetter__";
   js "hasOwnProperty"; js "__lookupGetter__"; js "__lookupSetter__";
   js "isPrototypeOf"; js "propertyIsEnumerable"; js "toString";
   js "valueOf"; js "__proto__"; js "toLocaleString"].

End JsString.

(** ** The request of [src/src/extension.ts]: [getLLMResponse], lines 197-248 *)

Module ExtBackend.
Import RetryDispatcher BackendAdapter.

(** What [axios.post(url, { question }, { headers, timeout })] is called
    with. *)
Record Request := {
  url : jsstring;
  question : jsstring;
  timeout : Z;
}.

(** How the request settles: with a response body, with an [AxiosError]
    ([error.response?.statusText], [error.message]), or with another error. *)
Inductive PostOutcome :=
| Fulfilled (data : Value)
| RejectedAxios (statusText : option jsstring) (msg : jsstring)
| RejectedOther (error : Error).

(** One line of the conversation: [`${role}: ${msg.content}`]. *)
Definition turn (msg : ChatMessage) : jsstring :=
  (match role msg with user => js "User" | assistant => js "Assistant" end) ++
  js ": " ++ content msg.

(** [chatHistory.map(...).join("\n") + `\nUser: ${prompt}`] *)
Definition conversation (chatHistory : list ChatMessage) (prompt : jsstring)
  : jsstring :=
  ReviewFile.join_lines (turn <$> chatHistory) ++ ReviewFile.nl ++
  js "User: " ++ prompt.

Section Client.
(** [sanitizeHtml(x, { allowedTags: [], allowedAttributes: {} })], for any
    value [x]. *)
Variable sanitizeHtml : Value -> Res jsstring.
Variable post : Request -> PostOutcome.
(** [config.get("flowiseUrl", ...)], [config.get("apiToken", "")],
    [config.get("apiTimeout", 30000)] *)
Variable flowiseUrl apiToken : jsstring.
Variable apiTimeout : Z.

(** The [catch] block: the error that leaves the function. *)
Definition failed (why : jsstring) : Error :=
  mkError (js "Failed to fetch LLM response: " ++ why).

(** The result, and the requests that were sent. *)
Definition Ext_getLLMResponse (prompt : jsstring)
    (chatHistory : list ChatMessage) : Res jsstring * list Request :=
  match apiToken with
  | [] => (Throw (failed (js "Flowise API token (flow ID) is required")), [])
  | _ =>
      let request :=
        {| url := flowiseUrl ++ js "/" ++ apiToken;
           question := conversation chatHistory prompt;
           timeout := apiTimeout |} in
      (match post request with
       | Fulfilled data =>
           match get data "text" with
           | Throw error => Throw (failed (message error))
           | Ok text =>
               match sanitizeHtml (or text (Some (JStr []))) with
               | Throw error => Throw (failed (message error))
               | Ok sanitized =>
                   Ok (str_or sanitized (js "No response received from LLM"))
               end
           end
       | RejectedAxios statusText msg =>
           Throw (failed (js "API Error: " ++ str_or (default [] statusText) msg))
       | RejectedOther error => Throw (failed (message error))
       end,
       [request])
  end.

End Client.

End ExtBackend.

(** ** The chat panel: [onDidReceiveMessage] of [openChat] *)

Module ChatSession.
Import RetryDispatcher.

(** What the webview posts: [{ command, text }]. *)
Record Message := {
  command : jsstring;
  text : jsstring;
}.

(** What a handler does, in order. *)
Inductive Event :=
| EvExecuteCommand (id : option jsstring)   (* vscode.commands.executeCommand(id) *)
| EvAsk (prompt : jsstring) (history : list ChatMessage) (* getLLMResponse(prompt, config, chatHistory, ...) *)
| EvPost (text : jsstring).                 (* panel.webview.postMessage({ command: "receiveMessage", text }) *)

(** [chatHistory.push(user, assistant); if (chatHistory.length > limit)
    chatHistory = chatHistory.slice(-limit)]: extension.ts lines 632-648,
    part_004 lines 1379-1385. *)
Definition recordExchange (limit : Z) (chatHistory : list ChatMessage)
    (userText response : jsstring) (now1 now2 : Z) : list ChatMessage :=
  let pushed :=
    chatHistory ++
    [{| role := user; content := userText; timestamp := now1 |};
     {| role := assistant; content := response; timestamp := now2 |}] in
  if limit <? Z.of_nat (length pushed) then JsString.slice_from (- limit) pushed
  else pushed.

(** What one message meets: the clock, and how the calls it leads to settle. *)
Record Env := {
  now1 : Z;                                   (* Date.now() of the user's entry *)
  now2 : Z;                                   (* Date.now() of the assistant's entry *)
  executeCommand : option jsstring -> Res unit;
  getLLMResponse : jsstring -> list ChatMessage -> Res jsstring;
  (** part_004: [vscode.window.activeTextEditor], as the base name of the
      file and the text of the document *)
  activeEditor : option (jsstring * jsstring);
  (** part_004: [getLLMProvider(config, context)] *)
  getLLMProvider : Res unit;
  (** part_004: the branch of [review file], lines 1329-1356: the messages
      it posts, and the error it ends with, if any *)
  reviewFile : list jsstring * option Error;
}.

Section Handlers.
Variable unicodeLower : jsstring -> jsstring.
Local Abbreviation toLowerCase := (JsString.toLowerCase unicodeLower).

(** [catch (error) { const msg = `Chat failed: ${error.message}`; ...
    postMessage(msg) }] *)
Definition chatFailed (error : Error) : Event :=
  EvPost (js "Chat failed: " ++ message error).

(** *** [src/src/extension.ts], lines 601-664 *)

Definition Ext_onDidReceiveMessage (historyLimit : Z) (env : Env)
    (message : Message) (chatHistory : list ChatMessage)
  : list ChatMessage * list Event :=
  if bool_decide (command message = js "sendMessage") then
    let userMessage := text message in
    if bool_decide (toLowerCase userMessage = js "review project") then
      let id := Some (js "llmcoderagent.reviewProject") in
      match executeCommand env id with
      | Ok _ =>
          (chatHistory, [EvExecuteCommand id; EvPost (js "Initiated project review.")])
      | Throw error => (chatHistory, [EvExecuteCommand id; chatFailed error])
      end
    else if bool_decide (toLowerCase userMessage = js "review file") then
      let id := Some (js "llmcoderagent.reviewFile") in
      match executeCommand env id with
      | Ok _ =>
          (chatHistory, [EvExecuteCommand id; EvPost (js "Initiated file review.")])
      | Throw error => (chatHistory, [EvExecuteCommand id; chatFailed error])
      end
    else
      match getLLMResponse env userMessage chatHistory with
      | Ok response =>
          (recordExchange historyLimit chatHistory userMessage response
             (now1 env) (now2 env),
           [EvAsk userMessage chatHistory; EvPost response])
      | Throw error =>
          (chatHistory, [EvAsk userMessage chatHistory; chatFailed error])
      end
  else (chatHistory, []).

(** *** part_004, lines 1300-1392 *)

(** The keys of [commands], in the order of the object literal, with the
    command each one stands for ([null] is [None]). *)
Definition commands : list (jsstring * option jsstring) :=
  [(js "help", None);
   (js "review project", Some (js "llmcoderagent.reviewProject"));
   (js "review file", None);
   (js "refactor file", Some (js "llmcoderagent.refactorFile"));
   (js "review selection", Some (js "llmcoderagent.reviewSelection"));
   (js "explain code", Some (js "llmcoderagent.explainCode"));
   (js "apply quick fix", Some (js "llmcoderagent.applyQuickFix"));
   (js "generate code", Some (js "llmcoderagent.generateCode"));
   (js "toggle realtime", Some (js "llmcoderagent.toggleRealTime"));
   (js "review git diff", Some (js "llmcoderagent.reviewGitDiff"));
   (js "configure llm", Some (js "llmcoderagent.configureLLM"));
   (js "clear history", None)].

(** [Object.keys(commands)] *)
Definition validCommands : list jsstring := fst <$> commands.

(** [userMessage in commands]: an own key, or a name inherited from
    [Object.prototype]. *)
Definition in_commands (userMessage : jsstring) : bool :=
  bool_decide (userMessage ∈ validCommands) ||
  bool_decide (userMessage ∈ JsString.objectPrototypeKeys).

(** [commands[userMessage]!] as an argument of [executeCommand]: the
    identifier, or [None] for a value that is no string. *)
Definition commandOf (userMessage : jsstring) : option jsstring :=
  match list_find (fun entry => entry.1 = userMessage) commands with
  | Some (_, (_, id)) => id
  | None => None
  end.

(** [`- ${cmd}`] for each command, joined by line feeds. *)
Definition bullets (cmds : list jsstring) : jsstring :=
  ReviewFile.join_lines ((fun cmd => js "- " ++ cmd) <$> cmds).

Definition helpText : jsstring :=
  js "Available commands:" ++ ReviewFile.nl ++ bullets validCommands ++
  ReviewFile.nl ++ ReviewFile.nl ++ js "**Tips**:" ++ ReviewFile.nl ++
  js "- Use 'configure llm' to set up Flowise, OpenAI, or Ollama." ++
  ReviewFile.nl ++
  js "- Open settings with Ctrl+, and search 'llmcoderagent' to adjust provider, URL, or other options.".

(** [validCommands.filter(cmd => cmd.toLowerCase().includes(userMessage))] *)
Definition similarCommands (userMessage : jsstring) : list jsstring :=
  filter (fun cmd => JsString.includes userMessage (toLowerCase cmd) = true)
    validCommands.

(** The prompt of a free question: with the open document, when there is
    one. *)
Definition P4_chatPrompt (env : Env) (messageText : jsstring) : jsstring :=
  match activeEditor env with
  | Some (name, content) =>
      js "User query: " ++ messageText ++ ReviewFile.nl ++ ReviewFile.nl ++
      js "Context (file: " ++ name ++ js "):" ++ ReviewFile.nl ++
      ReviewFile.fence ++ ReviewFile.nl ++ content ++ ReviewFile.nl ++
      ReviewFile.fence ++ ReviewFile.nl ++
      js "Provide a relevant response, including code examples if applicable."
  | None => messageText
  end.

Definition P4_onDidReceiveMessage (messageHistoryLimit : Z) (env : Env)
    (message : Message) (chatHistory : list ChatMessage)
  : list ChatMessage * list Event :=
  if negb (bool_decide (command message = js "sendMessage")) then (chatHistory, [])
  else
    let userMessage := toLowerCase (ReviewParser.trim (text message)) in
    if in_commands userMessage then
      if bool_decide (userMessage = js "help") then
        (chatHistory, [EvPost helpText])
      else if bool_decide (userMessage = js "clear history") then
        ([], [EvPost (js "Chat history cleared.")])
      else if bool_decide (userMessage = js "review file") then
        (chatHistory,
         (EvPost <$> (reviewFile env).1) ++
         match (reviewFile env).2 with
         | Some error => [chatFailed error]
         | None => []
         end)
      else
        let id := commandOf userMessage in
        match executeCommand env id with
        | Ok _ =>
            (chatHistory,
             [EvExecuteCommand id; EvPost (js "Initiated " ++ userMessage)])
        | Throw error => (chatHistory, [EvExecuteCommand id; chatFailed error])
        end
    else
      match similarCommands userMessage with
      | (_ :: _) as similar =>
          (chatHistory,
           [EvPost (js "Command " ++ [34%N] ++ userMessage ++ [34%N] ++
                    js " not found. Did you mean:" ++ ReviewFile.nl ++
                    bullets similar)])
      | [] =>
          let prompt := P4_chatPrompt env (text message) in
          match getLLMProvider env with
          | Throw error => (chatHistory, [chatFailed error])
          | Ok _ =>
              match getLLMResponse env prompt chatHistory with
              | Ok response =>
                  (recordExchange messageHistoryLimit chatHistory
                     (text message) response (now1 env) (now2 env),
                   [EvAsk prompt chatHistory; EvPost response])
              | Throw error =>
                  (chatHistory, [EvAsk prompt chatHistory; chatFailed error])
              end
          end
      end.

(** A session: the messages of the webview, handled one after the other,
    each with what it meets. *)
Definition session
    (handler : Env -> Message -> list ChatMessage -> list ChatMessage * list Event)
    (steps : list (Env * Message)) (chatHistory : list ChatMessage)
  : list ChatMessage * list Event :=
  foldl (fun '(history, events) '(env, message) =>
           let '(history', events') := handler env message history in
           (history', events ++ events'))
    (chatHistory, []) steps.

End Handlers.

(** The chat questions that went to the backend ([getLLMResponse] called by
    the handler itself with the history). *)
Definition asked (evs : list Event) : list jsstring :=
  omap (fun e => match e with EvAsk prompt _ => Some prompt | _ => None end) evs.

(** *** Inputs of the examples *)

(** A backend that answers every question with [pong]; no open editor. *)
Definition answering : Env :=
  {| now1 := 1700000000000; now2 := 1700000000900;
     executeCommand := fun _ => Ok tt;
     getLLMResponse := fun _ _ => Ok (js "pong");
     activeEditor := None;
     getLLMProvider := Ok tt;
     reviewFile := ([], None) |}.

Definition say (words : string) : Message :=
  {| command := js "sendMessage"; text := js words |}.

End ChatSession.

(** ** Diagnostics: what [reviewFile] and the real-time handler publish *)

Module Diagnostics.

(** [vscode.DiagnosticSeverity] *)
Inductive DiagnosticSeverity := SevError | SevWarning | SevInformation | SevHint.

(** What [obj[key]] can find: an own property of the object literal, or a
    member inherited from [Object.prototype] (which is no severity). *)
Inductive Member :=
| Own (severity : DiagnosticSeverity)
| Inherited (name : jsstring).

(** [new vscode.Diagnostic(new vscode.Range(l1, c1, l2, c2), message,
    severity)] *)
Record Diagnostic := {
  startLine : Z;
  startCharacter : Z;
  endLine : Z;
  endCharacter : Z;
  message : jsstring;
  severity : Member;
}.

Section Severity.
Variable unicodeLower : jsstring -> jsstring.
Local Abbreviation toLowerCase := (JsString.toLowerCase unicodeLower).

(** part_004, lines 471-475 (and 1070-1074): the severity of a diagnostic
    set by [reviewFile]. *)
Definition P4_reviewSeverity (severity : jsstring) : DiagnosticSeverity :=
  if JsString.includes (js "high") (toLowerCase severity) then SevError
  else if JsString.includes (js "medium") (toLowerCase severity) then SevWarning
  else SevInformation.

(** part_004, lines 467-482: the diagnostic of one issue; [document.lineAt]
    throws for a line outside the document. *)
Definition P4_reviewDiagnostic (documentLines : list jsstring)
    (issue : ReviewParser.Issue) : Res Diagnostic :=
  let severity := P4_reviewSeverity (ReviewParser.severity issue) in
  let at_line :=
    match ReviewParser.minus_one (ReviewParser.line issue) with
    | ReviewParser.Finite line =>
        if 0 <=? line then pair line <$> documentLines !! Z.to_nat line
        else None
    | ReviewParser.Infinity => None
    end in
  match at_line with
  | None => Throw (mkError (js "Illegal value for `line`"))
  | Some (line, text) =>
      Ok {| startLine := line; startCharacter := 0; endLine := line;
            endCharacter := Z.of_nat (length text);
            message := ReviewParser.message issue;
            severity := Own severity |}
  end.

(** part_004, lines 909-915: [severityMap]. *)
Definition severityMap : list (jsstring * DiagnosticSeverity) :=
  [(js "high", SevError); (js "medium", SevWarning);
   (js "low", SevInformation); (js "information", SevInformation);
   (js "default", SevInformation)].

(** [severityMap[key]] *)
Definition severityMap_get (key : jsstring) : option Member :=
  match list_find (fun entry => entry.1 = key) severityMap with
  | Some (_, (_, severity)) => Some (Own severity)
  | None =>
      if bool_decide (key ∈ JsString.objectPrototypeKeys)
      then Some (Inherited key) else None
  end.

(** [severityMap[issue.severity.toLowerCase()] ??
    vscode.DiagnosticSeverity.Information] *)
Definition RT_severity (severity : jsstring) : Member :=
  default (Own SevInformation) (severityMap_get (toLowerCase severity)).

(** part_004, lines 917-927: the diagnostic the real-time handler builds
    for one issue from the text of the file. *)
Definition RT_diagnostic (content : jsstring) (issue : ReviewParser.Issue)
  : Diagnostic :=
  let lines := ReviewParser.lines content in
  let lineIndex :=
    Z.max 0
      match ReviewParser.minus_one (ReviewParser.line issue) with
      | ReviewParser.Finite line => Z.min line (Z.of_nat (length lines) - 1)
      | ReviewParser.Infinity => Z.of_nat (length lines) - 1
      end in
  let endColumn :=
    match lines !! Z.to_nat lineIndex with
    | Some text => Z.of_nat (length text)
    | None => 1000
    end in
  {| startLine := lineIndex; startCharacter := 0; endLine := lineIndex;
     endCharacter := endColumn;
     message := ReviewParser.message issue;
     severity := RT_severity (ReviewParser.severity issue) |}.

End Severity.

End Diagnostics.

(** ** Real-time code access: the project context of
    [RealTimeCodeAccessManager] (part_004, lines 812-959) *)

Module RealTime.
Import ContentLoader.

(** The two maps of the manager that hold file texts. *)
Record Manager := {
  projectContext : gmap jsstring jsstring;   (* by workspace-relative path *)
  fileCache : gmap jsstring jsstring;        (* by [uri.fsPath] *)
}.

Section Manager.
Variable decode : list N -> jsstring.
Variable asRelativePath : jsstring -> jsstring.
Variable maxFileSize : Z.

(** Lines 901-903, and the loop body of [initializeProjectContext] (lines
    834-835): [const content = await readFileContent(uri, this.config,
    this.fileCache); this.projectContext.set(asRelativePath(uri), content)]. *)
Definition refresh (fs : FileSystem) (uri : jsstring) (m : Manager)
  : Res unit * Manager :=
  match P4_readFileContent decode fs uri maxFileSize (Some (fileCache m)) with
  | (Ok content, cache) =>
      (Ok tt,
       {| projectContext := <[asRelativePath uri := content]> (projectContext m);
          fileCache := default (fileCache m) cache |})
  | (Throw error, cache) =>
      (Throw error,
       {| projectContext := projectContext m;
          fileCache := default (fileCache m) cache |})
  end.

(** [handleFileDelete], lines 940-950, for a file the filter accepts
    ([included]) or not. *)
Definition handleFileDelete (included : bool) (uri : jsstring) (m : Manager)
  : Manager :=
  if negb included then m
  else
    {| projectContext := delete (asRelativePath uri) (projectContext m);
       fileCache := delete uri (fileCache m) |}.

End Manager.

(** *** Inputs of the examples *)

(** A file system whose every file holds [text]. *)
Definition holding (text : string) : FileSystem :=
  {| stat_size := fun _ => Ok (Z.of_nat (String.length text));
     readFile := fun _ => Ok (js text) |}.

Definition emptyManager : Manager :=
  {| projectContext := ∅; fileCache := ∅ |}.

End RealTime.

(** ** Provider setup: [getLLMProvider] and the constructors it calls
    (part_004, lines 81-85, 123-128, 141-145, 186-191, 961-1040) *)

Module ProviderSetup.

(** The provider objects, by their fields. *)
Inductive Provider :=
| FlowiseProvider (url token : jsstring)
| OpenAIProvider (apiKey model : jsstring)
| OllamaProvider.

(** What the setup does to the outside world, in order. *)
Inductive Event :=
| EvInputBox                                  (* vscode.window.showInputBox(...) *)
| EvStore (key value : jsstring)              (* secrets.store(key, value) *)
| EvTestConnection (provider : Provider)      (* provider.testConnection() *)
| EvShowError (msg : jsstring)                (* handleError(msg), showMsg = true *)
| EvWarning (msg : jsstring)                  (* vscode.window.showWarningMessage(msg, ...) *)
| EvQuickPick                                 (* vscode.window.showQuickPick([...]) *)
| EvUpdateProvider (provider : jsstring)      (* getConfiguration(...).update("llmProvider", provider, Global) *)
| EvOpenSettings.                             (* executeCommand("workbench.action.openSettings", ...) *)

(** The state the setup reads and changes: the secret storage and
    [config.llmProvider]; and what the user and the network will answer, in
    the order the questions are asked (an exhausted list answers [undefined],
    or [false] for a connection test). *)
Record World := {
  secrets : gmap jsstring jsstring;
  llmProvider : jsstring;
  inputs : list (option jsstring);     (* answers of showInputBox *)
  tests : list bool;                   (* results of testConnection *)
  actions : list (option jsstring);    (* answers of showWarningMessage *)
  picks : list (option jsstring);      (* answers of showQuickPick *)
}.

(** Static configuration: [config.flowiseUrl], [config.openaiModel]. *)
Record Config := {
  flowiseUrl : jsstring;
  openaiModel : jsstring;
}.

(** [FlowiseProvider.validateToken], lines 123-128. *)
Definition validateToken (token : jsstring) : Res jsstring :=
  if bool_decide (token = []) || (length token <? 10)%nat
  then Throw (mkError (js "Flowise API token must be at least 10 characters long."))
  else Ok token.

(** [OpenAIProvider.validateApiKey], lines 186-191. *)
Definition keyRejected : Error :=
  mkError (js "OpenAI API key must start with 'sk-' and be non-empty.").

Definition validateApiKey (apiKey : jsstring) : Res jsstring :=
  if bool_decide (apiKey = []) || negb (JsString.startsWith (js "sk-") apiKey)
  then Throw keyRejected
  else Ok apiKey.

(** [await secrets.get(key)], and if that is falsy the input box and
    [secrets.store]: the value, or [None] when the user gave none. *)
Definition secretOrAsk (key : jsstring) (w : World)
  : option jsstring * World * list Event :=
  match secrets w !! key with
  | Some ((_ :: _) as value) => (Some value, w, [])
  | _ =>
      let answer := mjoin (head (inputs w)) in
      let w' := {| secrets := secrets w; llmProvider := llmProvider w;
                   inputs := tail (inputs w); tests := tests w;
                   actions := actions w; picks := picks w |} in
      match answer with
      | Some ((_ :: _) as value) =>
          (Some value,
           {| secrets := <[key := value]> (secrets w); llmProvider := llmProvider w;
              inputs := tail (inputs w); tests := tests w;
              actions := actions w; picks := picks w |},
           [EvInputBox; EvStore key value])
      | _ => (None, w', [EvInputBox])
      end
  end.

(** [if (await provider.testConnection()) return provider; throw
    handleError(failure)] *)
Definition connect (provider : Provider) (failure : jsstring) (w : World)
  : Res Provider * World * list Event :=
  let w' := {| secrets := secrets w; llmProvider := llmProvider w;
               inputs := inputs w; tests := tail (tests w);
               actions := actions w; picks := picks w |} in
  if default false (head (tests w))
  then (Ok provider, w', [EvTestConnection provider])
  else (Throw (mkError failure), w',
        [EvTestConnection provider; EvShowError failure]).

(** The body of [try], lines 967-1009. *)
Definition attempt (config : Config) (w : World)
  : Res Provider * World * list Event :=
  if bool_decide (llmProvider w = js "openai") then
    match secretOrAsk (js "openaiApiKey") w with
    | (None, w', evs) => (Throw (mkError (js "OpenAI API key required")), w', evs)
    | (Some apiKey, w', evs) =>
        match validateApiKey apiKey with
        | Throw error => (Throw error, w', evs)
        | Ok apiKey =>
            let '(r, w'', evs') :=
              connect (OpenAIProvider apiKey (openaiModel config))
                (js "OpenAI connection test failed") w' in
            (r, w'', evs ++ evs')
        end
    end
  else if bool_decide (llmProvider w = js "ollama") then
    connect OllamaProvider
      (js "Ollama connection test failed. Ensure Ollama server is running at http://localhost:11434.")
      w
  else
    match secretOrAsk (js "flowiseApiToken") w with
    | (None, w', evs) => (Throw (mkError (js "Flowise API token required")), w', evs)
    | (Some apiToken, w', evs) =>
        match validateToken apiToken with
        | Throw error => (Throw error, w', evs)
        | Ok apiToken =>
            let '(r, w'', evs') :=
              connect (FlowiseProvider (flowiseUrl config) apiToken)
                (js "Flowise connection test failed") w' in
            (r, w'', evs ++ evs')
        end
    end.

(** How the [catch] block leaves, lines 1015-1036. *)
Inductive Verdict :=
| Again (attempts : Z)      (* continue, with this value of [attempts] *)
| GiveUp (error : Error).   (* throw *)

Definition cannotProceed : Error :=
  mkError (js "Cannot proceed without a valid LLM provider. Configure in settings.").

(** The [catch] block, entered with [attempts] already incremented. *)
Definition recover (maxRetries attempts : Z) (error : Error) (w : World)
  : Verdict * World * list Event :=
  if maxRetries <=? attempts then
    let warning :=
      EvWarning (js "Failed to configure " ++ llmProvider w ++
                 js " provider: " ++ message error) in
    let action := mjoin (head (actions w)) in
    let w1 := {| secrets := secrets w; llmProvider := llmProvider w;
                 inputs := inputs w; tests := tests w;
                 actions := tail (actions w); picks := picks w |} in
    if bool_decide (action = Some (js "Switch Provider")) then
      let pick := mjoin (head (picks w1)) in
      match pick with
      | Some ((_ :: _) as provider) =>
          (Again 0,
           {| secrets := secrets w; llmProvider := provider;
              inputs := inputs w; tests := tests w;
              actions := tail (actions w); picks := tail (picks w) |},
           [warning; EvQuickPick; EvUpdateProvider provider])
      | _ =>
          (GiveUp cannotProceed,
           {| secrets := secrets w; llmProvider := llmProvider w;
              inputs := inputs w; tests := tests w;
              actions := tail (actions w); picks := tail (picks w) |},
           [warning; EvQuickPick; EvShowError (message cannotProceed)])
      end
    else if bool_decide (action = Some (js "Open Settings")) then
      (GiveUp cannotProceed, w1,
       [warning; EvOpenSettings; EvShowError (message cannotProceed)])
    else if bool_decide (action = Some (js "Retry")) then
      (Again attempts, w1, [warning])
    else (GiveUp cannotProceed, w1, [warning; EvShowError (message cannotProceed)])
  else (Again attempts, w, []).

Definition unexpected : Error :=
  mkError (js "Unexpected error in getLLMProvider").

(** [while (attempts < maxRetries) { try {...} catch {...} }], one turn per
    unit of [fuel]; [None] when the fuel runs out first. *)
Fixpoint while (fuel : nat) (config : Config) (maxRetries attempts : Z)
    (w : World) : option (Res Provider * World * list Event) :=
  match fuel with
  | O => None
  | S fuel' =>
      if attempts <? maxRetries then
        match attempt config w with
        | (Ok provider, w', evs) => Some (Ok provider, w', evs)
        | (Throw error, w', evs) =>
            match recover maxRetries (attempts + 1) error w' with
            | (GiveUp error', w'', evs') => Some (Throw error', w'', evs ++ evs')
            | (Again attempts', w'', evs') =>
                '(r, w3, evs'') ← while fuel' config maxRetries attempts' w'';
                Some (r, w3, evs ++ evs' ++ evs'')
            end
        end
      else Some (Throw unexpected, w, [EvShowError (message unexpected)])
  end.

Definition getLLMProvider (fuel : nat) (config : Config) (maxRetries : Z)
    (w : World) : option (Res Provider * World * list Event) :=
  while fuel config maxRetries 0 w.

(** Observations on a run. *)
Definition connectionTests (evs : list Event) : list Provider :=
  omap (fun e => match e with EvTestConnection p => Some p | _ => None end) evs.

Definition prompts (evs : list Event) : nat :=
  length (omap (fun e => match e with EvInputBox => Some tt | _ => None end) evs).

(** What an attempt leaves alone: the configured provider, and the answers
    to the questions only the [catch] block asks. *)
Definition same_dialogue (w w' : World) : Prop :=
  llmProvider w' = llmProvider w /\ actions w' = actions w /\ picks w' = picks w.

(** The next connection test fails, or there is none left. *)
Definition next_test_fails (w : World) : Prop :=
  default false (head (tests w)) = false.

(** *** Inputs of the examples *)

Definition defaults : Config :=
  {| flowiseUrl := js "http://localhost:3000/api/v1/prediction";
     openaiModel := js "gpt-3.5-turbo" |}.

(** Ollama is configured and its server is down; the user answers the
    warning with Retry. *)
Definition ollamaDown : World :=
  {| secrets := ∅; llmProvider := js "ollama"; inputs := [];
     tests := [false; false; true];
     actions := [Some (js "Retry")]; picks := [] |}.

(** OpenAI is configured with no key stored; the user types [hunter2]. *)
Definition typedBadKey : World :=
  {| secrets := ∅; llmProvider := js "openai";
     inputs := [Some (js "hunter2"); Some (js "sk-good")];
     tests := [true; true]; actions := []; picks := [] |}.

End ProviderSetup.

(** ** The callers of the gate *)

Module GateCallers.
Import MutationGate.

(** *** Inputs of the examples *)

(** The user answers Apply, the backup is made, and [applyEdit] resolves to
    [false]. *)
Definition refusingEnv : Env :=
  {| tmpdir := js "/tmp";
     now_suggested := 1700000000000;
     now_backup := 1700000000500;
     open_error := None;
     writeFile_error := None;
     writeFile_left := None;
     diff_error := None;
     answer := Some (js "Apply");
     unlink_error := None;
     copy_error := None;
     copy_left := None;
     applyEdit_result := Ok false;
     save_result := Ok true;
     save_left := None |}.

(** The user answers Cancel, and the temporary file cannot be removed. *)
Definition cancelEnv : Env :=
  {| tmpdir := js "/tmp";
     now_suggested := 1700000000000;
     now_backup := 1700000000500;
     open_error := None;
     writeFile_error := None;
     writeFile_left := None;
     diff_error := None;
     answer := Some (js "Cancel");
     unlink_error := Some (mkError (js "EBUSY: resource busy or locked"));
     copy_error := None;
     copy_left := None;
     applyEdit_result := Ok true;
     save_result := Ok true;
     save_left := None |}.

End GateCallers.

(** ** Inputs of the examples for the pipeline *)

Module PipelineExamples.

(** A backend that answers every request with [reply]. *)
Definition answers (reply : string) : RetryDispatcher.LLMProvider :=
  {| RetryDispatcher.getName := js "Ollama";
     RetryDispatcher.getResponse := fun _ _ _ => Ok (js reply) |}.

(** A document of three lines. *)
Definition threeLines : ReviewFile.LineCount :=
  {| ReviewFile.count_of := 3; ReviewFile.count_bound := I |}.

(** [reviewFile] of part_004 on [/w/a.ts], a file of ten bytes and [count]
    lines with no imports, reviewed by [provider]. *)
Definition reviewOf (provider : RetryDispatcher.LLMProvider)
    (count : ReviewFile.LineCount)
  : Res ReviewFile.FileReview * list RetryDispatcher.Event :=
  ReviewFile.P4_reviewFile id (ContentLoader.uniformFs 10) id
    (fun _ => Ok []) id (fun _ => Ok count) id (js "/w/a.ts") 100000 []
    RetryDispatcher.defaultRetry None (Some provider).

End PipelineExamples.

(** ** The first revision of the extension (part_004, lines 1573-1850)

    Definitions named [Old_...]: a [readFileContent] and a [reviewFile] that
    never throw, and a [reviewProject] that reviews the files in batches. *)

Module Legacy.
Import ContentLoader ReviewFile.

Section Review.
Variable decode : list N -> jsstring.
Variable fs : FileSystem.
(** [path.extname(uri.fsPath)] *)
Variable extname : jsstring -> jsstring.
(** [getLLMResponse(prompt, config)], lines 1658-1682: one request, which
    is answered or fails. *)
Variable getLLMResponse : jsstring -> Res jsstring.

(** Lines 1599-1608: a failure becomes the returned text. *)
Definition Old_readFileContent (uri : jsstring) : jsstring :=
  match readFile fs uri with
  | Ok content => decode content
  | Throw error =>
      js "Error reading file " ++ uri ++ js ": " ++ message error
  end.

Definition Old_prompt (uri content : jsstring) : jsstring :=
  js "Review the following file content and suggest improvements:" ++ nl ++
  nl ++ js "**File**: " ++ MutationGate.basename uri ++ nl ++
  js "**Content**:" ++ nl ++ fence ++ drop 1 (extname uri) ++ nl ++
  content ++ nl ++ fence ++ nl ++ nl ++
  js "Provide a review and, if applicable, include a " ++ [34%N] ++
  js "Suggested changes:" ++ [34%N] ++
  js " section with the full modified content.".

(** The pattern of line 1712: the heading [Suggested changes:], a line feed,
    and a greedy group of any characters; [match[1]] is what follows the
    first occurrence of the heading, to the end of the reply. *)
Definition suggested_re : jsstring -> option jsstring :=
  ReviewParser.lit (js "Suggested changes:" ++ nl)
    (ReviewParser.star_greedy ReviewParser.any_char
       (fun changes _ => Some changes)).

Definition Old_suggestedChanges (review : jsstring) : option jsstring :=
  ReviewParser.trim <$> ReviewParser.search suggested_re review.

(** Lines 1684-1726.  The record that is returned, and the prompts that
    were sent. *)
Definition Old_reviewFile (maxFileSize : Z) (uri : jsstring)
  : FileReview * list jsstring :=
  let content := Old_readFileContent uri in
  let unreviewed (text : jsstring) : FileReview :=
    {| uri := uri; content := content; review := text;
       suggestedChanges := None; issues := None; relatedFiles := None |} in
  if JsString.startsWith (js "Error reading file") content then
    (unreviewed content, [])
  else if maxFileSize <? Z.of_nat (length content) then
    (unreviewed
       (js "File too large to review (size: " ++
        num (Z.of_nat (length content)) ++ js " bytes, max: " ++
        num maxFileSize ++ js " bytes)"),
     [])
  else
    let prompt := Old_prompt uri content in
    match getLLMResponse prompt with
    | Ok review =>
        ({| uri := uri; content := content; review := review;
            suggestedChanges := Old_suggestedChanges review;
            issues := None; relatedFiles := None |},
         [prompt])
    | Throw error =>
        (unreviewed (js "Error reviewing file: " ++ message error), [prompt])
    end.

End Review.

Section Project.
(** [shouldIncludeFile(uri, config)], lines 1580-1597: it never throws. *)
Variable shouldIncludeFile : jsstring -> bool.
(** [reviewFile(uri, config)]: it never throws either. *)
Variable reviewFile : jsstring -> FileReview.
(** [token.isCancellationRequested], as read at the head of each turn of the
    loop. *)
Variable cancelled : nat -> bool.

(** Lines 1756-1762: [for (let i = 0; i < files.length &&
    !token.isCancellationRequested; i += batchSize)], one turn per unit of
    [fuel]; [None] when the fuel runs out before the loop ends. *)
Fixpoint Old_batches (fuel : nat) (files : list jsstring) (batchSize : Z)
    (turn : nat) (i : Z) (reviews : list FileReview)
  : option (list FileReview) :=
  match fuel with
  | O => None
  | S fuel' =>
      if (i <? Z.of_nat (length files)) && negb (cancelled turn) then
        let batch :=
          filter (fun uri => shouldIncludeFile uri = true)
            (JsString.slice i (i + batchSize) files) in
        Old_batches fuel' files batchSize (S turn) (i + batchSize)
          (reviews ++ (reviewFile <$> batch))
      else Some reviews
  end.

(** The reviews of [reviewProject] for the files [vscode.workspace.findFiles]
    returned, when they are not more than [maxFiles]. *)
Definition Old_reviews (fuel : nat) (files : list jsstring) (batchSize : Z)
  : option (list FileReview) :=
  Old_batches fuel files batchSize 0 0 [].

End Project.

End Legacy.

(** ** Provider setup: more inputs of the examples *)

Module ProviderExamples.
Import ProviderSetup.

(** Flowise is configured, the token [flow-0123456789] is stored, and the
    server answers the first test. *)
Definition storedToken : World :=
  {| secrets := {[ js "flowiseApiToken" := js "flow-0123456789" ]};
     llmProvider := js "flowise"; inputs := []; tests := [true];
     actions := []; picks := [] |}.

(** The provider that fits [config.llmProvider], checked by its constructor,
    holding the secret that is stored. *)
Definition checked (config : Config) (w : World) (provider : Provider) : Prop :=
  match provider with
  | OpenAIProvider apiKey model =>
      llmProvider w = js "openai" /\ model = openaiModel config /\
      JsString.startsWith (js "sk-") apiKey = true /\
      secrets w !! js "openaiApiKey" = Some apiKey
  | OllamaProvider => llmProvider w = js "ollama"
  | FlowiseProvider url token =>
      llmProvider w <> js "openai" /\ llmProvider w <> js "ollama" /\
      url = flowiseUrl config /\ (10 <= length token)%nat /\
      secrets w !! js "flowiseApiToken" = Some token
  end.

End ProviderExamples.

(** ** Batch Scheduler: the files of a tree *)

Module FileWalk.
Import BatchScheduler.

(** The regular files below the directory [dir], each with its path, in the
    order of a depth-first walk.  A directory that cannot be listed holds
    none, and what is neither a file nor a directory is none. *)
Fixpoint files (dir : jsstring) (node : FsNode) : list jsstring :=
  match node with
  | FsDir entries =>
      (fix below (entries : list (jsstring * FsNode)) : list jsstring :=
         match entries with
         | [] => []
         | (name, child) :: rest =>
             match child with
             | FsFile => [join dir name]
             | _ => files (join dir name) child
             end ++ below rest
         end) entries
  | _ => []
  end.

(** The same, for the entries of a directory and for a list of directories
    (the workspace folders, or a stack of directories still to be read). *)
Fixpoint entries_files (dir : jsstring) (entries : list (jsstring * FsNode))
  : list jsstring :=
  match entries with
  | [] => []
  | (name, child) :: rest =>
      match child with
      | FsFile => [join dir name]
      | _ => files (join dir name) child
      end ++ entries_files dir rest
  end.

Definition workspace_files (folders : list (jsstring * FsNode)) : list jsstring :=
  folders ≫= (fun folder => files folder.1 folder.2).

(** The files that are entries of the directory itself, and its
    subdirectories. *)
Fixpoint direct (dir : jsstring) (entries : list (jsstring * FsNode))
  : list jsstring :=
  match entries with
  | [] => []
  | (name, FsFile) :: rest => join dir name :: direct dir rest
  | _ :: rest => direct dir rest
  end.

Fixpoint subdirs (dir : jsstring) (entries : list (jsstring * FsNode))
  : list (jsstring * FsNode) :=
  match entries with
  | [] => []
  | (name, (FsDir _ | FsUnreadable) as child) :: rest =>
      (join dir name, child) :: subdirs dir rest
  | _ :: rest => subdirs dir rest
  end.

(** The files a filter accepts. *)
Definition accepted (accept : jsstring -> bool) (uris : list jsstring)
  : list jsstring :=
  filter (fun uri => accept uri = true) uris.

End FileWalk.

(** ** Real-time code access: the debounce timers of
    [RealTimeCodeAccessManager] (part_004, lines 871-887, 858-859, 954-955) *)

Module Debounce.

(** What happens to the timers, one thing at a time. *)
Inductive Step :=
| Call (key : jsstring)             (* debounce(func, uri, wait), with key = uri.fsPath *)
| Fire (timer : nat)                (* the wait of a pending timer is over: its callback calls func(uri) *)
| Settle (timer : nat) (ok : bool)  (* the promise of that func(uri) settles *)
| ClearAll.                         (* debounceTimers.forEach(clearTimeout); debounceTimers.clear() *)

(** [debounceTimers], the timers that are set and have neither fired nor been
    cleared, the callbacks suspended at [await func(uri)], the number of
    timers set so far (the next timer is that number), and the files [func]
    was called for. *)
Record State := {
  debounceTimers : gmap jsstring nat;
  pending : list (nat * jsstring);
  running : list (nat * jsstring);
  next : nat;
  calls : list jsstring;
}.

Definition init : State :=
  {| debounceTimers := ∅; pending := []; running := []; next := 0%nat;
     calls := [] |}.

(** A list of timers without one of them. *)
Definition without (timer : nat) (timers : list (nat * jsstring))
  : list (nat * jsstring) :=
  filter (fun p => p.1 <> timer) timers.

(** [clearTimeout(timer)]: nothing happens to a timer that has fired. *)
Definition clearTimeout (timer : nat) (pending : list (nat * jsstring))
  : list (nat * jsstring) :=
  without timer pending.

Definition find_timer (timer : nat) (timers : list (nat * jsstring))
  : option jsstring :=
  snd <$> (snd <$> list_find (fun p => p.1 = timer) timers).

Definition step (s : Step) (st : State) : State :=
  match s with
  | Call key =>
      (* if (has(key)) clearTimeout(get(key)); set(key, setTimeout(...)) *)
      let kept :=
        match debounceTimers st !! key with
        | Some old => clearTimeout old (pending st)
        | None => pending st
        end in
      {| debounceTimers := <[key := next st]> (debounceTimers st);
         pending := kept ++ [(next st, key)];
         running := running st; next := S (next st); calls := calls st |}
  | Fire timer =>
      (* async () => { try { await func(uri); ... *)
      match find_timer timer (pending st) with
      | Some key =>
          {| debounceTimers := debounceTimers st;
             pending := without timer (pending st);
             running := running st ++ [(timer, key)];
             next := next st; calls := calls st ++ [key] |}
      | None => st
      end
  | Settle timer ok =>
      (* ... this.debounceTimers.delete(key); } catch (error) { log(...) } } *)
      match find_timer timer (running st) with
      | Some key =>
          {| debounceTimers :=
               if ok then delete key (debounceTimers st) else debounceTimers st;
             pending := pending st;
             running := without timer (running st);
             next := next st; calls := calls st |}
      | None => st
      end
  | ClearAll =>
      {| debounceTimers := ∅;
         pending :=
           foldr (fun entry timers => clearTimeout entry.2 timers) (pending st)
             (map_to_list (debounceTimers st));
         running := running st; next := next st; calls := calls st |}
  end.

Definition run (steps : list Step) (st : State) : State :=
  foldl (fun st s => step s st) st steps.

(** The pending timers of one file. *)
Definition pending_for (key : jsstring) (st : State) : list nat :=
  (filter (fun p => p.2 = key) (pending st)).*1.

(** No call of [func] is fulfilled while a timer is pending for its file: no
    call of [debounce] for the file came while [func] was at work on it. *)
Fixpoint quiet (steps : list Step) (st : State) : bool :=
  match steps with
  | [] => true
  | s :: later =>
      match s with
      | Settle timer true =>
          match find_timer timer (running st) with
          | Some key => bool_decide (pending_for key st = [])
          | None => true
          end
      | _ => true
      end && quiet later (step s st)
  end.

(** The condition [quiet] puts on one step. *)
Definition quiet_step (s : Step) (st : State) : Prop :=
  match s with
  | Settle timer true =>
      forall key, find_timer timer (running st) = Some key ->
                  pending_for key st = []
  | _ => True
  end.

(** What holds of the timers as long as the steps are quiet: a pending timer
    is the one registered for its file, and no timer is pending twice. *)
Definition registered (st : State) : Prop :=
  (forall timer key, (timer, key) ∈ pending st ->
     debounceTimers st !! key = Some timer) /\
  NoDup (pending st).*1 /\
  (forall timer key, (timer, key) ∈ pending st -> (timer < next st)%nat).

End Debounce.

(** ** Real-time code access: switching it on and off (part_004, lines
    821-826, 842-869, 1054-1063, 1143-1146) *)

Module RealTimeToggle.

(** What a switch does, in order. *)
Inductive Event :=
| EvInfo (msg : jsstring)          (* vscode.window.showInformationMessage(msg) *)
| EvCreateWatcher (id : nat)       (* createFileSystemWatcher(...): the id-th watcher *)
| EvDisposeWatcher (id : nat)      (* this.watcher.dispose() *)
| EvClearTimers                    (* debounceTimers.forEach(clearTimeout); debounceTimers.clear() *)
| EvSubscribe                      (* context.subscriptions.push({ dispose }) *)
| EvSetContext (enable : bool)     (* executeCommand("setContext", "llmcoderagent.realTimeEnabled", enable) *)
| EvDebounce (uri : jsstring).     (* realTimeManager.debounce(..., uri, ...) *)

(** The manager's [isRealTimeEnabled] and [watcher] (by the number of the
    watcher), the number of watchers created so far, and
    [config.realTimeDiagnostics] as [activate] holds it. *)
Record State := {
  isRealTimeEnabled : bool;
  watcher : option nat;
  created : nat;
  realTimeDiagnostics : bool;
}.

(** [toggleRealTime(enable)], lines 842-869. *)
Definition toggleRealTime (enable : bool) (st : State) : State * list Event :=
  if bool_decide (isRealTimeEnabled st = enable) then
    (st, [EvInfo (js "Real-time code access is already " ++
                  (if enable then js "enabled" else js "disabled"))])
  else if enable then
    ({| isRealTimeEnabled := true; watcher := Some (created st);
        created := S (created st);
        realTimeDiagnostics := realTimeDiagnostics st |},
     [EvCreateWatcher (created st);
      EvInfo (js "Real-time code access enabled.");
      EvSubscribe; EvSetContext true])
  else
    ({| isRealTimeEnabled := false; watcher := None; created := created st;
        realTimeDiagnostics := realTimeDiagnostics st |},
     match watcher st with
     | Some id => [EvDisposeWatcher id]
     | None => []
     end ++
     [EvClearTimers; EvInfo (js "Real-time code access disabled.");
      EvSubscribe; EvSetContext false]).

(** The constructor, lines 821-826, called by [activate] with the
    configuration it has read. *)
Definition construct (realTimeDiagnostics : bool) : State * list Event :=
  toggleRealTime realTimeDiagnostics
    {| isRealTimeEnabled := false; watcher := None; created := 0;
       realTimeDiagnostics := realTimeDiagnostics |}.

(** What [activate] reacts to. *)
Inductive Input :=
| Command                                     (* the command llmcoderagent.toggleRealTime *)
| ConfigChanged (realTimeDiagnostics : bool)  (* onDidChangeConfiguration, with the new setting *)
| TextChanged (uri : jsstring) (included : bool). (* onDidChangeTextDocument; shouldIncludeFile(uri, config) *)

Definition handle (input : Input) (st : State) : State * list Event :=
  match input with
  | Command => toggleRealTime (negb (isRealTimeEnabled st)) st
  | ConfigChanged setting =>
      toggleRealTime setting
        {| isRealTimeEnabled := isRealTimeEnabled st; watcher := watcher st;
           created := created st; realTimeDiagnostics := setting |}
  | TextChanged uri included =>
      (st, if realTimeDiagnostics st && included then [EvDebounce uri] else [])
  end.

Definition session (realTimeDiagnostics : bool) (inputs : list Input)
  : State * list Event :=
  foldl (fun '(st, events) input =>
           let '(st', events') := handle input st in (st', events ++ events'))
    (construct realTimeDiagnostics) inputs.

(** The watchers that were created and not disposed. *)
Definition after (watchers : list nat) (event : Event) : list nat :=
  match event with
  | EvCreateWatcher id => watchers ++ [id]
  | EvDisposeWatcher id => filter (fun w => w <> id) watchers
  | _ => watchers
  end.

Definition live (events : list Event) : list nat := foldl after [] events.

(** The manager holds the only live watcher, and holds one exactly when real
    time is enabled. *)
Definition one_watcher (st : State) (events : list Event) : Prop :=
  live events = option_list (watcher st) /\
  (isRealTimeEnabled st = true <-> is_Some (watcher st)) /\
  (forall id, watcher st = Some id -> (id < created st)%nat).

End RealTimeToggle.

(** * Theorems *)

(** ** Retry Dispatcher *)

Module RetryDispatcherFacts.
Import RetryDispatcher.

Lemma backoff_cons (b : Z) (a : Z) (n : nat) :
  ((fun i : nat => b * 2 ^ (a + Z.of_nat i)) <$> seq 0 (S n)) =
  b * 2 ^ a :: ((fun i : nat => b * 2 ^ ((a + 1) + Z.of_nat i)) <$> seq 0 n).
Proof.
  cbn [seq fmap list_fmap]. f_equal.
  - by rewrite Z.add_0_r.
  - rewrite <- seq_shift, <- list_fmap_compose. apply list_fmap_ext.
    intros _ i _. cbn. do 2 f_equal. lia.
Qed.

Lemma range_cons (a : Z) (n : nat) :
  ((fun i : nat => a + Z.of_nat i) <$> seq 0 (S n)) =
  a :: ((fun i : nat => (a + 1) + Z.of_nat i) <$> seq 0 n).
Proof.
  cbn [seq fmap list_fmap]. f_equal.
  - lia.
  - rewrite <- seq_shift, <- list_fmap_compose. apply list_fmap_ext.
    intros _ i _. cbn. lia.
Qed.


Lemma calls_retry (a d : Z) (evs : list Event) :
  calls (EvGetResponse a :: EvSleep d :: evs) = a :: calls evs.
Proof. reflexivity. Qed.

Lemma sleeps_retry (a d : Z) (evs : list Event) :
  sleeps (EvGetResponse a :: EvSleep d :: evs) = d :: sleeps evs.
Proof. reflexivity. Qed.

Lemma retries_cons (d a : Z) (n : nat) :
  retries d a (S n) =
    EvGetResponse a :: EvSleep (d * 2 ^ a) :: retries d (a + 1) n.
Proof.
  unfold retries. cbn [seq mbind list_bind app]. rewrite Z.add_0_r. do 2 f_equal.
  rewrite <- seq_shift, list_fmap_bind. apply list_bind_ext; [|done].
  intros i. cbn. by replace (a + Z.of_nat (S i)) with (a + 1 + Z.of_nat i) by lia.
Qed.




Lemma calls_retries (d a : Z) (n : nat) :
  calls (retries d a n) = (fun i : nat => a + Z.of_nat i) <$> seq 0 n.
Proof.
  revert a. induction n as [|n IH]; intros a; [done|].
  rewrite retries_cons, range_cons, calls_retry. by rewrite IH.
Qed.

Lemma sleeps_retries (d a : Z) (n : nat) :
  sleeps (retries d a n) = (fun i : nat => d * 2 ^ (a + Z.of_nat i)) <$> seq 0 n.
Proof.
  revert a. induction n as [|n IH]; intros a; [done|].
  rewrite retries_cons, backoff_cons, sleeps_retry. by rewrite IH.
Qed.

Section Runs.
Variable sanitizeHtml : jsstring -> jsstring.
Variable config : Config.
Variable provider : LLMProvider.
Variable prompt : jsstring.
Variable chatHistory : list ChatMessage.

Local Abbreviation run := (attempts sanitizeHtml config provider prompt chatHistory).
Local Abbreviation outcome i := (getResponse provider prompt chatHistory i).

(** Sustained failure from attempt [attempt] on: every remaining iteration
    calls the provider once, all but the last one sleep, and the run throws. *)
Lemma attempts_all_fail (left : nat) (attempt : Z) (served : nat) :
  (1 <= left)%nat ->
  apiMaxRetries config = attempt + Z.of_nat left ->
  (forall i, (served <= i < served + left)%nat -> is_throw (outcome i) = true) ->
  is_throw (run left attempt served).1 = true /\
  calls (run left attempt served).2 =
    ((fun i : nat => attempt + Z.of_nat i) <$> seq 0 left) /\
  sleeps (run left attempt served).2 =
    ((fun i : nat => apiRetryDelay config * 2 ^ (attempt + Z.of_nat i))
       <$> seq 0 (left - 1)).
Proof.
  revert attempt served. induction left as [|left IH]; intros attempt served Hl HR Hf; [lia|].
  cbn [attempts].
  pose proof (Hf served ltac:(lia)) as Hs.
  destruct (outcome served) as [r|e]; [discriminate|].
  destruct (Z.ltb_spec attempt (apiMaxRetries config - 1)) as [Hlt|Hge].
  - destruct left as [|left]; [lia|].
    destruct (IH (attempt + 1) (S served)) as (H1 & H2 & H3); [lia|lia| |].
    { intros i Hi. apply Hf. lia. }
    destruct (run (S left) (attempt + 1) (S served)) as [r evs].
    cbn [fst snd] in *. split; [done|]. split.
    + by rewrite range_cons, calls_retry, H2.
    + replace (S (S left) - 1)%nat with (S (S left - 1)) by lia.
      by rewrite backoff_cons, sleeps_retry, H3.
  - assert (left = 0%nat) as -> by lia.
    cbn. repeat split. f_equal. lia.
Qed.




End Runs.



End RetryDispatcherFacts.

(** ** Review Parser: the suggested replacement *)

Module SuggestedChangesFacts.
Import ReviewParser.

Lemma strip_fence_Some (s rest : jsstring) :
  strip_fence s = Some rest <-> s = fence ++ rest.
Proof.
  unfold strip_fence, fence. split.
  - destruct s as [|a [|b [|c s]]]; try discriminate.
    destruct (N.eqb_spec a backtick), (N.eqb_spec b backtick),
      (N.eqb_spec c backtick); cbn; try discriminate.
    intros [= ->]. by subst.
  - intros ->. cbn. reflexivity.
Qed.

Lemma find_fence_unfold (s : jsstring) :
  find_fence s =
  match strip_fence s with
  | Some rest => Some ([], rest)
  | None =>
      match s with
      | [] => None
      | a :: t => (fun '(pre, rest) => (a :: pre, rest)) <$> find_fence t
      end
  end.
Proof.
  destruct s as [|a [|b [|c s]]]; try reflexivity.
  cbn. destruct (_ && _); reflexivity.
Qed.

Lemma remove_fences_unfold (s : jsstring) :
  remove_fences s =
  match strip_fence s with
  | Some rest => remove_fences rest
  | None => match s with [] => [] | a :: t => a :: remove_fences t end
  end.
Proof.
  destruct s as [|a [|b [|c s]]]; try reflexivity.
  cbn. destruct (_ && _); reflexivity.
Qed.

Lemma lit_fence {R : Type} (k : jsstring -> option R) (s : jsstring) :
  lit fence k s = strip_fence s ≫= k.
Proof.
  unfold fence, strip_fence.
  destruct s as [|a [|b [|c s]]]; cbn [lit mbind option_bind]; try reflexivity.
  - by destruct (backtick =? a)%N.
  - destruct (backtick =? a)%N; [|done]. by destruct (backtick =? b)%N.
  - rewrite !(N.eqb_sym backtick).
    destruct (a =? backtick)%N; [|done].
    destruct (b =? backtick)%N; [|done].
    by destruct (c =? backtick)%N.
Qed.

(** [find_fence] splits at a fence ... *)
Lemma find_fence_Some (s pre rest : jsstring) :
  find_fence s = Some (pre, rest) -> s = pre ++ fence ++ rest.
Proof.
  revert pre. induction s as [|a t IH]; intros pre; rewrite find_fence_unfold.
  - discriminate.
  - destruct (strip_fence (a :: t)) as [r|] eqn:E.
    + intros [= <- <-]. by apply strip_fence_Some.
    + destruct (find_fence t) as [[p r]|]; [|discriminate].
      cbn. intros [= <- <-]. cbn. f_equal. by apply IH.
Qed.

(** ... the first one: no fence starts inside [pre] ... *)
Lemma find_fence_first (s pre rest pre' rest' : jsstring) :
  find_fence s = Some (pre, rest) -> s = pre' ++ fence ++ rest' ->
  (length pre <= length pre')%nat.
Proof.
  revert pre pre'. induction s as [|a t IH]; intros pre pre';
    rewrite find_fence_unfold.
  - discriminate.
  - destruct (strip_fence (a :: t)) as [r|] eqn:E.
    + intros [= <- <-] _. cbn. lia.
    + destruct (find_fence t) as [[p r]|] eqn:Et; [|discriminate].
      cbn. intros [= <- <-] Hs.
      destruct pre' as [|a' pre'].
      * assert (strip_fence (a :: t) = Some rest') by (by apply strip_fence_Some).
        congruence.
      * injection Hs as -> Hs. cbn. apply le_n_S. by eapply IH.
Qed.

(** ... and it finds a fence whenever there is one. *)
Lemma find_fence_complete (pre rest : jsstring) :
  is_Some (find_fence (pre ++ fence ++ rest)).
Proof.
  induction pre as [|a pre IH]; rewrite find_fence_unfold.
  - cbn. eauto.
  - destruct (strip_fence _); [eauto|].
    cbn [app]. destruct IH as [[p r] ->]. cbn. eauto.
Qed.

Lemma find_fence_None_tail (a : N) (t : jsstring) :
  find_fence (a :: t) = None -> find_fence t = None.
Proof.
  rewrite find_fence_unfold. destruct (strip_fence _); [discriminate|].
  by destruct (find_fence t) as [[??]|].
Qed.

(** The lazy body of the pattern stops at the first closing fence. *)
Lemma star_lazy_fence {R : Type} (g : jsstring -> R) (s : jsstring) :
  star_lazy any_char (fun body => lit fence (fun _ => Some (g body))) s =
  (fun '(body, _) => g body) <$> find_fence s.
Proof.
  revert g. induction s as [|a t IH]; intros g.
  - reflexivity.
  - cbn [star_lazy]. rewrite lit_fence, find_fence_unfold.
    destruct (strip_fence (a :: t)); [reflexivity|].
    cbn [mbind option_bind any_char]. rewrite (IH (fun m => g (a :: m))).
    by destruct (find_fence t) as [[??]|].
Qed.

Lemma fence_re_spec (s : jsstring) :
  fence_re s =
  rest ← strip_fence s;
  (fun '(body, _) => fence ++ body ++ fence) <$> find_fence rest.
Proof.
  unfold fence_re. rewrite lit_fence.
  destruct (strip_fence s); [|reflexivity]. cbn [mbind option_bind].
  apply (star_lazy_fence (fun body => fence ++ body ++ fence)).
Qed.

Lemma fenced_match_Some (s m : jsstring) :
  fenced_match s = Some m ->
  exists pre body post, s = pre ++ fence ++ body ++ fence ++ post.
Proof.
  unfold fenced_match.
  destruct (find_fence s) as [[pre r]|] eqn:E1; [|discriminate]. cbn.
  destruct (find_fence r) as [[body post]|] eqn:E2; [|discriminate]. cbn.
  intros _. exists pre, body, post.
  apply find_fence_Some in E1, E2. by rewrite E1, E2.
Qed.

(** An opening fence that is never closed: no match starts inside it either. *)
Lemma fenced_match_unclosed (x rest : jsstring) :
  (length x <= 2)%nat -> find_fence rest = None -> fenced_match (x ++ rest) = None.
Proof.
  intros Hx Hnone.
  destruct (fenced_match (x ++ rest)) as [m|] eqn:Em; [|reflexivity].
  exfalso. apply fenced_match_Some in Em as (pre & body & post & Ht).
  assert (rest = drop (length x) (pre ++ fence ++ body) ++ fence ++ post) as Hr.
  { rewrite <- (drop_app_length x rest) at 1. rewrite Ht.
    replace (pre ++ fence ++ body ++ fence ++ post)
      with ((pre ++ fence ++ body) ++ fence ++ post)
      by (by rewrite <- !app_assoc).
    apply drop_app_le. rewrite !length_app. cbn. lia. }
  rewrite Hr in Hnone.
  destruct (find_fence_complete (drop (length x) (pre ++ fence ++ body)) post).
  congruence.
Qed.

Lemma search_fence_re (s : jsstring) : search fence_re s = fenced_match s.
Proof.
  induction s as [|a t IH].
  - reflexivity.
  - cbn [search]. rewrite fence_re_spec, IH. unfold fenced_match at 2.
    rewrite find_fence_unfold.
    destruct (strip_fence (a :: t)) as [rest|] eqn:E.
    + cbn [mbind option_bind].
      destruct (find_fence rest) as [[body post]|] eqn:Er; [reflexivity|].
      cbn [fmap option_fmap option_map].
      apply strip_fence_Some in E. injection E as -> ->.
      by apply (fenced_match_unclosed [backtick; backtick]).
    + cbn [mbind option_bind]. unfold fenced_match.
      by destruct (find_fence t) as [[??]|].
Qed.

(** Removing the fences of the match leaves the body. *)
Lemma strip_fence_app_None (x y : jsstring) :
  (3 <= length x)%nat -> strip_fence (x ++ y) = None -> strip_fence x = None.
Proof.
  destruct x as [|a [|b [|c x]]]; cbn; try lia.
  intros _. by destruct (_ && _).
Qed.

Lemma remove_fences_body (t body post : jsstring) :
  find_fence t = Some (body, post) -> remove_fences (body ++ fence) = body.
Proof.
  revert body. induction t as [|a t IH]; intros body; rewrite find_fence_unfold.
  - discriminate.
  - destruct (strip_fence (a :: t)) as [r|] eqn:E.
    + intros [= <- <-]. reflexivity.
    + destruct (find_fence t) as [[p r]|] eqn:Et; [|discriminate].
      cbn. intros [= <- <-]. change ((a :: p) ++ fence) with (a :: p ++ fence).
      rewrite remove_fences_unfold.
      apply find_fence_Some in Et. subst t.
      rewrite (strip_fence_app_None (a :: p ++ fence) r).
      * cbn. f_equal. by apply IH.
      * cbn. rewrite length_app. cbn. lia.
      * cbn [app]. by rewrite <- app_assoc.
Qed.

Lemma remove_fences_match (t body post : jsstring) :
  find_fence t = Some (body, post) ->
  remove_fences (fence ++ body ++ fence) = body.
Proof.
  intros H. rewrite remove_fences_unfold. cbn. by eapply remove_fences_body.
Qed.

(** C5.  For every reply text, [suggestedChanges] is the body of the first
    triple-fenced block, trimmed ([firstFencedBlock] reads the block off the
    first fence and the next one; [find_fence] is shown above to split at the
    first fence); a reply with no fenced block leaves the field absent
    ([None], never a string); and the reply that consists of the one block
    with the line [foo] yields [foo]. *)
Theorem suggestedChanges_first_fenced_block :
  (forall review : jsstring,
     suggestedChanges review = trim <$> firstFencedBlock review) /\
  (forall review : jsstring,
     suggestedChanges review = None <->
     ~ exists pre body post, review = pre ++ fence ++ body ++ fence ++ post) /\
  suggestedChanges (js "```" ++ [newline] ++ js "foo" ++ [newline] ++ js "```")
    = Some (js "foo").
Proof.
  assert (forall review, suggestedChanges review = trim <$> firstFencedBlock review) as Hspec.
  { intros review. unfold suggestedChanges, firstFencedBlock.
    rewrite search_fence_re. unfold fenced_match.
    destruct (find_fence review) as [[pre r]|]; [|reflexivity].
    cbn [mbind option_bind].
    destruct (find_fence r) as [[body post]|] eqn:E; [|reflexivity].
    cbn [mbind option_bind fmap option_fmap option_map].
    by rewrite (remove_fences_match _ _ _ E). }
  split; [exact Hspec|]. split; [|reflexivity].
  intros review. rewrite Hspec. unfold firstFencedBlock. split.
  - intros Hn (pre & body & post & ->).
    destruct (find_fence_complete pre (body ++ fence ++ post)) as [[p r] E].
    rewrite E in Hn. cbn in Hn.
    pose proof (find_fence_first _ _ _ _ _ E eq_refl) as Hlen.
    apply find_fence_Some in E.
    (* what follows the first fence still holds the closing one *)
    assert (exists x, r = x ++ fence ++ post) as [x ->].
    { assert (r = drop (length p + 3) (pre ++ fence ++ body) ++ fence ++ post) as ->; [|eauto].
      transitivity (drop (length p + 3) (p ++ fence ++ r)).
      { rewrite (app_assoc p fence r), drop_app_length'; [done|].
        rewrite length_app. cbn. lia. }
      rewrite <- E.
      replace (pre ++ fence ++ body ++ fence ++ post)
        with ((pre ++ fence ++ body) ++ fence ++ post)
        by (by rewrite <- !app_assoc).
      apply drop_app_le. rewrite !length_app. cbn. lia. }
    destruct (find_fence_complete x post) as [[b q] E2].
    rewrite E2 in Hn. discriminate.
  - intros Hn.
    destruct (find_fence review) as [[pre r]|] eqn:E1; [|reflexivity]. cbn.
    destruct (find_fence r) as [[body post]|] eqn:E2; [|reflexivity].
    exfalso. apply Hn. exists pre, body, post.
    apply find_fence_Some in E1, E2. by rewrite E1, E2.
Qed.

End SuggestedChangesFacts.

(** ** Review Parser: issue extraction *)

Module IssueFacts.
Import ReviewParser.

Lemma lit_strip {R : Type} (l : jsstring) (k : jsstring -> option R) (s : jsstring) :
  lit l k s = strip l s ≫= k.
Proof.
  revert s. induction l as [|c l IH]; intros s; [reflexivity|].
  cbn [lit strip]. destruct s as [|d s]; [reflexivity|].
  destruct (c =? d)%N; [apply IH|reflexivity].
Qed.

(** A greedy run settles on the longest run when the continuation cannot
    start with a character of the class ... *)
Lemma star_greedy_det {R : Type} (X : N -> bool)
    (k : jsstring -> jsstring -> option R) (s : jsstring) :
  (forall m c r, X c = true -> k m (c :: r) = None) ->
  star_greedy X k s = k (takeW X s) (dropW X s).
Proof.
  revert k. induction s as [|c s IH]; intros k Hk; [reflexivity|].
  cbn [star_greedy takeW dropW]. destruct (X c) eqn:Ec; [|reflexivity].
  rewrite IH by (intros; by apply Hk).
  destruct (k (c :: takeW X s) (dropW X s)); [reflexivity|by apply Hk].
Qed.

(** ... and when the continuation accepts whatever follows. *)
Lemma star_greedy_total {R : Type} (X : N -> bool)
    (k : jsstring -> jsstring -> option R) (s : jsstring) :
  (forall m r, is_Some (k m r)) ->
  star_greedy X k s = k (takeW X s) (dropW X s).
Proof.
  revert k. induction s as [|c s IH]; intros k Hk; [reflexivity|].
  cbn [star_greedy takeW dropW]. destruct (X c) eqn:Ec; [|reflexivity].
  rewrite IH by (intros; by apply Hk).
  by destruct (Hk (c :: takeW X s) (dropW X s)) as [r ->].
Qed.

Lemma plus_greedy_run1 {R : Type} (X : N -> bool)
    (k : jsstring -> jsstring -> option R) (s : jsstring) :
  (forall m c r, X c = true -> k m (c :: r) = None) \/
  (forall m r, is_Some (k m r)) ->
  plus_greedy X k s = run1 X s ≫= (fun '(m, r) => k m r).
Proof.
  intros Hk. unfold plus_greedy, run1. destruct s as [|c s]; [reflexivity|].
  cbn [takeW dropW]. destruct (X c) eqn:Ec; [|reflexivity].
  cbn [mbind option_bind]. destruct Hk as [Hk|Hk].
  - apply (star_greedy_det X (fun m => k (c :: m))). intros. by apply Hk.
  - apply (star_greedy_total X (fun m => k (c :: m))). intros. by apply Hk.
Qed.

Lemma digit_not_colon (c : N) : is_digit c = true -> (58 =? c)%N = false.
Proof. intros H. class_arith H. apply N.eqb_neq. lia. Qed.

Lemma word_not_space (c : N) : is_word c = true -> (32 =? c)%N = false.
Proof. intros H. class_arith H. apply N.eqb_neq. lia. Qed.

(** The backtracking matcher and the direct reading agree. *)
Lemma issue_re_direct (s : jsstring) : issue_re s = issue_direct s.
Proof.
  unfold issue_re, issue_direct.
  rewrite lit_strip. destruct (strip (js "Line ") s) as [r1|]; [|reflexivity].
  cbn [mbind option_bind].
  rewrite plus_greedy_run1.
  2:{ left. intros m c r Hc.
      change (js ": ") with [58; 32]%N. cbn [lit].
      by rewrite (digit_not_colon c Hc). }
  destruct (run1 is_digit r1) as [[g1 r2]|]; [|reflexivity].
  cbn [mbind option_bind].
  rewrite lit_strip. destruct (strip (js ": ") r2) as [r3|]; [|reflexivity].
  cbn [mbind option_bind].
  rewrite plus_greedy_run1.
  2:{ left. intros m c r Hc.
      change (js " severity") with (32%N :: js "severity"). cbn [lit].
      by rewrite (word_not_space c Hc). }
  destruct (run1 is_word r3) as [[w r4]|]; [|reflexivity].
  cbn [mbind option_bind].
  rewrite lit_strip. destruct (strip (js " severity") r4) as [r5|]; [|reflexivity].
  cbn [mbind option_bind].
  rewrite lit_strip. destruct (strip (js " - ") r5) as [r6|]; [|reflexivity].
  cbn [mbind option_bind].
  rewrite plus_greedy_run1 by (right; eauto).
  reflexivity.
Qed.

(** *** Nothing of the pattern crosses a line feed *)

Lemma strip_app_nl (l0 l t : jsstring) :
  forallb not_newline l0 = true ->
  strip l0 (l ++ newline :: t) = (fun r => r ++ newline :: t) <$> strip l0 l.
Proof.
  revert l. induction l0 as [|c l0 IH]; intros l H; [reflexivity|].
  cbn [forallb] in H. apply andb_prop in H as [Hc H].
  destruct l as [|d l]; cbn [strip app].
  - unfold not_newline in Hc. apply negb_true_iff in Hc. by rewrite Hc.
  - destruct (c =? d)%N; [by apply IH|reflexivity].
Qed.

Lemma takeW_app_nl (X : N -> bool) (l t : jsstring) :
  X newline = false -> takeW X (l ++ newline :: t) = takeW X l.
Proof.
  intros HX. induction l as [|c l IH]; cbn [takeW app]; [by rewrite HX|].
  destruct (X c); [by rewrite IH|reflexivity].
Qed.

Lemma dropW_app_nl (X : N -> bool) (l t : jsstring) :
  X newline = false -> dropW X (l ++ newline :: t) = dropW X l ++ newline :: t.
Proof.
  intros HX. induction l as [|c l IH]; cbn [dropW app]; [by rewrite HX|].
  destruct (X c); [by rewrite IH|reflexivity].
Qed.

Lemma run1_app_nl (X : N -> bool) (l t : jsstring) :
  X newline = false ->
  run1 X (l ++ newline :: t) =
  (fun '(m, r) => (m, r ++ newline :: t)) <$> run1 X l.
Proof.
  intros HX. unfold run1. rewrite takeW_app_nl, dropW_app_nl by done.
  by destruct (takeW X l).
Qed.

Lemma issue_direct_app_nl (l t : jsstring) :
  issue_direct (l ++ newline :: t) =
  (fun '(i, r) => (i, r ++ newline :: t)) <$> issue_direct l.
Proof.
  unfold issue_direct.
  rewrite strip_app_nl by reflexivity.
  destruct (strip (js "Line ") l) as [r1|]; [|reflexivity].
  cbn [fmap option_fmap option_map mbind option_bind].
  rewrite run1_app_nl by reflexivity.
  destruct (run1 is_digit r1) as [[g1 r2]|]; [|reflexivity].
  cbn [fmap option_fmap option_map mbind option_bind].
  rewrite strip_app_nl by reflexivity.
  destruct (strip (js ": ") r2) as [r3|]; [|reflexivity].
  cbn [fmap option_fmap option_map mbind option_bind].
  rewrite run1_app_nl by reflexivity.
  destruct (run1 is_word r3) as [[w r4]|]; [|reflexivity].
  cbn [fmap option_fmap option_map mbind option_bind].
  rewrite strip_app_nl by reflexivity.
  destruct (strip (js " severity") r4) as [r5|]; [|reflexivity].
  cbn [fmap option_fmap option_map mbind option_bind].
  rewrite strip_app_nl by reflexivity.
  destruct (strip (js " - ") r5) as [r6|]; [|reflexivity].
  cbn [fmap option_fmap option_map mbind option_bind].
  rewrite run1_app_nl by reflexivity.
  destruct (run1 not_newline r6) as [[g3 r7]|]; reflexivity.
Qed.

Lemma strip_forallb (P : N -> bool) (l0 s r : jsstring) :
  strip l0 s = Some r -> forallb P s = true -> forallb P r = true.
Proof.
  revert s. induction l0 as [|c l0 IH]; intros s; cbn [strip].
  - by intros [= ->].
  - destruct s as [|d s]; [discriminate|]. destruct (c =? d)%N; [|discriminate].
    intros Hs [_ H]%andb_prop. by eapply IH.
Qed.

Lemma dropW_forallb (P X : N -> bool) (s : jsstring) :
  forallb P s = true -> forallb P (dropW X s) = true.
Proof.
  induction s as [|c s IH]; [done|]. cbn [dropW].
  destruct (X c); [|done]. intros [_ H]%andb_prop. by apply IH.
Qed.

Lemma run1_forallb (P X : N -> bool) (s m r : jsstring) :
  run1 X s = Some (m, r) -> forallb P s = true -> forallb P r = true.
Proof.
  unfold run1. destruct (takeW X s); [discriminate|].
  intros [= _ <-]. apply dropW_forallb.
Qed.

Lemma dropW_all (X : N -> bool) (s : jsstring) :
  forallb X s = true -> dropW X s = [].
Proof.
  induction s as [|c s IH]; [done|]. cbn [forallb dropW].
  intros [-> H]%andb_prop. by apply IH.
Qed.

(** Inside one line the last group runs to the end of the line. *)
Lemma issue_direct_line (l : jsstring) (i : Issue) (r : jsstring) :
  forallb not_newline l = true -> issue_direct l = Some (i, r) -> r = [].
Proof.
  intros Hl. unfold issue_direct.
  destruct (strip (js "Line ") l) as [r1|] eqn:E1; [|discriminate].
  cbn [mbind option_bind].
  destruct (run1 is_digit r1) as [[g1 r2]|] eqn:E2; [|discriminate].
  cbn [mbind option_bind].
  destruct (strip (js ": ") r2) as [r3|] eqn:E3; [|discriminate].
  cbn [mbind option_bind].
  destruct (run1 is_word r3) as [[w r4]|] eqn:E4; [|discriminate].
  cbn [mbind option_bind].
  destruct (strip (js " severity") r4) as [r5|] eqn:E5; [|discriminate].
  cbn [mbind option_bind].
  destruct (strip (js " - ") r5) as [r6|] eqn:E6; [|discriminate].
  cbn [mbind option_bind].
  destruct (run1 not_newline r6) as [[g3 r7]|] eqn:E7; [|discriminate].
  cbn [mbind option_bind]. intros [= _ <-].
  assert (forallb not_newline r6 = true) as H6.
  { eapply strip_forallb; [exact E6|]. eapply strip_forallb; [exact E5|].
    eapply run1_forallb; [exact E4|]. eapply strip_forallb; [exact E3|].
    eapply run1_forallb; [exact E2|]. eapply strip_forallb; [exact E1|done]. }
  unfold run1 in E7. destruct (takeW not_newline r6); [discriminate|].
  injection E7 as _ <-. by apply dropW_all.
Qed.

(** *** The scan, line by line *)

Lemma matchAll_go_skip (l x : jsstring) :
  matchAll_go (length l) (l ++ x) = matchAll_go 0 x.
Proof. induction l as [|c l IH]; [reflexivity|]. cbn. exact IH. Qed.

Lemma issue_re_nl (t : jsstring) : issue_re (newline :: t) = None.
Proof. rewrite issue_re_direct. reflexivity. Qed.

Lemma issue_re_nil : issue_re [] = None.
Proof. rewrite issue_re_direct. reflexivity. Qed.

Lemma matchAll_go_nl (t : jsstring) :
  matchAll_go 0 (newline :: t) = matchAll_go 0 t.
Proof. cbn [matchAll_go]. by rewrite issue_re_nl. Qed.

Lemma lineIssue_cons_None (c : N) (l : jsstring) :
  issue_re (c :: l) = None -> lineIssue (c :: l) = lineIssue l.
Proof. unfold lineIssue. cbn [search]. by intros ->. Qed.

(** A line that is followed by more text ... *)
Lemma matchAll_go_line (l t : jsstring) :
  forallb not_newline l = true ->
  matchAll_go 0 (l ++ newline :: t) =
  option_list (lineIssue l) ++ matchAll_go 0 t.
Proof.
  induction l as [|c l IH]; intros Hl.
  - cbn [app]. rewrite matchAll_go_nl. unfold lineIssue. cbn [search].
    by rewrite issue_re_nil.
  - pose proof Hl as [_ Hl']%andb_prop.
    cbn [app matchAll_go].
    change (c :: l ++ newline :: t) with ((c :: l) ++ newline :: t).
    rewrite issue_re_direct, issue_direct_app_nl, <- issue_re_direct.
    destruct (issue_re (c :: l)) as [[i r]|] eqn:E.
    + cbn [fmap option_fmap option_map].
      assert (r = []) as ->.
      { eapply issue_direct_line; [exact Hl|]. by rewrite <- issue_re_direct. }
      replace (length ((c :: l) ++ newline :: t) - length ([] ++ newline :: t) - 1)%nat
        with (length l) by (cbn; rewrite !length_app; cbn; lia).
      rewrite matchAll_go_skip, matchAll_go_nl.
      unfold lineIssue. cbn [search]. by rewrite E.
    + cbn [fmap option_fmap option_map].
      rewrite (lineIssue_cons_None _ _ E). by apply IH.
Qed.

(** ... and the last line. *)
Lemma matchAll_go_last_line (l : jsstring) :
  forallb not_newline l = true ->
  matchAll_go 0 l = option_list (lineIssue l).
Proof.
  induction l as [|c l IH]; intros Hl.
  - unfold lineIssue. cbn [search matchAll_go]. by rewrite issue_re_nil.
  - pose proof Hl as [_ Hl']%andb_prop. cbn [matchAll_go].
    destruct (issue_re (c :: l)) as [[i r]|] eqn:E.
    + assert (r = []) as ->.
      { eapply issue_direct_line; [exact Hl|]. by rewrite <- issue_re_direct. }
      replace (length (c :: l) - length (@nil N) - 1)%nat with (length l)
        by (cbn; lia).
      rewrite <- (app_nil_r l) at 2. rewrite matchAll_go_skip.
      unfold lineIssue. cbn [search]. by rewrite E.
    + rewrite (lineIssue_cons_None _ _ E). by apply IH.
Qed.

Lemma lines_split (s : jsstring) :
  exists l, forallb not_newline l = true /\
    ((s = l /\ lines s = [l]) \/
     (exists t, s = l ++ newline :: t /\ lines s = l :: lines t)).
Proof.
  induction s as [|c s (l & Hl & IH)].
  - exists []. split; [done|]. by left.
  - cbn [lines]. destruct (N.eqb_spec c newline) as [->|Hc].
    + exists []. split; [done|]. right. by exists s.
    + exists (c :: l). split.
      { cbn. rewrite Hl. unfold not_newline. apply N.eqb_neq in Hc. by rewrite Hc. }
      destruct IH as [[-> E]|(t & -> & E)]; rewrite E.
      * by left.
      * right. by exists t.
Qed.

Lemma omap_cons_option_list {A B : Type} (f : A -> option B) (x : A) (l : list A) :
  omap f (x :: l) = option_list (f x) ++ omap f l.
Proof. cbn. by destruct (f x). Qed.

Lemma parseIssues_lines (review : jsstring) :
  parseIssues review = omap lineIssue (lines review).
Proof.
  unfold parseIssues. remember (length review) as n eqn:Hn.
  revert review Hn.
  induction n as [n IH] using (well_founded_induction lt_wf); intros review Hn.
  destruct (lines_split review) as (l & Hl & [[-> E] | (t & -> & E)]); rewrite E.
  - rewrite matchAll_go_last_line by done.
    rewrite omap_cons_option_list. cbn. by rewrite app_nil_r.
  - rewrite matchAll_go_line by done. rewrite omap_cons_option_list. f_equal.
    apply (IH (length t)); [|done]. subst n. rewrite length_app. cbn. lia.
Qed.

(** *** Lines of the pattern's form *)

Lemma strip_app (l0 r : jsstring) : strip l0 (l0 ++ r) = Some r.
Proof. induction l0 as [|c l0 IH]; [done|]. cbn. by rewrite N.eqb_refl. Qed.

Lemma strip_Some (l0 s r : jsstring) : strip l0 s = Some r -> s = l0 ++ r.
Proof.
  revert s. induction l0 as [|c l0 IH]; intros s; cbn [strip].
  - by intros [= ->].
  - destruct s as [|d s]; [discriminate|].
    destruct (N.eqb_spec c d) as [->|]; [|discriminate].
    intros H. cbn. f_equal. by apply IH.
Qed.

Lemma takeW_dropW_app (X : N -> bool) (m r : jsstring) :
  forallb X m = true -> stops X r ->
  takeW X (m ++ r) = m /\ dropW X (m ++ r) = r.
Proof.
  intros Hm Hr. induction m as [|c m IH].
  - destruct r as [|c r]; [done|]. cbn in *. by rewrite Hr.
  - cbn in *. apply andb_prop in Hm as [-> Hm].
    destruct (IH Hm) as [-> ->]. done.
Qed.

Lemma run1_app (X : N -> bool) (m r : jsstring) :
  m <> [] -> forallb X m = true -> stops X r -> run1 X (m ++ r) = Some (m, r).
Proof.
  intros Hne Hm Hr. unfold run1.
  destruct (takeW_dropW_app X m r Hm Hr) as [-> ->]. by destruct m.
Qed.

Lemma takeW_forallb (X : N -> bool) (s : jsstring) : forallb X (takeW X s) = true.
Proof.
  induction s as [|c s IH]; [done|]. cbn. destruct (X c) eqn:E; [|done].
  cbn. by rewrite E.
Qed.

Lemma takeW_dropW (X : N -> bool) (s : jsstring) : takeW X s ++ dropW X s = s.
Proof.
  induction s as [|c s IH]; [done|]. cbn. destruct (X c); [|done].
  cbn. by rewrite IH.
Qed.

Lemma dropW_stops (X : N -> bool) (s : jsstring) : stops X (dropW X s).
Proof.
  induction s as [|c s IH]; [done|]. cbn. by destruct (X c) eqn:E.
Qed.

Lemma run1_Some (X : N -> bool) (s m r : jsstring) :
  run1 X s = Some (m, r) ->
  s = m ++ r /\ m <> [] /\ forallb X m = true /\ stops X r.
Proof.
  unfold run1. destruct (takeW X s) as [|c m'] eqn:E; [discriminate|].
  intros [= <- <-]. rewrite <- E. split; [by rewrite takeW_dropW|].
  split; [by rewrite E|]. split; [apply takeW_forallb|apply dropW_stops].
Qed.

Lemma issue_direct_text (ds w msg post : jsstring) :
  ds <> [] -> forallb is_digit ds = true ->
  w <> [] -> forallb is_word w = true ->
  msg <> [] -> forallb not_newline msg = true -> stops not_newline post ->
  issue_direct (issue_text ds w msg ++ post) = Some (issue_of ds w msg, post).
Proof.
  intros Hds1 Hds2 Hw1 Hw2 Hm1 Hm2 Hpost. unfold issue_direct, issue_text.
  rewrite <- !app_assoc.
  rewrite strip_app. cbn [mbind option_bind].
  rewrite run1_app by done. cbn [mbind option_bind].
  rewrite strip_app. cbn [mbind option_bind].
  rewrite run1_app by done. cbn [mbind option_bind].
  rewrite strip_app. cbn [mbind option_bind].
  rewrite strip_app. cbn [mbind option_bind].
  rewrite run1_app by done. reflexivity.
Qed.

Lemma issue_direct_Some (s : jsstring) (i : Issue) (r : jsstring) :
  issue_direct s = Some (i, r) ->
  exists ds w msg,
    s = issue_text ds w msg ++ r /\ i = issue_of ds w msg /\
    ds <> [] /\ forallb is_digit ds = true /\
    w <> [] /\ forallb is_word w = true /\
    msg <> [] /\ forallb not_newline msg = true.
Proof.
  unfold issue_direct.
  destruct (strip (js "Line ") s) as [r1|] eqn:E1; [|discriminate].
  cbn [mbind option_bind].
  destruct (run1 is_digit r1) as [[g1 r2]|] eqn:E2; [|discriminate].
  cbn [mbind option_bind].
  destruct (strip (js ": ") r2) as [r3|] eqn:E3; [|discriminate].
  cbn [mbind option_bind].
  destruct (run1 is_word r3) as [[w r4]|] eqn:E4; [|discriminate].
  cbn [mbind option_bind].
  destruct (strip (js " severity") r4) as [r5|] eqn:E5; [|discriminate].
  cbn [mbind option_bind].
  destruct (strip (js " - ") r5) as [r6|] eqn:E6; [|discriminate].
  cbn [mbind option_bind].
  destruct (run1 not_newline r6) as [[g3 r7]|] eqn:E7; [|discriminate].
  cbn [mbind option_bind]. intros [= <- <-].
  apply strip_Some in E1, E3, E5, E6.
  apply run1_Some in E2 as (-> & ? & ? & _), E4 as (-> & ? & ? & _),
    E7 as (-> & ? & ? & _).
  exists g1, w, g3. repeat split; try done.
  unfold issue_text. rewrite <- !app_assoc. congruence.
Qed.

Lemma search_Some {R : Type} (re : jsstring -> option R) (s : jsstring) (x : R) :
  search re s = Some x -> exists pre post, s = pre ++ post /\ re post = Some x.
Proof.
  induction s as [|c s IH]; cbn [search].
  - destruct (re []) eqn:E; [|discriminate]. intros [= <-]. by exists [], [].
  - destruct (re (c :: s)) eqn:E.
    + intros [= <-]. by exists [], (c :: s).
    + intros (pre & post & -> & H)%IH. by exists (c :: pre), post.
Qed.

Lemma search_is_Some {R : Type} (re : jsstring -> option R) (pre post : jsstring) :
  is_Some (re post) -> is_Some (search re (pre ++ post)).
Proof.
  intros H. induction pre as [|c pre IH].
  - destruct post; cbn [search app]; by destruct H as [? ->].
  - cbn [search app]. by destruct (re (c :: pre ++ post)).
Qed.

Lemma lineIssue_matches (l : jsstring) :
  is_Some (lineIssue l) <-> matches_pattern l.
Proof.
  unfold lineIssue. rewrite fmap_is_Some. split.
  - intros [[i r] (pre & post & -> & H)%search_Some].
    rewrite issue_re_direct in H.
    apply issue_direct_Some in H as (ds & w & msg & -> & _ & ?).
    by exists pre, ds, w, msg, r.
  - intros (pre & ds & w & msg & post & -> & ? & ? & ? & ? & ? & ?).
    apply search_is_Some. rewrite issue_re_direct.
    (* the message group runs on to the end of the line *)
    rewrite <- (takeW_dropW not_newline post).
    replace (issue_text ds w msg ++ takeW not_newline post ++ dropW not_newline post)
      with (issue_text ds w (msg ++ takeW not_newline post) ++ dropW not_newline post)
      by (unfold issue_text; by rewrite <- !app_assoc).
    rewrite issue_direct_text; try done.
    + by destruct msg.
    + rewrite forallb_app. by rewrite takeW_forallb, andb_true_r.
    + apply dropW_stops.
Qed.

(** *** What [parseInt] reads *)

Lemma pretty_N_char_value (x : N) :
  (x < 10)%N -> digit_value (N_of_ascii (pretty_N_char x)) = Z.of_N x.
Proof.
  intros Hx. destruct x as [|p]; [done|].
  do 4 (try destruct p as [p|p|]); try done; lia.
Qed.

Lemma pretty_N_char_digit (x : N) : is_digit (N_of_ascii (pretty_N_char x)) = true.
Proof. unfold pretty_N_char. by repeat case_match. Qed.

(** Reading what [pretty_N_go] wrote, in front of digits already written. *)
Lemma decimal_pretty_N_go (x : N) (s : string) :
  decimal (js (pretty_N_go x s)) =
  foldl (fun acc c => 10 * acc + digit_value c) (Z.of_N x) (js s).
Proof.
  revert s. induction (N.lt_wf_0 x) as [x _ IH]; intros s.
  assert (x = 0 \/ 0 < x)%N as [->|Hx] by lia.
  - by rewrite pretty_N_go_0.
  - rewrite pretty_N_go_step by done. rewrite IH by (by apply N.div_lt).
    change (js (String (pretty_N_char (x `mod` 10)) s))
      with (N_of_ascii (pretty_N_char (x `mod` 10)) :: js s).
    cbn [foldl]. f_equal.
    rewrite pretty_N_char_value by (apply N.mod_lt; lia).
    pose proof (N.div_mod x 10 ltac:(lia)). lia.
Qed.

Lemma digits_pretty_N_go (x : N) (s : string) :
  forallb is_digit (js s) = true -> forallb is_digit (js (pretty_N_go x s)) = true.
Proof.
  revert s. induction (N.lt_wf_0 x) as [x _ IH]; intros s Hs.
  assert (x = 0 \/ 0 < x)%N as [->|Hx] by lia.
  - by rewrite pretty_N_go_0.
  - rewrite pretty_N_go_step by done. apply IH; [by apply N.div_lt|].
    change (js (String (pretty_N_char (x `mod` 10)) s))
      with (N_of_ascii (pretty_N_char (x `mod` 10)) :: js s).
    cbn [forallb]. by rewrite pretty_N_char_digit, Hs.
Qed.

Lemma nonempty_pretty_N_go (x : N) (s : string) :
  js s <> [] -> js (pretty_N_go x s) <> [].
Proof.
  revert s. induction (N.lt_wf_0 x) as [x _ IH]; intros s Hs.
  assert (x = 0 \/ 0 < x)%N as [->|Hx] by lia.
  - by rewrite pretty_N_go_0.
  - rewrite pretty_N_go_step by done. apply IH; [by apply N.div_lt|done].
Qed.

(** The decimal spelling of a natural number is a non-empty run of digits,
    and reads back as the number. *)
Lemma num_digits (n : Z) :
  0 <= n ->
  num n <> [] /\ forallb is_digit (num n) = true /\ decimal (num n) = n.
Proof.
  intros Hn. unfold num, pretty, pretty_Z.
  destruct n as [|p|p]; [by vm_compute| |lia].
  unfold pretty, pretty_positive, pretty, pretty_N.
  rewrite decide_False by done.
  assert (0 < N.pos p)%N as Hp by lia.
  rewrite pretty_N_go_step by done.
  split; [|split].
  - by apply nonempty_pretty_N_go.
  - apply digits_pretty_N_go. cbn. by rewrite pretty_N_char_digit.
  - rewrite decimal_pretty_N_go. cbn [js list_ascii_of_string fmap list_fmap foldl].
    rewrite pretty_N_char_value by (apply N.mod_lt; lia).
    pose proof (N.div_mod (N.pos p) 10 ltac:(lia)). lia.
Qed.

Lemma decimal_zeros (zeros : nat) (ds : jsstring) :
  decimal (replicate zeros 48%N ++ ds) = decimal ds.
Proof.
  unfold decimal. rewrite foldl_app. f_equal.
  induction zeros as [|k IH]; [done|].
  rewrite replicate_S_end, foldl_app, IH. done.
Qed.

Lemma nearest_double_exact (n : Z) : n <= 2 ^ 53 -> nearest_double n = Finite n.
Proof.
  intros Hn. unfold nearest_double.
  destruct (Z.ltb_spec n (2 ^ 53)); [done|].
  assert (n = 2 ^ 53) as -> by lia. by vm_compute.
Qed.

(** Up to [2^53], [parseInt] gives the integer written, leading zeros or
    not. *)
Lemma parseInt_num (zeros : nat) (n : Z) :
  0 <= n <= 2 ^ 53 -> parseInt (replicate zeros 48%N ++ num n) = Finite n.
Proof.
  intros Hn. unfold parseInt. rewrite decimal_zeros.
  destruct (num_digits n) as (_ & _ & ->); [lia|].
  apply nearest_double_exact. lia.
Qed.

(** From [2^53] on, the nearest double is at least [2^53]. *)
Lemma nearest_double_large (n r : Z) :
  2 ^ 53 <= n -> nearest_double n = Finite r -> 2 ^ 53 <= r.
Proof.
  intros Hn. unfold nearest_double.
  destruct (Z.ltb_spec n (2 ^ 53)); [lia|].
  set (e := Z.log2 n - 52). set (q := Z.shiftr n e).
  match goal with
  | |- context [if ?b then q + 1 else q] => set (q' := if b then q + 1 else q)
  end.
  destruct (1024 <=? _); [done|]. intros [= <-].
  assert (53 <= Z.log2 n) as Hlog.
  { change 53 with (Z.log2 (2 ^ 53)). by apply Z.log2_le_mono. }
  assert (1 <= e) as He by (unfold e; lia).
  assert (2 ^ 52 <= q) as Hq.
  { unfold q. rewrite Z.shiftr_div_pow2 by lia.
    apply Z.div_le_lower_bound; [apply Z.pow_pos_nonneg; lia|].
    rewrite <- Z.pow_add_r by lia.
    replace (e + 52) with (Z.log2 n) by (unfold e; lia).
    apply Z.log2_spec. lia. }
  assert (q <= q') as Hq' by (unfold q'; case_match; lia).
  rewrite Z.shiftl_mul_pow2 by lia.
  assert (2 ^ 1 <= 2 ^ e) by (apply Z.pow_le_mono_r; lia).
  change (2 ^ 53) with (2 ^ 52 * 2 ^ 1). nia.
Qed.

(** [x - 1] is exact when the result lies below [2^53]. *)
Lemma minus_one_small (n r : Z) :
  minus_one (Finite n) = Finite r -> r < 2 ^ 53 -> r = n - 1.
Proof.
  cbn [minus_one]. intros H Hr.
  destruct (Z.lt_ge_cases (n - 1) (2 ^ 53)) as [Hlt|Hge].
  - rewrite nearest_double_exact in H by lia. by injection H as <-.
  - apply nearest_double_large in H; lia.
Qed.

(** C6 (as amended).  Issue extraction works line by line: the issues of a
    reply are, in order, one issue for each line in which the pattern
    [Line <N>: <severity> severity - <message>] occurs and none for the other
    lines.  A line of exactly that form yields the issue with
    [<severity> severity], [<message>] and the line number [parseInt] reads
    from the digits: the double nearest to the integer written.  That is the
    integer itself whenever it is at most [2^53], with or without leading
    zeros; so the reply [Line 3: High severity - leak] yields [{line: 3,
    severity: "High severity", message: "leak"}].  Extraction is a total
    function: no input makes it throw. *)
Theorem parseIssues_one_issue_per_matching_line :
  (forall review : jsstring,
     parseIssues review = omap lineIssue (lines review)) /\
  (forall l : jsstring,
     (matches_pattern l -> exists issue, lineIssue l = Some issue) /\
     (~ matches_pattern l -> lineIssue l = None)) /\
  (forall ds w msg : jsstring,
     ds <> [] -> forallb is_digit ds = true ->
     w <> [] -> forallb is_word w = true ->
     msg <> [] -> forallb not_newline msg = true ->
     parseIssues (issue_text ds w msg) =
       [{| line := nearest_double (decimal ds);
           severity := w ++ js " severity"; message := msg |}]) /\
  (forall (n : Z) (zeros : nat) (w msg : jsstring),
     0 <= n <= 2 ^ 53 ->
     w <> [] -> forallb is_word w = true ->
     msg <> [] -> forallb not_newline msg = true ->
     parseIssues (issue_text (replicate zeros 48%N ++ num n) w msg) =
       [{| line := Finite n; severity := w ++ js " severity";
           message := msg |}]) /\
  parseIssues (js "Line 3: High severity - leak") =
    [{| line := Finite 3; severity := js "High severity";
        message := js "leak" |}].
Proof.
  assert (forall ds w msg : jsstring,
     ds <> [] -> forallb is_digit ds = true ->
     w <> [] -> forallb is_word w = true ->
     msg <> [] -> forallb not_newline msg = true ->
     parseIssues (issue_text ds w msg) =
       [{| line := parseInt ds; severity := w ++ js " severity";
           message := msg |}]) as Hform.
  { intros ds w msg Hd1 Hd2 Hw1 Hw2 Hm1 Hm2.
    assert (forallb not_newline (issue_text ds w msg) = true) as Hl.
    { unfold issue_text. rewrite !forallb_app, Hm2.
      assert (forallb not_newline ds = true) as ->.
      { apply forallb_forall. intros c Hc.
        assert (is_digit c = true) as Hx by (by eapply forallb_forall in Hd2).
        class_arith Hx. unfold not_newline, newline.
        apply negb_true_iff, N.eqb_neq. lia. }
      assert (forallb not_newline w = true) as ->.
      { apply forallb_forall. intros c Hc.
        assert (is_word c = true) as Hx by (by eapply forallb_forall in Hw2).
        class_arith Hx. unfold not_newline, newline.
        apply negb_true_iff, N.eqb_neq. lia. }
      reflexivity. }
    unfold parseIssues. rewrite matchAll_go_last_line by done.
    unfold lineIssue.
    assert (issue_re (issue_text ds w msg) = Some (issue_of ds w msg, [])) as E.
    { rewrite issue_re_direct. rewrite <- (app_nil_r (issue_text ds w msg)).
      by apply issue_direct_text. }
    destruct (issue_text ds w msg) eqn:Et; cbn [search]; by rewrite E. }
  split; [exact parseIssues_lines|]. split; [|split; [|split; [|by vm_compute]]].
  - intros l. split.
    + by intros ?%lineIssue_matches.
    + intros Hn. destruct (lineIssue l) eqn:E; [|done].
      exfalso. apply Hn, lineIssue_matches. by rewrite E.
  - exact Hform.
  - intros n zeros w msg Hn Hw1 Hw2 Hm1 Hm2.
    destruct (num_digits n) as (Hne & Hdigits & _); [lia|].
    rewrite Hform; [by rewrite parseInt_num| | |done..].
    + intros E. apply app_eq_nil in E as [_ E]. done.
    + rewrite forallb_app, Hdigits, andb_true_r.
      clear. by induction zeros as [|k IH].
Qed.

(** Where the issues of a reply come from. *)
Lemma matchAll_go_elem (skip : nat) (s : jsstring) (i : Issue) :
  i ∈ matchAll_go skip s -> exists s' r, issue_re s' = Some (i, r).
Proof.
  revert skip. induction s as [|c s IH]; intros skip; cbn [matchAll_go].
  - by intros ?%elem_of_nil.
  - destruct skip as [|n]; [|apply IH].
    destruct (issue_re (c :: s)) as [[i' r]|] eqn:E; [|apply IH].
    intros [->|H]%elem_of_cons; [eauto|by eapply IH].
Qed.

(** The severity stored on every issue is the text the second group of the
    pattern captured: a non-empty run of word characters followed by
    [ severity].  It is therefore never one of the four bare tags High,
    Medium, Low, Info. *)
Lemma parseIssues_severity_is_raw_capture (review : jsstring) (issue : Issue) :
  issue ∈ parseIssues review ->
  (exists w, w <> [] /\ forallb is_word w = true /\
             severity issue = w ++ js " severity") /\
  severity issue ∉ normalizedSeverities.
Proof.
  intros (s' & r & H)%matchAll_go_elem. rewrite issue_re_direct in H.
  apply issue_direct_Some in H as (ds & w & msg & _ & -> & _ & _ & Hw1 & Hw2 & _).
  cbn [severity issue_of]. split; [eauto|].
  assert (forall t, (length t < 10)%nat -> w ++ js " severity" <> t) as Hne.
  { intros t Ht E. apply (f_equal length) in E. rewrite length_app in E.
    change (length (js " severity")) with 9%nat in E.
    destruct w; [done|]. cbn [length] in E. lia. }
  unfold normalizedSeverities. intros Hin.
  repeat (apply elem_of_cons in Hin as [Hin|Hin];
          [revert Hin; apply Hne; vm_compute; lia|]).
  by apply elem_of_nil in Hin.
Qed.

End IssueFacts.

(** ** Content Loader *)

Module ContentLoaderFacts.
Import ContentLoader ReviewFile.

Section Ceiling.
Variable decode : list N -> jsstring.
Variable fs : FileSystem.
Variable uri : jsstring.
Variable maxFileSize size : Z.
Hypothesis Hstat : stat_size fs uri = Ok size.

Lemma Ext_readFileContent_too_large :
  maxFileSize < size ->
  Ext_readFileContent decode fs uri maxFileSize =
    Throw (Ext_tooLarge uri size maxFileSize).
Proof.
  intros Hlt. unfold Ext_readFileContent, Ext_tooLarge. rewrite Hstat.
  apply Z.ltb_lt in Hlt. rewrite Hlt. cbn [message].
  by rewrite <- ?app_assoc.
Qed.

Lemma P4_readFileContent_too_large (cache : option (gmap jsstring jsstring)) :
  maxFileSize < size ->
  P4_readFileContent decode fs uri maxFileSize cache =
    (Throw (P4_tooLarge uri size maxFileSize), cache).
Proof.
  intros Hlt. unfold P4_readFileContent, P4_tooLarge. rewrite Hstat.
  apply Z.ltb_lt in Hlt. rewrite Hlt. cbn [message].
  by rewrite <- ?app_assoc.
Qed.

Lemma Ext_readFileContent_within (bytes : list N) :
  size <= maxFileSize -> readFile fs uri = Ok bytes ->
  Ext_readFileContent decode fs uri maxFileSize = Ok (decode bytes).
Proof.
  intros Hle Hread. unfold Ext_readFileContent. rewrite Hstat, Hread.
  by destruct (Z.ltb_spec maxFileSize size); [lia|].
Qed.

Lemma P4_readFileContent_within (bytes : list N)
    (cache : option (gmap jsstring jsstring)) :
  size <= maxFileSize -> readFile fs uri = Ok bytes ->
  cache ≫= (fun c => c !! uri) = None ->
  P4_readFileContent decode fs uri maxFileSize cache =
    (Ok (decode bytes), (fun c => <[uri := decode bytes]> c) <$> cache).
Proof.
  intros Hle Hread Hmiss. unfold P4_readFileContent.
  rewrite Hstat, Hread, Hmiss.
  by destruct (Z.ltb_spec maxFileSize size); [lia|].
Qed.

End Ceiling.

(** C3.  Let [size] be the size [stat] reports for the file.  If it exceeds
    the ceiling, [readFileContent] throws the file-size error in both
    revisions (leaving any cache as it was), and [reviewFile] throws without
    a single request to the backend.  If it equals the ceiling and the file
    can be read, the decoded content is returned (in part_004: unless the
    optional cache already holds a text for the path, which is then returned
    instead). *)
Theorem readFileContent_size_ceiling
    (decode : list N -> jsstring) (fs : FileSystem) (uri : jsstring)
    (maxFileSize size : Z) :
  stat_size fs uri = Ok size ->
  (maxFileSize < size ->
     Ext_readFileContent decode fs uri maxFileSize =
       Throw (Ext_tooLarge uri size maxFileSize) /\
     (forall cache, P4_readFileContent decode fs uri maxFileSize cache =
       (Throw (P4_tooLarge uri size maxFileSize), cache)) /\
     (forall asRelativePath backend,
        let run := Ext_reviewFile decode fs asRelativePath backend uri maxFileSize in
        is_throw run.1 = true /\ run.2 = []) /\
     (forall asRelativePath getRelatedFiles inWorkspace lineCount sanitizeHtml
             reviewPrompt retry projectContext provider,
        let run := P4_reviewFile decode fs asRelativePath getRelatedFiles
                     inWorkspace lineCount sanitizeHtml uri maxFileSize
                     reviewPrompt retry projectContext provider in
        is_throw run.1 = true /\ RetryDispatcher.calls run.2 = []))
  /\
  (size = maxFileSize ->
   forall bytes, readFile fs uri = Ok bytes ->
     Ext_readFileContent decode fs uri maxFileSize = Ok (decode bytes) /\
     P4_readFileContent decode fs uri maxFileSize None = (Ok (decode bytes), None) /\
     (forall c : gmap jsstring jsstring,
        match c !! uri with
        | None =>
            P4_readFileContent decode fs uri maxFileSize (Some c) =
              (Ok (decode bytes), Some (<[uri := decode bytes]> c))
        | Some cached =>
            P4_readFileContent decode fs uri maxFileSize (Some c) =
              (Ok cached, Some c)
        end)).
Proof.
  intros Hstat. split.
  - intros Hlt.
    pose proof (Ext_readFileContent_too_large decode fs uri _ _ Hstat Hlt) as E1.
    pose proof (fun cache =>
      P4_readFileContent_too_large decode fs uri _ _ Hstat cache Hlt) as E2.
    split; [exact E1|]. split; [exact E2|]. split.
    + intros asRelativePath backend run. subst run.
      unfold Ext_reviewFile. by rewrite E1.
    + intros asRelativePath getRelatedFiles inWorkspace lineCount sanitizeHtml
        reviewPrompt retry projectContext provider run. subst run.
      unfold P4_reviewFile. destruct provider; [|done]. by rewrite E2.
  - intros -> bytes Hread. split; [|split].
    + by apply (Ext_readFileContent_within decode fs uri _ _ Hstat); [lia|].
    + by apply (P4_readFileContent_within decode fs uri _ _ Hstat); [lia| |].
    + intros c. destruct (c !! uri) as [cached|] eqn:Ec.
      * unfold P4_readFileContent. rewrite Hstat, Z.ltb_irrefl. cbn.
        by rewrite Ec.
      * by apply (P4_readFileContent_within decode fs uri _ _ Hstat); [lia| |].
Qed.

End ContentLoaderFacts.

(** ** File Mutation Gate *)

Module MutationGateFacts.
Import MutationGate.

Lemma basename_go_no_slash (segment p : jsstring) :
  no_slash segment -> no_slash (basename_go segment p).
Proof.
  revert segment. induction p as [|c p IH]; intros segment Hs; cbn; [done|].
  destruct (N.eqb_spec c slash) as [->|Hc].
  - apply IH. unfold no_slash. apply not_elem_of_nil.
  - apply IH. unfold no_slash in *. rewrite not_elem_of_app, not_elem_of_cons.
    split; [done|]. split; [congruence|apply not_elem_of_nil].
Qed.

Lemma basename_go_segment (segment name : jsstring) :
  no_slash name -> basename_go segment name = segment ++ name.
Proof.
  revert segment. induction name as [|c name IH]; intros segment Hn; cbn.
  - by rewrite app_nil_r.
  - unfold no_slash in Hn. apply not_elem_of_cons in Hn as [Hc Hn].
    destruct (N.eqb_spec c slash) as [->|_]; [done|].
    rewrite IH by done. by rewrite <- app_assoc.
Qed.

Lemma basename_go_join (segment dir name : jsstring) :
  no_slash name -> basename_go segment (dir ++ slash :: name) = name.
Proof.
  intros Hn. revert segment. induction dir as [|c dir IH]; intros segment.
  - cbn [app basename_go]. rewrite N.eqb_refl.
    by apply (basename_go_segment []).
  - cbn [app basename_go]. destruct (c =? slash)%N; apply IH.
Qed.

Lemma basename_join (dir name : jsstring) :
  no_slash name -> basename (join dir name) = name.
Proof. apply basename_go_join. Qed.

Lemma pretty_N_char_numeric (x : N) : numeric (N_of_ascii (pretty_N_char x)).
Proof. unfold pretty_N_char, numeric. repeat case_match; cbn; lia. Qed.

Lemma pretty_N_go_numeric (x : N) (s : string) :
  Forall numeric (js s) -> Forall numeric (js (pretty_N_go x s)).
Proof.
  revert s. induction (N.lt_wf_0 x) as [x _ IH]; intros s Hs.
  assert (x = 0 \/ 0 < x)%N as [->|Hx] by lia.
  - by rewrite pretty_N_go_0.
  - rewrite pretty_N_go_step by done. apply IH; [by apply N.div_lt|].
    apply Forall_cons. split; [apply pretty_N_char_numeric|done].
Qed.

Lemma js_app (s1 s2 : string) : js (s1 +:+ s2) = js s1 ++ js s2.
Proof.
  induction s1 as [|c s1 IH]; [done|].
  change (js (String c s1 +:+ s2)) with (N_of_ascii c :: js (s1 +:+ s2)).
  by rewrite IH.
Qed.

Lemma num_numeric (n : Z) : Forall numeric (num n).
Proof.
  unfold num, pretty, pretty_Z.
  assert (forall p : positive, Forall numeric (js (pretty p))) as Hp.
  { intros p. unfold pretty, pretty_positive, pretty, pretty_N.
    case_decide; [done|]. apply pretty_N_go_numeric. constructor. }
  destruct n as [|p|p]; [|apply Hp|].
  - change (js "0") with [48%N]. apply Forall_singleton. unfold numeric. lia.
  - rewrite js_app. apply Forall_app. split; [|apply Hp].
    change (js "-") with [45%N]. apply Forall_singleton. by right.
Qed.

(** Closed facts about literals. *)
Ltac closed_no_slash := unfold no_slash; apply (bool_decide_unpack _); by vm_compute.

Lemma num_not_elem (c : N) (n : Z) : ~ numeric c -> c ∉ num n.
Proof.
  intros Hc Hin. pose proof (num_numeric n) as Hn.
  eapply Forall_forall in Hn; [|exact Hin]. done.
Qed.

(** The decimal rendering of a number holds no separator. *)
Lemma num_no_slash (n : Z) : no_slash (num n).
Proof. apply num_not_elem. unfold numeric, slash. lia. Qed.

(** The temporary file of the preview is never the target itself. *)
Lemma tempFile_ne_uri (dir uri : jsstring) (t : Z) :
  join dir (basename uri ++ js ".suggested." ++ num t) <> uri.
Proof.
  intros E. apply (f_equal basename) in E.
  rewrite basename_join in E.
  - apply (f_equal length) in E. rewrite !length_app in E. cbn in E. lia.
  - unfold no_slash. rewrite !not_elem_of_app. split; [|split].
    + apply (basename_go_no_slash []). closed_no_slash.
    + closed_no_slash.
    + apply num_no_slash.
Qed.

Lemma Ext_backupPath_ne_uri (uri : jsstring) (t : Z) : Ext_backupPath uri t <> uri.
Proof.
  unfold Ext_backupPath. intros E. apply (f_equal length) in E.
  rewrite !length_app in E. cbn in E. lia.
Qed.

Lemma P4_backupPath_ne_uri (uri : jsstring) (t : Z) : P4_backupPath uri t <> uri.
Proof.
  unfold P4_backupPath. intros E. apply (f_equal length) in E.
  rewrite !length_app in E. cbn in E. lia.
Qed.

(** Two texts that agree read from the end agree on what follows their last
    occurrence of a character, and on what precedes it. *)
Lemma split_at_last (c : N) (x y a b : jsstring) :
  c ∉ a -> c ∉ b -> x ++ c :: a = y ++ c :: b -> x = y /\ a = b.
Proof.
  intros Ha Hb E. apply (f_equal reverse) in E.
  rewrite !reverse_app, !reverse_cons, <- !app_assoc in E. cbn in E.
  assert (forall (u v p q : jsstring),
            c ∉ u -> c ∉ v -> u ++ c :: p = v ++ c :: q -> u = v /\ p = q) as Hfirst.
  { clear. induction u as [|k u IH]; intros [|l v] p q Hu Hv E; cbn in E.
    - by simplify_eq.
    - simplify_eq. by apply not_elem_of_cons in Hv as [? _].
    - simplify_eq. by apply not_elem_of_cons in Hu as [? _].
    - apply not_elem_of_cons in Hu as [_ Hu]. apply not_elem_of_cons in Hv as [_ Hv].
      injection E as -> E. by destruct (IH _ _ _ Hu Hv E) as [-> ->]. }
  apply Hfirst in E as [E1 E2].
  - apply (inj reverse) in E1. apply (inj reverse) in E2. done.
  - by rewrite elem_of_reverse.
  - by rewrite elem_of_reverse.
Qed.

Lemma num_no_dot (n : Z) : dot ∉ num n.
Proof. apply num_not_elem. unfold numeric, dot. lia. Qed.

(** The temporary file of the preview is never the backup: the one ends in
    [.suggested.<number>], the other in [.bak.<number>] or
    [.bak<number>]. *)
Lemma tempFile_ne_Ext_backupPath (dir uri : jsstring) (t1 t2 : Z) :
  join dir (basename uri ++ js ".suggested." ++ num t1) <> Ext_backupPath uri t2.
Proof.
  unfold join, Ext_backupPath. intros E.
  assert (js ".suggested." ++ num t1 = js ".suggested" ++ dot :: num t1) as E1
    by reflexivity.
  assert (js ".bak." ++ num t2 = js ".bak" ++ dot :: num t2) as E2
    by reflexivity.
  rewrite E1, E2, !app_assoc in E.
  apply split_at_last in E as [E _]; try apply num_no_dot.
  apply (f_equal reverse) in E. rewrite !reverse_app in E.
  vm_compute in E. by simplify_eq.
Qed.

Lemma tempFile_ne_P4_backupPath (dir uri : jsstring) (t1 t2 : Z) :
  join dir (basename uri ++ js ".suggested." ++ num t1) <> P4_backupPath uri t2.
Proof.
  unfold join, P4_backupPath. intros E.
  assert (js ".suggested." ++ num t1 = js ".suggested" ++ dot :: num t1) as E1
    by reflexivity.
  assert (js ".bak" ++ num t2 = dot :: (js "bak" ++ num t2)) as E2
    by reflexivity.
  rewrite E1, E2, !app_assoc in E.
  apply split_at_last in E as [_ E]; [|apply num_no_dot|].
  - pose proof (num_numeric t1) as Hn. rewrite E in Hn.
    apply Forall_app in Hn as [Hb _]. apply Forall_cons in Hb as [Hb _].
    unfold numeric in Hb. vm_compute in Hb. intuition (done || lia).
  - rewrite not_elem_of_app. split; [|apply num_no_dot].
    apply (bool_decide_unpack _). by vm_compute.
Qed.


Local Arguments js : simpl never.
Local Arguments num : simpl never.
Local Arguments join : simpl never.
Local Arguments Ext_backupPath : simpl never.
Local Arguments P4_backupPath : simpl never.

Ltac gate_unfold :=
  unfold Ext_applyFileChanges,
    P4_applyFileContent, Ext_backupFile, P4_backupFile, confirm, try_catch,
    mbind, M_bind, bind, mret, M_ret, ret, throw, emit, openTextDocument,
    fs_writeFile, showDiff, fs_unlink, fs_copy, applyEdit, document_save,
    with_disk, with_text.

(** What a failed write leaves behind. *)
Lemma lookup_leave_eq (left : option jsstring) (path : jsstring)
    (d : gmap jsstring jsstring) :
  leave left path d !! path =
    match left with Some partial => Some partial | None => d !! path end.
Proof. destruct left; [apply lookup_insert_eq|done]. Qed.

Lemma lookup_leave_ne (left : option jsstring) (path p : jsstring)
    (d : gmap jsstring jsstring) :
  path <> p -> leave left path d !! p = d !! p.
Proof. intros H. destruct left; [by apply lookup_insert_ne|done]. Qed.

(** Lookups in the maps a run has built. *)
Ltac gate_lookup :=
  repeat first
    [ rewrite lookup_insert_eq
    | rewrite lookup_insert_ne by done
    | rewrite lookup_delete_eq
    | rewrite lookup_delete_ne by done
    | rewrite lookup_leave_eq
    | rewrite lookup_leave_ne by done
    | match goal with
      | H : ?m !! ?k = _ |- context [?m !! ?k] => rewrite H
      end ].

(** What the evaluation of a run is waiting for. *)
Ltac stuck t :=
  lazymatch t with
  | match ?s with _ => _ end => stuck s
  | (match ?s with _ => _ end) _ => stuck s
  | _ => t
  end.

(** One step of a run, in the order of the program: case analysis on what
    it inspects next. *)
Ltac gate_eval :=
  cbv beta iota zeta; cbn [negb disk editor fst snd app]; gate_lookup;
  lazymatch goal with
  | |- _ ?run =>
      let s := stuck run in
      lazymatch s with
      | pair _ _ => fail
      | context [bool_decide ?P] =>
          destruct (decide P);
          [ rewrite (bool_decide_eq_true_2 P) by done
          | rewrite (bool_decide_eq_false_2 P) by done ]
      | negb ?b => destruct b
      | _ => first [ is_var s; destruct s | destruct s eqn:? ]
      end
  end.


(** The case analysis of a whole run, for a statement [spec run]. *)
Ltac gate_cases :=
  gate_unfold;
  cbn [tmpdir now_suggested now_backup open_error writeFile_error
       writeFile_left diff_error answer unlink_error copy_error copy_left
       applyEdit_result save_result save_left] in *;
  repeat match goal with
         | |- context [join ?dir ?name] =>
             let tmp := fresh "tmp" in
             set (tmp := join dir name) in *; clearbody tmp
         | |- context [Ext_backupPath ?uri ?t] =>
             let bak := fresh "bak" in
             set (bak := Ext_backupPath uri t) in *; clearbody bak
         | |- context [P4_backupPath ?uri ?t] =>
             let bak := fresh "bak" in
             set (bak := P4_backupPath uri t) in *; clearbody bak
         end;
  repeat gate_eval.




End MutationGateFacts.

(** ** Inclusion Filter *)

Module InclusionFilterFacts.
Import InclusionFilter.

Section Matcher.
Variable minimatch : jsstring -> jsstring -> Res bool.
Variable asRelativePath : jsstring -> jsstring.

(** When the matcher answers on every pattern, the scan is [existsb]. *)
Lemma some_total (matches : jsstring -> bool) (path : jsstring)
    (patterns : list jsstring) :
  (forall pattern, pattern ∈ patterns -> minimatch path pattern = Ok (matches pattern)) ->
  some minimatch path patterns = Ok (existsb matches patterns).
Proof.
  induction patterns as [|p ps IH]; intros H; [reflexivity|].
  cbn [some existsb]. rewrite (H p) by apply list_elem_of_here.
  destruct (matches p); [reflexivity|].
  apply IH. intros q Hq. apply H. by apply list_elem_of_further.
Qed.

Lemma shouldIncludeFile_total (matches : jsstring -> bool) (uri : jsstring)
    (config : Config) :
  (forall pattern,
     pattern ∈ includePatterns config ++ excludePatterns config ->
     minimatch (asRelativePath uri) pattern = Ok (matches pattern)) ->
  Ext_shouldIncludeFile minimatch asRelativePath uri config =
    existsb matches (includePatterns config) &&
    negb (existsb matches (excludePatterns config)) /\
  P4_shouldIncludeFile minimatch asRelativePath uri config =
    Ok (existsb matches (includePatterns config) &&
        negb (existsb matches (excludePatterns config))).
Proof.
  intros H. unfold Ext_shouldIncludeFile, P4_shouldIncludeFile.
  rewrite (some_total matches), (some_total matches).
  - by destruct (existsb matches (includePatterns config)).
  - intros p Hp. apply H. apply elem_of_app. by right.
  - intros p Hp. apply H. apply elem_of_app. by left.
Qed.

(** extension.ts fails closed. *)
Lemma Ext_shouldIncludeFile_fail_closed (uri : jsstring) (config : Config) :
  is_throw (some minimatch (asRelativePath uri) (includePatterns config)) = true \/
  is_throw (some minimatch (asRelativePath uri) (excludePatterns config)) = true ->
  Ext_shouldIncludeFile minimatch asRelativePath uri config = false.
Proof.
  unfold Ext_shouldIncludeFile.
  destruct (some minimatch _ (includePatterns config)) as [inc|];
    destruct (some minimatch _ (excludePatterns config)) as [exc|];
    cbn; intros [?|?]; done.
Qed.

(** part_004 lets the matcher's error through. *)
Lemma P4_shouldIncludeFile_throws (uri : jsstring) (config : Config) (e : Error) :
  some minimatch (asRelativePath uri) (includePatterns config) = Throw e ->
  P4_shouldIncludeFile minimatch asRelativePath uri config = Throw e.
Proof. unfold P4_shouldIncludeFile. by intros ->. Qed.

End Matcher.

(** C4.  For every matcher that answers on all the patterns, both revisions
    return true exactly when some include pattern matches and no exclude
    pattern does.  When a scan raises an error, [shouldIncludeFile] of
    extension.ts returns false; [shouldIncludeFile] of part_004 has no handler
    and throws instead: with an include pattern of 65537 characters, which
    the matcher refuses, extension.ts answers false on [src/a.ts] and
    part_004 throws "pattern is too long". *)
Theorem shouldIncludeFile_include_minus_exclude :
  (forall minimatch asRelativePath (matches : jsstring -> bool) uri config,
     (forall pattern,
        pattern ∈ includePatterns config ++ excludePatterns config ->
        minimatch (asRelativePath uri) pattern = Ok (matches pattern)) ->
     Ext_shouldIncludeFile minimatch asRelativePath uri config =
       existsb matches (includePatterns config) &&
       negb (existsb matches (excludePatterns config)) /\
     P4_shouldIncludeFile minimatch asRelativePath uri config =
       Ok (existsb matches (includePatterns config) &&
           negb (existsb matches (excludePatterns config)))) /\
  (forall minimatch asRelativePath uri config,
     is_throw (some minimatch (asRelativePath uri) (includePatterns config)) = true \/
     is_throw (some minimatch (asRelativePath uri) (excludePatterns config)) = true ->
     Ext_shouldIncludeFile minimatch asRelativePath uri config = false) /\
  Ext_shouldIncludeFile Minimatch.minimatch id (js "src/a.ts") longPatternConfig
    = false /\
  P4_shouldIncludeFile Minimatch.minimatch id (js "src/a.ts") longPatternConfig
    = Throw (mkError (js "pattern is too long")).
Proof.
  split; [exact shouldIncludeFile_total|].
  split; [exact Ext_shouldIncludeFile_fail_closed|].
  split; by vm_compute.
Qed.

(** C10.  The backup of [src/a.ts] made at time 1700000000000 by
    [backupFile] of part_004 is [src/a.ts.bak1700000000000]: there is no dot
    before the timestamp, the default exclude pattern [**/*.bak.*] does not
    match it, and a configuration that includes every file lets it through
    (under the default include patterns it is dropped, for its extension
    only).  The backup that [backupFile] of extension.ts makes of the same
    file, [src/a.ts.bak.1700000000000], is excluded. *)
Theorem backupFile_path_vs_default_excludes :
  MutationGate.P4_backupPath (js "src/a.ts") 1700000000000
    = js "src/a.ts.bak1700000000000" /\
  InclusionFilter.some Minimatch.minimatch (js "src/a.ts.bak1700000000000")
    defaultExcludePatterns = Ok false /\
  P4_shouldIncludeFile Minimatch.minimatch id
    (MutationGate.P4_backupPath (js "src/a.ts") 1700000000000)
    includeAllConfig = Ok true /\
  P4_shouldIncludeFile Minimatch.minimatch id
    (MutationGate.P4_backupPath (js "src/a.ts") 1700000000000)
    defaultConfig = Ok false /\
  MutationGate.Ext_backupPath (js "src/a.ts") 1700000000000
    = js "src/a.ts.bak.1700000000000" /\
  Ext_shouldIncludeFile Minimatch.minimatch id
    (MutationGate.Ext_backupPath (js "src/a.ts") 1700000000000)
    includeAllConfig = false.
Proof. repeat split; by vm_compute. Qed.

End InclusionFilterFacts.

(** ** Backend Adapter *)

Module BackendAdapterFacts.
Import BackendAdapter.

(** The Flowise adapter never throws once the call has succeeded ... *)
Lemma Flowise_getResponse_no_throw (stringify : JSON -> jsstring)
    (url token : jsstring) (status : Z) (data : Value) :
  token <> [] ->
  is_ok (Flowise_getResponse stringify url token (Resolved status data)) = true.
Proof. intros H. unfold Flowise_getResponse. by destruct token. Qed.

(** ... and falls back from [text] to [response] to the raw JSON. *)
Lemma Flowise_getResponse_fallback (stringify : JSON -> jsstring)
    (url token : jsstring) (status : Z) (body : JSON) :
  token <> [] ->
  truthy (get_opt (Some body) "text") = false ->
  let reply := Flowise_getResponse stringify url token (Resolved status (Some body)) in
  (truthy (get_opt (Some body) "response") = true ->
     reply = Ok (get_opt (Some body) "response")) /\
  (truthy (get_opt (Some body) "response") = false ->
   stringify body <> [] ->
     reply = Ok (Some (JStr (stringify body)))).
Proof.
  intros Ht Htext. unfold Flowise_getResponse. destruct token; [done|].
  cbn zeta. unfold or. rewrite Htext. split; intros Hr.
  - by rewrite !Hr.
  - intros Hs. rewrite !Hr. unfold stringify_value. cbn.
    by rewrite bool_decide_eq_false_2.
Qed.

(** C7.  After a successful call the Flowise adapter never throws and falls
    back from [text] to [response] to the raw JSON of the body.  The other two
    adapters do not: on the body [{}] the OpenAI adapter throws (reading
    [choices[0]] of a body without [choices]), and on the body
    [{"text": "hi"}] the Ollama adapter returns the empty string, with no
    fallback to another field or to the raw JSON. *)
Theorem getResponse_absent_reply_field :
  (forall stringify url token status data,
     token <> [] ->
     is_ok (Flowise_getResponse stringify url token (Resolved status data)) = true) /\
  OpenAI_getResponse (Resolved 200 (Some (JObj []))) =
    Throw (mkError (js "OpenAI API error: Cannot read properties of undefined (reading '0')")) /\
  Ollama_getResponse (Resolved 200 (Some (JObj [(js "text", JStr (js "hi"))]))) =
    Ok (Some (JStr [])).
Proof.
  split; [exact Flowise_getResponse_no_throw|]. split; by vm_compute.
Qed.

End BackendAdapterFacts.

(** ** Batch Scheduler *)

Module BatchSchedulerFacts.
Import BatchScheduler.

Section P4Bound.
Variable shouldIncludeFile : jsstring -> Res bool.
Variable maxFiles : Z.

Local Abbreviation entries_run := (P4_entries shouldIncludeFile maxFiles).
Local Abbreviation while_run := (P4_while shouldIncludeFile maxFiles).

(** Every yield was counted, and counted below the limit. *)
Lemma P4_entries_count (dir : jsstring) (entries : list (jsstring * FsNode))
    (fileCount : Z) (stack : list (jsstring * FsNode)) :
  let '(ys, n, _, status) := entries_run dir entries fileCount stack in
  (ys = [] \/ fileCount + Z.of_nat (length ys) <= maxFiles) /\
  (status <> Returned -> n = fileCount + Z.of_nat (length ys)).
Proof.
  revert fileCount stack.
  induction entries as [|[name child] rest IH]; intros fileCount stack.
  - cbn. split; [by left|lia].
  - cbn [P4_entries]. destruct child.
    + destruct (shouldIncludeFile _) as [[|]|].
      * destruct (Z.ltb_spec maxFiles (fileCount + 1)).
        { split; [by left|done]. }
        specialize (IH (fileCount + 1) stack).
        destruct (entries_run dir rest (fileCount + 1) stack) as [[[ys n] st] status].
        destruct IH as [IH1 IH2]. cbn [length]. split.
        -- right. destruct IH1 as [->|IH1]; cbn [length]; lia.
        -- intros Hs. rewrite (IH2 Hs). lia.
      * apply IH.
      * split; [by left|]. cbn. lia.
    + apply IH.
    + apply IH.
    + apply IH.
Qed.

Lemma P4_while_count (fuel : nat) (stack : list (jsstring * FsNode)) (fileCount : Z) :
  let '(ys, n, returned) := while_run fuel stack fileCount in
  (ys = [] \/ fileCount + Z.of_nat (length ys) <= maxFiles) /\
  (returned = false -> n = fileCount + Z.of_nat (length ys)).
Proof.
  revert stack fileCount. induction fuel as [|fuel IH]; intros stack fileCount.
  - cbn. split; [by left|lia].
  - cbn [P4_while]. destruct (reverse stack) as [|[dir node] below].
    { cbn. split; [by left|lia]. }
    destruct (Z.ltb_spec fileCount maxFiles); [|cbn; split; [by left|lia]].
    assert (forall st fc,
      let '(ys, n, returned) := while_run fuel st fc in
      (ys = [] \/ fc + Z.of_nat (length ys) <= maxFiles) /\
      (returned = false -> n = fc + Z.of_nat (length ys))) as IH' by exact IH.
    destruct node; try apply IH'.
    pose proof (P4_entries_count dir entries fileCount (reverse below)) as He.
    destruct (entries_run dir entries fileCount (reverse below))
      as [[[ys n] st] status].
    destruct He as [He1 He2].
    assert (status = Returned \/ status <> Returned) as [->|Hs]
      by (destruct status; auto).
    { split; [exact He1|done]. }
    specialize (IH' st n).
    assert (match status with
            | Returned => (ys, n, true)
            | _ => let '(ys', n', returned) := while_run fuel st n in
                   (ys ++ ys', n', returned)
            end =
            let '(ys', n', returned) := while_run fuel st n in
            (ys ++ ys', n', returned)) as -> by (by destruct status).
    destruct (while_run fuel st n) as [[ys' n'] returned].
    destruct IH' as [IH1 IH2]. rewrite (He2 Hs) in *.
    rewrite length_app. split.
    + destruct IH1 as [->|IH1].
      * rewrite app_nil_r. destruct He1 as [->|He1]; [by left|right; cbn; lia].
      * right. lia.
    + intros Hr. rewrite (IH2 Hr). lia.
Qed.

Lemma P4_folders_count (folders : list (jsstring * FsNode)) (fileCount : Z) :
  let ys := P4_folders shouldIncludeFile maxFiles folders fileCount in
  ys = [] \/ fileCount + Z.of_nat (length ys) <= maxFiles.
Proof.
  revert fileCount. induction folders as [|[dir node] rest IH]; intros fileCount.
  - by left.
  - cbn [P4_folders].
    pose proof (P4_while_count (nodes node) [(dir, node)] fileCount) as Hw.
    destruct (while_run (nodes node) [(dir, node)] fileCount) as [[ys n] returned].
    destruct Hw as [H1 H2]. destruct returned; [exact H1|].
    specialize (H2 eq_refl). subst n.
    specialize (IH (fileCount + Z.of_nat (length ys))). cbn zeta in IH |- *.
    destruct IH as [->|IH].
    + rewrite app_nil_r. exact H1.
    + right. rewrite length_app. lia.
Qed.

(** The walk of part_004 yields at most [maxFiles] paths in all. *)
Lemma P4_findFiles_at_most_maxFiles (folders : list (jsstring * FsNode)) :
  Z.of_nat (length (P4_findFiles shouldIncludeFile maxFiles folders))
    <= Z.max 0 maxFiles.
Proof.
  unfold P4_findFiles.
  destruct (P4_folders_count folders 0) as [->|H]; cbn [length]; lia.
Qed.

(** *** The walk ends: the fuel of [P4_folders] is never used up *)

Lemma nodes_pos (node : FsNode) : (1 <= nodes node)%nat.
Proof. destruct node; cbn; lia. Qed.

Lemma nodes_dir (entries : list (jsstring * FsNode)) :
  nodes (FsDir entries) = S (stack_nodes entries).
Proof.
  cbn [nodes]. f_equal. unfold stack_nodes.
  induction entries as [|[name child] rest IH]; [done|].
  cbn [sum_list_with snd]. by rewrite IH.
Qed.

Lemma stack_nodes_app (s1 s2 : list (jsstring * FsNode)) :
  stack_nodes (s1 ++ s2) = (stack_nodes s1 + stack_nodes s2)%nat.
Proof. apply sum_list_with_app. Qed.

Lemma stack_nodes_0 (stack : list (jsstring * FsNode)) :
  stack_nodes stack = 0%nat -> stack = [].
Proof.
  destruct stack as [|[dir node] rest]; [done|].
  change (stack_nodes ((dir, node) :: rest))
    with (nodes node + stack_nodes rest)%nat.
  pose proof (nodes_pos node). lia.
Qed.

Lemma P4_entries_stack (dir : jsstring) (entries : list (jsstring * FsNode))
    (fileCount : Z) (stack : list (jsstring * FsNode)) :
  (stack_nodes (entries_run dir entries fileCount stack).1.2
     <= stack_nodes stack + stack_nodes entries)%nat.
Proof.
  revert fileCount stack.
  induction entries as [|[name child] rest IH]; intros fileCount stack.
  - cbn [P4_entries fst snd]. lia.
  - assert (stack_nodes ((name, child) :: rest) =
            (nodes child + stack_nodes rest)%nat) as -> by done.
    cbn [P4_entries]. destruct child.
    + destruct (shouldIncludeFile _) as [[|]|].
      * destruct (maxFiles <? fileCount + 1); [cbn [fst snd]; lia|].
        specialize (IH (fileCount + 1) stack).
        destruct (entries_run dir rest (fileCount + 1) stack) as [[[ys n] st] status].
        cbn [fst snd] in *. lia.
      * specialize (IH fileCount stack). lia.
      * cbn [fst snd]. lia.
    + specialize (IH fileCount (stack ++ [(join dir name, FsDir entries)])).
      rewrite stack_nodes_app in IH.
      change (stack_nodes [(join dir name, FsDir entries)])
        with (nodes (FsDir entries) + 0)%nat in IH. lia.
    + specialize (IH fileCount (stack ++ [(join dir name, FsUnreadable)])).
      rewrite stack_nodes_app in IH.
      change (stack_nodes [(join dir name, FsUnreadable)]) with 1%nat in IH.
      change (nodes FsUnreadable) with 1%nat. lia.
    + specialize (IH fileCount stack). lia.
Qed.

Lemma P4_while_enough_fuel (fuel fuel' : nat) (stack : list (jsstring * FsNode))
    (fileCount : Z) :
  (stack_nodes stack <= fuel)%nat -> (stack_nodes stack <= fuel')%nat ->
  while_run fuel stack fileCount = while_run fuel' stack fileCount.
Proof.
  revert fuel' stack fileCount.
  induction fuel as [|fuel IH]; intros fuel' stack fileCount H1 H2.
  - assert (stack = []) as -> by (apply stack_nodes_0; lia).
    by destruct fuel'.
  - destruct fuel' as [|fuel'].
    { assert (stack = []) as -> by (apply stack_nodes_0; lia). done. }
    cbn [P4_while].
    destruct (reverse stack) as [|[dir node] below] eqn:Er; [done|].
    assert (stack = reverse below ++ [(dir, node)]) as Hs.
    { rewrite <- (reverse_involutive stack), Er. by rewrite reverse_cons. }
    assert (stack_nodes stack = (stack_nodes (reverse below) + nodes node)%nat) as Hn.
    { rewrite Hs, stack_nodes_app.
      change (stack_nodes [(dir, node)]) with (nodes node + 0)%nat. lia. }
    destruct (fileCount <? maxFiles); [|done].
    pose proof (nodes_pos node) as Hpos.
    destruct node; try (apply IH; lia).
    pose proof (P4_entries_stack dir entries fileCount (reverse below)) as He.
    rewrite nodes_dir in Hn.
    destruct (entries_run dir entries fileCount (reverse below))
      as [[[ys n] st] status].
    cbn [fst snd] in He.
    rewrite (IH fuel' st n) by lia. done.
Qed.

End P4Bound.

(** C8.  With [maxFiles = 1], the default patterns and a workspace [/w]
    holding [a/x.ts] and [b/y.ts], [findFiles] of extension.ts yields both
    files: the nested call for each directory counts from zero again, so the
    limit holds per directory, not for the walk.  [findFiles] of part_004,
    whose counter is shared, yields one file there, and never more than
    [maxFiles] on any tree. *)
Theorem findFiles_limit_across_directories :
  Ext_findFiles Ext_defaultFilter 1 [(root, twoDirectories)] =
    [js "/w/a/x.ts"; js "/w/b/y.ts"] /\
  P4_findFiles P4_defaultFilter 1 [(root, twoDirectories)] =
    [js "/w/b/y.ts"] /\
  (forall shouldIncludeFile maxFiles folders,
     Z.of_nat (length (P4_findFiles shouldIncludeFile maxFiles folders))
       <= Z.max 0 maxFiles).
Proof.
  split; [by vm_compute|]. split; [by vm_compute|].
  exact P4_findFiles_at_most_maxFiles.
Qed.

End BatchSchedulerFacts.

(** ** The theorems at concrete inputs *)

Module Witnesses.


(** A file of 200000 bytes against the ceiling of 100000, and a file of
    exactly 100000 bytes. *)
Lemma readFileContent_size_ceiling_witness :
  ContentLoader.Ext_readFileContent id (ContentLoader.uniformFs 200000)
    (js "b.ts") 100000 =
    Throw (ContentLoader.Ext_tooLarge (js "b.ts") 200000 100000) /\
  ContentLoader.Ext_readFileContent id (ContentLoader.uniformFs 100000)
    (js "a.ts") 100000 = Ok (id (replicate (Z.to_nat 100000) 0%N)).
Proof.
  split.
  - destruct (ContentLoaderFacts.readFileContent_size_ceiling id
                (ContentLoader.uniformFs 200000) (js "b.ts") 100000 200000
                eq_refl) as [Hbig _].
    destruct Hbig as [H _]; [lia|exact H].
  - destruct (ContentLoaderFacts.readFileContent_size_ceiling id
                (ContentLoader.uniformFs 100000) (js "a.ts") 100000 100000
                eq_refl) as [_ Heq].
    destruct (Heq eq_refl (replicate (Z.to_nat 100000) 0%N) eq_refl) as [H _].
    exact H.
Defined.



(** The line [Line 3: High severity - leak], assembled from its parts. *)
Lemma parseIssues_one_issue_per_matching_line_witness :
  ReviewParser.parseIssues (ReviewParser.issue_text (js "3") (js "High") (js "leak")) =
    [{| ReviewParser.line := ReviewParser.Finite 3;
        ReviewParser.severity := js "High" ++ js " severity";
        ReviewParser.message := js "leak" |}].
Proof.
  destruct IssueFacts.parseIssues_one_issue_per_matching_line
    as (_ & _ & _ & H & _).
  apply (H 3 0%nat (js "High") (js "leak")); [lia|by vm_compute..].
Defined.

(** C6 as specified fails: the line number of an issue need not be the
    integer written, nor an integer at all.  [Line 9007199254740993: ...]
    yields the line 9007199254740992, and a line number of 400 digits yields
    [Infinity]. *)
Lemma parseIssues_line_not_the_integer_written :
  ReviewParser.parseIssues (js "Line 9007199254740993: High severity - leak") =
    [{| ReviewParser.line := ReviewParser.Finite 9007199254740992;
        ReviewParser.severity := js "High severity";
        ReviewParser.message := js "leak" |}] /\
  ReviewParser.parseIssues
    (js "Line " ++ replicate 400 57%N ++ js ": High severity - leak") =
    [{| ReviewParser.line := ReviewParser.Infinity;
        ReviewParser.severity := js "High severity";
        ReviewParser.message := js "leak" |}] /\
  ~ (forall issue,
       issue ∈ ReviewParser.parseIssues
                 (js "Line " ++ replicate 400 57%N ++ js ": High severity - leak") ->
       exists n : Z, ReviewParser.line issue = ReviewParser.Finite n).
Proof.
  assert (ReviewParser.parseIssues
            (js "Line " ++ replicate 400 57%N ++ js ": High severity - leak") =
    [{| ReviewParser.line := ReviewParser.Infinity;
        ReviewParser.severity := js "High severity";
        ReviewParser.message := js "leak" |}]) as E by (by vm_compute).
  split; [by vm_compute|]. split; [exact E|].
  rewrite E. intros H. by destruct (H _ (list_elem_of_here _ _)) as [n Hn].
Qed.

End Witnesses.

Module WorkerPoolFacts.
Import WorkerPool.

Lemma started_app (a b : list Event) : started (a ++ b) = started a ++ started b.
Proof. apply omap_app. Qed.

Lemma settled_app (a b : list Event) : settled (a ++ b) = settled a ++ settled b.
Proof. apply omap_app. Qed.

Section Invariant.
Context {T : Type}.
Variable processor : jsstring -> Res T.
Variable total : nat.
Variable panel : option Panel.
Variable uris : list jsstring.

Local Abbreviation inv := (invariant processor panel uris).
Local Abbreviation loop := (@loop T).
Local Abbreviation settle := (settle processor total panel).
Local Abbreviation run := (run processor total panel).

Lemma start_invariant : inv (@start T uris).
Proof. repeat split; try done. cbn. by destruct panel. Qed.

Lemma loop_invariant (st : State T) : inv st -> inv (loop st).
Proof.
  intros (I1 & I2 & I3 & I4 & I5). unfold WorkerPool.loop.
  destruct (queue st) as [|uri rest] eqn:Eq; [by rewrite <- Eq in I1|].
  repeat split; cbn; rewrite ?started_app, ?settled_app; cbn;
    rewrite ?app_nil_r; try done.
  - by rewrite <- app_assoc.
  - rewrite I2. by rewrite <- app_assoc.
Qed.

(** A progress update adds no call and no settlement, and [errors] grows by
    one exactly when the update throws. *)
Lemma progress_counts (uri : jsstring) (st : State T) :
  let update := progress total panel uri st in
  settled (events st ++ EvSettled uri true :: update.2)
    = settled (events st) ++ [uri] /\
  started (events st ++ EvSettled uri true :: update.2) = started (events st) /\
  (update.1 + failed_updates panel (processed st))%nat =
    (errors st + failed_updates panel (S (processed st)))%nat.
Proof.
  cbv zeta. unfold progress, failed_updates. rewrite started_app, settled_app.
  destruct panel as [set_html|]; [|cbn; by rewrite !app_nil_r].
  rewrite seq_S, filter_app, length_app. cbn [Nat.add filter list_filter].
  destruct (set_html (S (processed st))) as [error|] eqn:E; cbn [fst snd].
  - rewrite decide_True by (by eexists). cbn. rewrite !app_nil_r.
    repeat split. lia.
  - rewrite decide_False by (by intros [? ?]). cbn.
    rewrite !app_nil_r. repeat split. lia.
Qed.

Lemma settle_invariant (i : nat) (st : State T) : inv st -> inv (settle i st).
Proof.
  intros (I1 & I2 & I3 & I4 & I5). unfold WorkerPool.settle.
  destruct (awaiting st !! i) as [uri|] eqn:Ei; [|done].
  apply loop_invariant.
  assert (started (events st) ≡ₚ
          (settled (events st) ++ [uri]) ++ delete i (awaiting st)) as Hp.
  { rewrite <- app_assoc. cbn.
    by rewrite <- (delete_Permutation _ _ _ Ei). }
  pose proof (progress_counts uri st) as (Hs1 & Hs2 & Hcount).
  destruct (processor uri) as [result|error] eqn:Ep;
    repeat split; cbn [queue awaiting results processed errors events];
    rewrite ?Hs1, ?Hs2, ?started_app, ?settled_app; cbn [started settled omap];
    rewrite ?app_nil_r; try done.
  - rewrite omap_app. cbn. by rewrite Ep, I3.
  - rewrite length_app, I4. cbn. lia.
  - rewrite length_app. cbn. lia.
  - rewrite omap_app. cbn. by rewrite Ep, I3, app_nil_r.
  - rewrite length_app. cbn. lia.
Qed.

Lemma run_invariant (schedule : list nat) (st : State T) :
  inv st -> inv (run schedule st).
Proof.
  revert st. induction schedule as [|i later IH]; intros st Hst; [done|].
  cbn. destruct (awaiting st); [done|]. by apply IH, settle_invariant.
Qed.

Lemma spawn_invariant (workers : nat) (st : State T) :
  inv st -> inv (spawn workers st).
Proof.
  intros Hst. induction workers as [|n IH]; [done|]. by apply loop_invariant.
Qed.

Lemma loop_drained (st : State T) : drained (loop st).
Proof.
  unfold drained, WorkerPool.loop. destruct (queue st) eqn:E; [done|].
  cbn. by destruct (awaiting st).
Qed.

Lemma settle_drained (i : nat) (st : State T) : drained st -> drained (settle i st).
Proof.
  intros Hd. unfold WorkerPool.settle.
  destruct (awaiting st !! i); [apply loop_drained|done].
Qed.

Lemma run_drained (schedule : list nat) (st : State T) :
  drained st -> drained (run schedule st).
Proof.
  revert st. induction schedule as [|i later IH]; intros st Hst; [done|].
  cbn. destruct (awaiting st) eqn:E; [done|]. by apply IH, settle_drained.
Qed.

Lemma spawn_drained (workers : nat) :
  (1 <= workers)%nat \/ uris = [] -> drained (spawn workers (@start T uris)).
Proof.
  intros [H| ->].
  - destruct workers as [|n]; [lia|]. apply loop_drained.
  - intros _. assert (spawn workers (@start T []) = start []) as ->; [|done].
    induction workers as [|n IH]; [done|].
    change (spawn (S n) (@start T [])) with (loop (spawn n (@start T []))).
    by rewrite IH.
Qed.

Lemma loop_work (st : State T) : work (loop st) = work st.
Proof.
  unfold work, WorkerPool.loop.
  destruct (queue st) eqn:E; cbn; rewrite ?E, ?length_app; cbn; lia.
Qed.

Lemma settle_work (i : nat) (st : State T) :
  (i < length (awaiting st))%nat -> S (work (settle i st)) = work st.
Proof.
  intros Hi. unfold WorkerPool.settle.
  destruct (lookup_lt_is_Some_2 _ _ Hi) as [uri Eu]. rewrite Eu.
  rewrite loop_work. unfold work.
  destruct (processor uri); cbn; rewrite length_delete by eauto; lia.
Qed.

Lemma spawn_work (workers : nat) (st : State T) :
  work (spawn workers st) = work st.
Proof.
  induction workers as [|n IH]; [done|]. cbn. by rewrite loop_work.
Qed.

Lemma run_finishes (schedule : list nat) (st : State T) :
  drained st -> (work st <= length schedule)%nat ->
  awaiting (run schedule st) = [].
Proof.
  revert st. induction schedule as [|i later IH]; intros st Hd Hw.
  - cbn in *. unfold work in Hw. by destruct (awaiting st); [|cbn in Hw; lia].
  - cbn. destruct (awaiting st) as [|u us] eqn:E; [done|].
    apply IH; [by apply settle_drained|].
    assert (i mod length (u :: us) < length (awaiting st))%nat as Hi.
    { rewrite E. apply Nat.mod_upper_bound. done. }
    pose proof (settle_work _ _ Hi). cbn in Hw. lia.
Qed.

(** Never more calls in progress than workers were spawned. *)
Lemma loop_awaiting (st : State T) :
  (length (awaiting (loop st)) <= S (length (awaiting st)))%nat.
Proof.
  unfold WorkerPool.loop. destruct (queue st); cbn; rewrite ?length_app; cbn; lia.
Qed.

Lemma settle_awaiting (i : nat) (st : State T) :
  (length (awaiting (settle i st)) <= length (awaiting st))%nat.
Proof.
  unfold WorkerPool.settle. destruct (awaiting st !! i) as [uri|] eqn:E; [|done].
  etrans; [apply loop_awaiting|].
  destruct (processor uri); cbn; rewrite length_delete by eauto;
    apply lookup_lt_Some in E; lia.
Qed.

Lemma run_awaiting (schedule : list nat) (st : State T) :
  (length (awaiting (run schedule st)) <= length (awaiting st))%nat.
Proof.
  revert st. induction schedule as [|i later IH]; intros st; [done|].
  cbn. destruct (awaiting st) eqn:E; [by rewrite E|].
  etrans; [apply IH|]. rewrite <- E. apply settle_awaiting.
Qed.

Lemma spawn_awaiting (workers : nat) :
  (length (awaiting (spawn workers (@start T uris))) <= workers)%nat.
Proof.
  induction workers as [|n IH]; [done|].
  change (spawn (S n) (@start T uris)) with (loop (spawn n (@start T uris))).
  etrans; [apply loop_awaiting|]. lia.
Qed.

Lemma loop_in_order (st : State T) : in_order st -> in_order (loop st).
Proof.
  unfold in_order, WorkerPool.loop. intros H.
  destruct (queue st); [exact H|]. cbn.
  rewrite started_app, settled_app, H. cbn. by rewrite ?app_nil_r, <- ?app_assoc.
Qed.

Lemma settle_in_order (st : State T) : in_order st -> in_order (settle 0 st).
Proof.
  intros H. unfold WorkerPool.settle.
  destruct (awaiting st) as [|uri rest] eqn:E; cbn [lookup list_lookup]; [done|].
  apply loop_in_order. unfold in_order in *. rewrite E in H.
  pose proof (progress_counts uri st) as (Hs1 & Hs2 & _).
  destruct (processor uri); cbn [events awaiting delete list_delete];
    rewrite ?Hs1, ?Hs2, ?started_app, ?settled_app, H; cbn;
    by rewrite ?app_nil_r, <- ?app_assoc.
Qed.

Lemma spawn_in_order (workers : nat) : in_order (spawn workers (@start T uris)).
Proof.
  induction workers as [|n IH]; [done|].
  change (spawn (S n) (@start T uris)) with (loop (spawn n (@start T uris))).
  by apply loop_in_order.
Qed.

(** A schedule that always lets the oldest call settle first. *)
Lemma run_in_order (schedule : list nat) (st : State T) :
  (forall i, i ∈ schedule -> i = 0%nat) \/ (length (awaiting st) <= 1)%nat ->
  in_order st -> in_order (run schedule st).
Proof.
  revert st. induction schedule as [|i later IH]; intros st Hs Hst; [done|].
  cbn [WorkerPool.run]. destruct (awaiting st) as [|u us] eqn:E; [done|].
  assert (i mod length (u :: us) = 0)%nat as ->.
  { destruct Hs as [Hs|Hs].
    - rewrite (Hs i) by left. apply Nat.Div0.mod_0_l.
    - destruct us; [|cbn in Hs; lia]. apply Nat.mod_1_r. }
  apply IH; [|by apply settle_in_order].
  destruct Hs as [Hs|Hs]; [left; intros j Hj; apply Hs; by right|right].
  etrans; [apply settle_awaiting|by rewrite E].
Qed.

(** Once every call has settled: the run is over, and every file was
    started once, in the order of the list. *)
Lemma run_complete (workers : nat) (schedule : list nat) :
  (1 <= workers)%nat \/ uris = [] ->
  (length uris <= length schedule)%nat ->
  let st := run schedule (spawn workers (@start T uris)) in
  awaiting st = [] /\ queue st = [] /\ inv st.
Proof.
  intros Hw Hlen st.
  assert (awaiting st = []) as Ha.
  { apply run_finishes; [by apply spawn_drained|].
    rewrite spawn_work. unfold work. cbn. lia. }
  split; [done|]. split.
  - by apply (run_drained schedule _ (spawn_drained workers Hw)).
  - apply run_invariant, spawn_invariant, start_invariant.
Qed.

End Invariant.

Lemma workers_spawned (uris : list jsstring) (batchSize : Z) :
  1 <= batchSize ->
  (1 <= Z.to_nat (Z.min batchSize (Z.of_nat (length uris))))%nat \/ uris = [].
Proof. intros H. destruct uris; [by right|left]. cbn [length]. lia. Qed.

Lemma failed_updates_none (set_html : Panel) (n : nat) :
  (forall p, set_html p = None) -> failed_updates (Some set_html) n = 0%nat.
Proof.
  intros Hopen. unfold failed_updates. induction n as [|n IH]; [done|].
  rewrite seq_S, filter_app, length_app, IH. cbn.
  rewrite decide_False; [done|]. rewrite Hopen. by intros [? ?].
Qed.

Lemma failed_updates_all (set_html : Panel) (n : nat) :
  (forall p, is_Some (set_html p)) -> failed_updates (Some set_html) n = n.
Proof.
  intros Hclosed. unfold failed_updates. induction n as [|n IH]; [done|].
  rewrite seq_S, filter_app, length_app, IH. cbn.
  rewrite decide_True by done. cbn. lia.
Qed.

(** X1.  With a batch size of at least one, and once every call has settled:
    [processFilesConcurrently] returns; the processor was called once for
    every file, in the order of the list; the results are the values of the
    calls that were fulfilled, in the order the calls settled, so a
    permutation of those values taken in the order of the list.  part_004's
    counter [processed] is the number of results.  Its counter [errors]
    counts the rejected calls and the progress updates that threw: a file
    whose call was fulfilled and whose update threw (the panel was closed)
    is counted in both.  So the two counters add up to the number of files
    plus the number of updates that threw: to the number of files when there
    is no panel or every update went through, and [errors] alone is the
    number of files when every update threw. *)
Theorem processFilesConcurrently_each_file_once {T : Type}
    (processor : jsstring -> Res T) (uris : list jsstring) (batchSize : Z)
    (panel : option Panel) (schedule : list nat) :
  1 <= batchSize -> (length uris <= length schedule)%nat ->
  let value := fun uri => fulfilled (processor uri) in
  let each_file_once := fun st : State T =>
    started (events st) = uris /\
    settled (events st) ≡ₚ uris /\
    returned st = Some (omap value (settled (events st))) /\
    results st ≡ₚ omap value uris in
  each_file_once (Ext_processFilesConcurrently processor uris batchSize schedule) /\
  exists st,
    P4_processFilesConcurrently processor uris batchSize panel schedule = Ok st /\
    each_file_once st /\
    processed st = length (omap value uris) /\
    (processed st + errors st)%nat =
      (length uris + failed_updates panel (processed st))%nat /\
    ((forall set_html p, panel = Some set_html -> set_html p = None) ->
     (processed st + errors st)%nat = length uris) /\
    (forall set_html,
       panel = Some set_html -> (forall p, is_Some (set_html p)) ->
       errors st = length uris).
Proof.
  intros Hb Hlen value each_file_once.
  assert (forall panel,
    let st := run processor (length uris) panel schedule
      (spawn (Z.to_nat (Z.min batchSize (Z.of_nat (length uris)))) (start uris)) in
    each_file_once st /\
    processed st = length (omap value uris) /\
    (processed st + errors st)%nat =
      (length uris + failed_updates panel (processed st))%nat)
    as Hrun.
  { intros p.
    destruct (run_complete processor (length uris) p uris _ schedule
                (workers_spawned uris batchSize Hb) Hlen)
      as (Ha & Hq & I1 & I2 & I3 & I4 & I5).
    rewrite Hq, app_nil_r in I1. rewrite Ha, app_nil_r, I1 in I2.
    assert (length (settled (events (run processor (length uris) p schedule
              (spawn (Z.to_nat (Z.min batchSize (Z.of_nat (length uris))))
                 (start uris))))) = length uris) as Hsettled
      by (symmetry; by apply Permutation_length).
    cbv zeta. unfold each_file_once, returned. rewrite Ha.
    split; [|split].
    - split; [exact I1|]. split; [by symmetry|]. split; [by rewrite I3|].
      rewrite I3. by f_equiv.
    - rewrite I4, I3. apply Permutation_length. by f_equiv.
    - by rewrite I5, Hsettled. }
  split; [apply Hrun|].
  unfold P4_processFilesConcurrently.
  destruct (Z.ltb_spec (Z.min batchSize (Z.of_nat (length uris))) 0); [lia|].
  eexists. split; [reflexivity|].
  destruct (Hrun panel) as (Heach & Hprocessed & Hcount).
  split; [exact Heach|]. split; [exact Hprocessed|]. split; [exact Hcount|].
  split.
  - intros Hopen. rewrite Hcount. destruct panel as [set_html|]; [|cbn; lia].
    rewrite failed_updates_none; [lia|]. intros p. by apply Hopen.
  - intros set_html -> Hclosed. rewrite failed_updates_all in Hcount by done.
    lia.
Qed.

(** X2.  The results come in the order of the list when only one call is in
    progress at a time (a batch size of one), and when the calls settle in
    the order they were started.  Otherwise they need not: of two files
    processed by two workers, the one that settles first comes first. *)
Theorem processFilesConcurrently_order_of_results {T : Type}
    (processor : jsstring -> Res T) (uris : list jsstring) (batchSize : Z)
    (panel : option Panel) (schedule : list nat) :
  1 <= batchSize -> (length uris <= length schedule)%nat ->
  batchSize = 1 \/ (forall i, i ∈ schedule -> i = 0%nat) ->
  let value := fun uri => fulfilled (processor uri) in
  returned (Ext_processFilesConcurrently processor uris batchSize schedule) =
    Some (omap value uris) /\
  (exists st,
     P4_processFilesConcurrently processor uris batchSize panel schedule = Ok st /\
     returned st = Some (omap value uris)) /\
  (forall a b,
     results (Ext_processFilesConcurrently processor [a; b] 2 [1; 0]%nat) =
       omap value [b; a]).
Proof.
  intros Hb Hlen Hs value.
  assert (forall p,
    returned (run processor (length uris) p schedule
      (spawn (Z.to_nat (Z.min batchSize (Z.of_nat (length uris)))) (start uris))) =
      Some (omap value uris)) as Hord.
  { intros p.
    set (workers := Z.to_nat (Z.min batchSize (Z.of_nat (length uris)))).
    destruct (run_complete processor (length uris) p uris workers schedule
                (workers_spawned uris batchSize Hb) Hlen)
      as (Ha & Hq & I1 & I2 & I3 & I4 & I5).
    assert (in_order (run processor (length uris) p schedule
                        (spawn workers (start uris)))) as Ho.
    { apply run_in_order; [|apply spawn_in_order].
      destruct Hs as [->|Hs]; [right|by left].
      etrans; [apply spawn_awaiting|]. subst workers. lia. }
    unfold in_order in Ho. rewrite Ha, app_nil_r in Ho.
    rewrite Hq, app_nil_r in I1.
    unfold returned. rewrite Ha, I3, <- Ho, I1. done. }
  split; [apply Hord|]. split.
  - unfold P4_processFilesConcurrently.
    destruct (Z.ltb_spec (Z.min batchSize (Z.of_nat (length uris))) 0); [lia|].
    eexists; split; [reflexivity|apply Hord].
  - intros a b. subst value. unfold Ext_processFilesConcurrently.
    change (Z.to_nat (Z.min 2 (Z.of_nat (length [a; b])))) with 2%nat.
    destruct (processor b) eqn:Eb, (processor a) eqn:Ea;
      cbn; rewrite ?Eb; cbn; rewrite ?Ea; cbn; rewrite ?Ea, ?Eb; reflexivity.
Qed.

(** X3.  Never more calls in progress than the batch size, nor than there are
    files, whatever the order in which they settle. *)
Theorem processFilesConcurrently_calls_in_progress {T : Type}
    (processor : jsstring -> Res T) (uris : list jsstring) (batchSize : Z)
    (panel : option Panel) (schedule : list nat) :
  let bounded := fun st : State T =>
    Z.of_nat (length (awaiting st)) <= Z.max 0 batchSize /\
    (length (awaiting st) <= length uris)%nat in
  bounded (Ext_processFilesConcurrently processor uris batchSize schedule) /\
  match P4_processFilesConcurrently processor uris batchSize panel schedule with
  | Ok st => bounded st
  | Throw _ => batchSize < 0
  end.
Proof.
  intros bounded.
  assert (forall panel workers, (workers <= length uris)%nat ->
    Z.of_nat workers <= Z.max 0 batchSize ->
    bounded (run processor (length uris) panel schedule
               (spawn workers (start uris)))) as Hrun.
  { intros p workers H1 H2.
    pose proof (run_awaiting processor (length uris) p schedule
                  (spawn workers (start uris))) as Hr.
    pose proof (spawn_awaiting (T:=T) uris workers) as Hs.
    unfold bounded. lia. }
  split; [apply Hrun; lia|].
  unfold P4_processFilesConcurrently.
  destruct (Z.ltb_spec (Z.min batchSize (Z.of_nat (length uris))) 0); [lia|].
  apply Hrun; lia.
Qed.

(** X4.  A batch size of zero or less processes nothing: extension.ts returns
    the empty list for any list of files without calling the processor once;
    part_004 does the same for zero and throws for a negative size. *)
Theorem processFilesConcurrently_no_workers {T : Type}
    (processor : jsstring -> Res T) (uris : list jsstring) (batchSize : Z)
    (panel : option Panel) (schedule : list nat) :
  batchSize <= 0 ->
  let st := Ext_processFilesConcurrently processor uris batchSize schedule in
  returned st = Some [] /\ events st = [] /\ queue st = uris /\
  P4_processFilesConcurrently processor uris batchSize panel schedule =
    if batchSize <? 0 then Throw (mkError (js "Invalid array length"))
    else Ok (start uris).
Proof.
  intros Hb st. subst st.
  assert (forall p, run processor (length uris) p schedule (@start T uris) = start uris)
    as Hrun by (intros p; by destruct schedule).
  unfold Ext_processFilesConcurrently, P4_processFilesConcurrently.
  replace (Z.to_nat (Z.min batchSize (Z.of_nat (length uris)))) with 0%nat by lia.
  cbn [spawn Nat.iter]. rewrite Hrun. repeat split.
  destruct (Z.ltb_spec batchSize 0) as [Hneg|Hz].
  - by destruct (Z.ltb_spec (Z.min batchSize (Z.of_nat (length uris))) 0); [|lia].
  - assert (batchSize = 0) as -> by lia.
    replace (Z.min 0 (Z.of_nat (length uris))) with 0 by lia.
    cbn. by rewrite Hrun.
Qed.

(** Three files and two workers; the second file fails, and settles first.
    With a panel that was closed, the two files that were reviewed count as
    errors too. *)
Lemma processFilesConcurrently_each_file_once_witness :
  exists st,
    P4_processFilesConcurrently lengthUnlessB threeFiles 2 (Some closedPanel)
      [1; 0; 0]%nat = Ok st /\
    started (events st) = threeFiles /\
    results st ≡ₚ [7; 7]%nat /\
    processed st = 2%nat /\ errors st = 3%nat.
Proof.
  destruct (processFilesConcurrently_each_file_once lengthUnlessB threeFiles 2
              (Some closedPanel) [1; 0; 0]%nat)
    as [_ (st & Hst & (H1 & _ & _ & H4) & Hprocessed & _ & _ & Herrors)];
    [lia|cbn; lia|].
  exists st. split; [exact Hst|]. split; [exact H1|]. split; [exact H4|].
  split; [exact Hprocessed|]. by apply (Herrors closedPanel).
Defined.

(** The same three files, one worker. *)
Lemma processFilesConcurrently_order_of_results_witness :
  returned (Ext_processFilesConcurrently lengthUnlessB threeFiles 1
              [5; 3; 1]%nat) = Some [7; 7]%nat.
Proof.
  destruct (processFilesConcurrently_order_of_results lengthUnlessB threeFiles 1
              None [5; 3; 1]%nat) as [H _]; [lia|cbn; lia|by left|exact H].
Defined.

(** The same three files, a batch size of zero. *)
Lemma processFilesConcurrently_no_workers_witness :
  returned (Ext_processFilesConcurrently lengthUnlessB threeFiles 0 [0]%nat)
    = Some [] /\
  P4_processFilesConcurrently lengthUnlessB threeFiles (-1) (Some openPanel) [0]%nat
    = Throw (mkError (js "Invalid array length")).
Proof.
  split.
  - destruct (processFilesConcurrently_no_workers lengthUnlessB threeFiles 0
                (Some openPanel) [0]%nat) as [H _]; [lia|exact H].
  - destruct (processFilesConcurrently_no_workers lengthUnlessB threeFiles (-1)
                (Some openPanel) [0]%nat) as (_ & _ & _ & H); [lia|exact H].
Defined.

End WorkerPoolFacts.

(** ** The request of extension.ts *)

Module ExtBackendFacts.
Import RetryDispatcher BackendAdapter ExtBackend.

(** X5.  [getLLMResponse] of extension.ts sends at most one request and never
    retries: none at all without a token, which fails with a fixed message;
    otherwise exactly one, to [flowiseUrl/apiToken], carrying the history and
    the prompt.  What it returns is never the empty string, and every error
    that leaves it starts with [Failed to fetch LLM response: ]. *)
Theorem Ext_getLLMResponse_one_request
    (sanitizeHtml : Value -> Res jsstring) (post : Request -> PostOutcome)
    (flowiseUrl apiToken : jsstring) (apiTimeout : Z)
    (prompt : jsstring) (chatHistory : list ChatMessage) :
  let run :=
    Ext_getLLMResponse sanitizeHtml post flowiseUrl apiToken apiTimeout
      prompt chatHistory in
  (apiToken = [] ->
     run = (Throw (mkError (js "Failed to fetch LLM response: Flowise API token (flow ID) is required")), [])) /\
  (apiToken <> [] ->
     run.2 = [{| url := flowiseUrl ++ js "/" ++ apiToken;
                 question := conversation chatHistory prompt;
                 timeout := apiTimeout |}]) /\
  (forall answer, run.1 = Ok answer -> answer <> []) /\
  (forall error, run.1 = Throw error ->
     exists why, message error = js "Failed to fetch LLM response: " ++ why).
Proof.
  intros run. subst run. unfold Ext_getLLMResponse.
  destruct apiToken as [|c token]; repeat split; try done.
  - intros error [= <-]. eauto.
  - cbn. intros answer.
    destruct (post _) as [data|statusText msg|err]; [|done..].
    destruct (get data "text") as [text|]; [|done].
    destruct (sanitizeHtml _) as [[|d sanitized]|]; [| |done]; by intros [= <-].
  - cbn. intros error. unfold failed.
    destruct (post _) as [data|statusText msg|err].
    + destruct (get data "text") as [text|]; [|intros [= <-]; eauto].
      destruct (sanitizeHtml _); [done|intros [= <-]; eauto].
    + intros [= <-]. eauto.
    + intros [= <-]. eauto.
Qed.

End ExtBackendFacts.

(** ** The chat panel *)

Module ChatSessionFacts.
Import RetryDispatcher ChatSession.

Lemma recordExchange_kept (limit : Z) (chatHistory : list ChatMessage)
    (userText response : jsstring) (t1 t2 : Z) :
  let pushed :=
    chatHistory ++
    [{| role := user; content := userText; timestamp := t1 |};
     {| role := assistant; content := response; timestamp := t2 |}] in
  recordExchange limit chatHistory userText response t1 t2 =
    if limit <? 1 then drop (Z.to_nat (- limit)) pushed
    else drop (length pushed - Z.to_nat limit) pushed.
Proof.
  intros pushed. unfold recordExchange. fold pushed.
  assert (2 <= length pushed)%nat as Hlen
    by (subst pushed; rewrite length_app; cbn; lia).
  unfold JsString.slice_from.
  destruct (Z.ltb_spec limit 1) as [H0|H1].
  - destruct (Z.ltb_spec limit (Z.of_nat (length pushed))); [|lia].
    destruct (Z.ltb_spec (- limit) 0); [lia|].
    destruct (Z.le_ge_cases (- limit) (Z.of_nat (length pushed))) as [Hle|Hge].
    + by rewrite Z.min_l.
    + rewrite Z.min_r by done. rewrite Nat2Z.id.
      rewrite !drop_ge; [done|lia..].
  - destruct (Z.ltb_spec limit (Z.of_nat (length pushed))) as [Hlt|Hge].
    + destruct (Z.ltb_spec (- limit) 0); [|lia]. f_equal. lia.
    + replace (length pushed - Z.to_nat limit)%nat with 0%nat by lia. done.
Qed.

Lemma recordExchange_length (limit : Z) (chatHistory : list ChatMessage)
    (userText response : jsstring) (t1 t2 : Z) :
  1 <= limit ->
  Z.of_nat (length (recordExchange limit chatHistory userText response t1 t2))
    <= limit.
Proof.
  intros H. rewrite recordExchange_kept.
  destruct (Z.ltb_spec limit 1); [lia|]. rewrite length_drop. lia.
Qed.

Section Handlers.
Variable unicodeLower : jsstring -> jsstring.

(** One message never makes the history longer than the limit allows, unless
    it was longer before. *)
Lemma Ext_onDidReceiveMessage_length (limit : Z) (env : Env) (message : Message)
    (chatHistory : list ChatMessage) :
  1 <= limit ->
  Z.of_nat (length (Ext_onDidReceiveMessage unicodeLower limit env message chatHistory).1)
    <= Z.max limit (Z.of_nat (length chatHistory)).
Proof.
  intros H. unfold Ext_onDidReceiveMessage.
  repeat case_bool_decide; repeat case_match; cbn [fst]; try lia;
  match goal with
  | |- context [recordExchange ?l ?h ?u ?r ?a ?b] =>
      pose proof (recordExchange_length l h u r a b H); lia
  end.
Qed.

Lemma P4_onDidReceiveMessage_length (limit : Z) (env : Env) (message : Message)
    (chatHistory : list ChatMessage) :
  1 <= limit ->
  Z.of_nat (length (P4_onDidReceiveMessage unicodeLower limit env message chatHistory).1)
    <= Z.max limit (Z.of_nat (length chatHistory)).
Proof.
  intros H. unfold P4_onDidReceiveMessage.
  repeat case_bool_decide; repeat case_match; cbn [fst length negb]; try lia;
  match goal with
  | |- context [recordExchange ?l ?h ?u ?r ?a ?b] =>
      pose proof (recordExchange_length l h u r a b H); lia
  end.
Qed.

Lemma session_length
    (handler : Env -> Message -> list ChatMessage -> list ChatMessage * list Event)
    (limit : Z) (steps : list (Env * Message)) (chatHistory : list ChatMessage) :
  (forall env message history,
     Z.of_nat (length (handler env message history).1)
       <= Z.max limit (Z.of_nat (length history))) ->
  Z.of_nat (length chatHistory) <= limit ->
  Z.of_nat (length (session handler steps chatHistory).1) <= limit.
Proof.
  intros Hh. unfold session. generalize (@nil Event).
  revert chatHistory. induction steps as [|[env message] steps IH];
    intros chatHistory evs H0; [done|].
  cbn [foldl]. specialize (Hh env message chatHistory).
  destruct (handler env message chatHistory) as [history' events'].
  apply IH. cbn [fst] in Hh. lia.
Qed.

End Handlers.

(** X6.  With a history limit of at least one, a chat history that is within the
    limit stays within it, whatever messages the panel receives and however
    the backend answers them: in both revisions. *)
Theorem chat_history_stays_within_limit
    (unicodeLower : jsstring -> jsstring) (limit : Z)
    (steps : list (Env * Message)) (chatHistory : list ChatMessage) :
  1 <= limit ->
  Z.of_nat (length chatHistory) <= limit ->
  Z.of_nat (length (session (Ext_onDidReceiveMessage unicodeLower limit)
                      steps chatHistory).1) <= limit /\
  Z.of_nat (length (session (P4_onDidReceiveMessage unicodeLower limit)
                      steps chatHistory).1) <= limit.
Proof.
  intros H1 H0. split; apply session_length; try done.
  - intros. by apply Ext_onDidReceiveMessage_length.
  - intros. by apply P4_onDidReceiveMessage_length.
Qed.

(** Three questions under a limit of four messages. *)
Lemma chat_history_stays_within_limit_witness :
  Z.of_nat (length (session (Ext_onDidReceiveMessage id 4)
    [(answering, say "one"); (answering, say "two"); (answering, say "three")]
    []).1) <= 4.
Proof.
  destruct (chat_history_stays_within_limit id 4
    [(answering, say "one"); (answering, say "two"); (answering, say "three")]
    []) as [H _]; [lia|cbn; lia|exact H].
Defined.

(** X7.  What the history holds after an exchange: with a limit of at least one,
    the newest [limit] messages of the old history followed by the question
    and the answer; with a limit of zero, all of them (nothing is ever
    dropped); with a negative limit [-k], all but the oldest [k]. *)
Theorem recordExchange_keeps_the_newest (limit : Z)
    (chatHistory : list ChatMessage) (userText response : jsstring)
    (t1 t2 : Z) :
  let pushed :=
    chatHistory ++
    [{| role := user; content := userText; timestamp := t1 |};
     {| role := assistant; content := response; timestamp := t2 |}] in
  let kept := recordExchange limit chatHistory userText response t1 t2 in
  kept `suffix_of` pushed /\
  Z.of_nat (length kept) =
    (if limit <? 1 then Z.max 0 (Z.of_nat (length pushed) + limit)
     else Z.min limit (Z.of_nat (length pushed))) /\
  (recordExchange 0 chatHistory userText response t1 t2 = pushed).
Proof.
  intros pushed kept. subst kept. rewrite !recordExchange_kept. fold pushed.
  change (0 <? 1) with true. cbn [Z.opp Z.to_nat drop].
  split; [|split; [|done]].
  - destruct (limit <? 1); apply suffix_drop.
  - destruct (Z.ltb_spec limit 1); rewrite length_drop; lia.
Qed.

Lemma asked_posts (texts : list jsstring) : asked (EvPost <$> texts) = [].
Proof. by induction texts. Qed.

Lemma validCommands_lower (unicodeLower : jsstring -> jsstring) (cmd : jsstring) :
  cmd ∈ validCommands -> JsString.toLowerCase unicodeLower cmd = cmd.
Proof.
  revert cmd. apply Forall_forall. unfold validCommands, commands.
  repeat (apply Forall_cons; split; [reflexivity|]). apply Forall_nil_2.
Qed.

(** X8.  In part_004 a message that, trimmed and in lower case, is a command or
    occurs inside the name of a command is never put to the backend as a chat
    question: it is run as the command, or answered with the list of the
    commands that hold it.  The history is left as it was or, for
    [clear history], emptied.  So the words [code], [file] or [review], and
    the empty message, cannot be asked. *)
Theorem P4_chat_command_fragment_not_asked
    (unicodeLower : jsstring -> jsstring) (limit : Z) (env : Env)
    (message : Message) (chatHistory : list ChatMessage) (cmd : jsstring) :
  cmd ∈ validCommands ->
  JsString.includes
    (JsString.toLowerCase unicodeLower (ReviewParser.trim (text message)))
    cmd = true ->
  let run := P4_onDidReceiveMessage unicodeLower limit env message chatHistory in
  asked run.2 = [] /\ (run.1 = chatHistory \/ run.1 = []).
Proof.
  intros Hcmd Hinc run. subst run. unfold P4_onDidReceiveMessage.
  set (userMessage := JsString.toLowerCase unicodeLower _) in *.
  destruct (bool_decide (command message = js "sendMessage")); cbn [negb]; [|by auto].
  destruct (in_commands userMessage).
  - repeat case_bool_decide; cbn [fst snd]; auto.
    + split; [|by left]. unfold asked. rewrite omap_app.
      fold (asked (EvPost <$> (reviewFile env).1)). rewrite asked_posts.
      by destruct (reviewFile env).2.
    + destruct (executeCommand env _); auto.
  - assert (cmd ∈ similarCommands unicodeLower userMessage) as Hsim.
    { unfold similarCommands. apply list_elem_of_filter. split; [|done].
      by rewrite validCommands_lower. }
    destruct (similarCommands unicodeLower userMessage); [by inversion Hsim|].
    cbn. auto.
Qed.

(** The question [code], which occurs in [explain code]. *)
Lemma P4_chat_command_fragment_not_asked_witness :
  asked (P4_onDidReceiveMessage id 100 answering (say "code") []).2 = [].
Proof.
  destruct (P4_chat_command_fragment_not_asked id 100 answering (say "code") []
              (js "explain code")) as [H _]; [|by vm_compute|exact H].
  unfold validCommands, commands. cbn. do 5 right. left.
Defined.

End ChatSessionFacts.

(** ** Diagnostics *)

Module DiagnosticsFacts.
Import ReviewParser Diagnostics.

Lemma lower_ascii_space (s : jsstring) :
  32%N ∈ s -> 32%N ∈ JsString.lower_ascii <$> s.
Proof. intros H. by apply (list_elem_of_fmap_2 JsString.lower_ascii) in H. Qed.

Lemma word_ascii (c : N) : is_word c = true -> JsString.is_ascii c = true.
Proof.
  intros H. class_arith H. unfold JsString.is_ascii. apply N.ltb_lt. lia.
Qed.

(** The severity of an extracted issue, in lower case, still holds the
    space the pattern captured. *)
Lemma severity_lower_space (unicodeLower : jsstring -> jsstring)
    (review : jsstring) (issue : Issue) :
  issue ∈ parseIssues review ->
  32%N ∈ JsString.toLowerCase unicodeLower (ReviewParser.severity issue).
Proof.
  intros (s' & r & H)%IssueFacts.matchAll_go_elem.
  rewrite IssueFacts.issue_re_direct in H.
  apply IssueFacts.issue_direct_Some in H
    as (ds & w & msg & _ & -> & _ & _ & _ & Hw & _).
  cbn [ReviewParser.severity issue_of]. unfold JsString.toLowerCase.
  assert (forallb JsString.is_ascii (w ++ js " severity") = true) as ->.
  { rewrite forallb_app. apply andb_true_iff. split; [|reflexivity].
    apply forallb_forall. intros c Hc. apply word_ascii.
    by eapply forallb_forall in Hw. }
  apply lower_ascii_space, elem_of_app. right. by left.
Qed.

Lemma severityMap_get_space (key : jsstring) :
  32%N ∈ key -> severityMap_get key = None.
Proof.
  intros Hsp. unfold severityMap_get.
  assert (forall k, 32%N ∉ k -> key <> k) as Hne by (intros k Hk ->; done).
  assert (forall k : string, bool_decide (32%N ∉ js k) = true -> key <> js k) as Hne'.
  { intros k Hk. apply Hne. by apply bool_decide_eq_true in Hk. }
  destruct (list_find _ _) as [[i [k sev]]|] eqn:E.
  - apply list_find_Some in E as (Hin & Hk & _). cbn in Hk. subst k.
    apply list_elem_of_lookup_2 in Hin. unfold severityMap in Hin.
    repeat (apply elem_of_cons in Hin as [[= Hin _]|Hin];
            [by apply Hne' in Hin|]).
    by apply elem_of_nil in Hin.
  - rewrite bool_decide_eq_false_2; [done|].
    unfold JsString.objectPrototypeKeys. intros Hin.
    repeat (apply elem_of_cons in Hin as [Hin|Hin];
            [by apply Hne' in Hin|]).
    by apply elem_of_nil in Hin.
Qed.

(** X9.  Every diagnostic the real-time handler builds from an issue of a reply
    has the severity Information, whatever severity the reply gave: the
    stored severity ends in [ severity], which is no key of [severityMap].
    Its line lies inside the text of the file, and its end column is the
    length of that line.  [reviewFile] itself marks [High severity] as an
    error; the real-time handler marks it as information. *)
Theorem realtime_diagnostics_are_information
    (unicodeLower : jsstring -> jsstring) (content review : jsstring)
    (issue : Issue) :
  issue ∈ parseIssues review ->
  let d := RT_diagnostic unicodeLower content issue in
  Diagnostics.severity d = Own SevInformation /\
  0 <= startLine d < Z.of_nat (length (lines content)) /\
  (exists text, lines content !! Z.to_nat (startLine d) = Some text /\
                endCharacter d = Z.of_nat (length text)) /\
  P4_reviewSeverity unicodeLower (js "High severity") = SevError /\
  RT_severity unicodeLower (js "High severity") = Own SevInformation.
Proof.
  intros Hin d. subst d. unfold RT_diagnostic.
  cbn [Diagnostics.severity startLine endCharacter].
  assert (1 <= length (lines content))%nat as Hlen.
  { destruct content as [|c s]; cbn [lines]; [cbn; lia|].
    destruct (c =? newline)%N; [cbn; lia|]. destruct (lines s); cbn; lia. }
  match goal with
  | |- context [Z.max 0 ?clamped] => set (lineIndex := Z.max 0 clamped)
  end.
  assert (0 <= lineIndex < Z.of_nat (length (lines content))) as Hidx
    by (subst lineIndex; destruct (minus_one (line issue)); lia).
  split; [|split; [done|split; [|done]]].
  - unfold RT_severity.
    by rewrite (severityMap_get_space _ (severity_lower_space _ _ _ Hin)).
  - match goal with
    | |- context [?l !! Z.to_nat lineIndex] =>
        destruct (l !! Z.to_nat lineIndex) as [text|] eqn:Et
    end; [by exists text|].
    apply lookup_ge_None in Et. unfold jsstring in *. lia.
Qed.

(** The issue of the reply [Line 3: High severity - leak], in a file of
    two lines. *)
Lemma realtime_diagnostics_are_information_witness :
  let issue := {| line := Finite 3; ReviewParser.message := js "leak";
                  ReviewParser.severity := js "High severity" |} in
  Diagnostics.severity (RT_diagnostic id (js "a" ++ [newline] ++ js "b") issue)
    = Own SevInformation.
Proof.
  intros issue.
  destruct (realtime_diagnostics_are_information id
              (js "a" ++ [newline] ++ js "b")
              (js "Line 3: High severity - leak") issue) as [H _]; [|exact H].
  assert (parseIssues (js "Line 3: High severity - leak") = [issue]) as ->
    by (by vm_compute).
  apply list_elem_of_here.
Defined.

End DiagnosticsFacts.

(** ** The severity tag of an issue and the consumers that read it *)

Module SeverityFacts.
Import ReviewParser Diagnostics.

(** C9.  The severity stored on an issue is not normalized: [reviewFile]
    stores the text captured by the second group of the pattern, so the
    reply [Line 3: High severity - leak] yields the severity
    [High severity], and no issue of any reply carries one of the tags
    High, Medium, Low, Info.  The real-time handler of the same file reads
    the field as if it were normalized: it looks the lower-cased severity up
    in [severityMap], whose keys are the bare tags.  On the tags High,
    Medium, Low and Info the lookup gives Error, Warning, Information and
    Information; on the stored [High severity] and [Medium severity] it
    finds nothing and falls back to Information, where [reviewFile]'s own
    mapping of the same stored text gives Error and Warning. *)
Theorem issue_severity_is_stored_unnormalized
    (unicodeLower : jsstring -> jsstring) :
  parseIssues (js "Line 3: High severity - leak")
    = [{| line := Finite 3; ReviewParser.message := js "leak";
          ReviewParser.severity := js "High severity" |}] /\
  (js "High severity" ∉ normalizedSeverities) /\
  (forall review issue,
     issue ∈ parseIssues review ->
     (ReviewParser.severity issue ∉ normalizedSeverities) /\
     RT_severity unicodeLower (ReviewParser.severity issue)
       = Own SevInformation) /\
  (RT_severity unicodeLower <$> normalizedSeverities)
    = [Own SevError; Own SevWarning; Own SevInformation; Own SevInformation] /\
  RT_severity unicodeLower (js "High severity") = Own SevInformation /\
  RT_severity unicodeLower (js "Medium severity") = Own SevInformation /\
  P4_reviewSeverity unicodeLower (js "High severity") = SevError /\
  P4_reviewSeverity unicodeLower (js "Medium severity") = SevWarning.
Proof.
  split; [by vm_compute|].
  split; [by apply (bool_decide_eq_false_1 _); vm_compute|].
  split; [|by vm_compute].
  intros review issue Hin. split.
  - by apply (IssueFacts.parseIssues_severity_is_raw_capture review).
  - unfold RT_severity.
    by rewrite (DiagnosticsFacts.severityMap_get_space _
                  (DiagnosticsFacts.severity_lower_space _ _ _ Hin)).
Qed.

End SeverityFacts.

(** ** Real-time code access *)

Module RealTimeFacts.
Import ContentLoader RealTime.

Section Manager.
Variable decode : list N -> jsstring.
Variable asRelativePath : jsstring -> jsstring.
Variable maxFileSize : Z.

Local Abbreviation refresh := (refresh decode asRelativePath maxFileSize).

(** After a successful refresh both maps hold the same text for the file. *)
Lemma refresh_Ok (fs : FileSystem) (uri : jsstring) (m : Manager) :
  (refresh fs uri m).1 = Ok tt ->
  exists content,
    projectContext (refresh fs uri m).2 !! asRelativePath uri = Some content /\
    fileCache (refresh fs uri m).2 !! uri = Some content.
Proof.
  unfold RealTime.refresh, P4_readFileContent.
  destruct (stat_size fs uri) as [size|]; [|done].
  destruct (maxFileSize <? size); [done|]. cbn [mbind option_bind].
  destruct (fileCache m !! uri) as [cached|] eqn:Ec.
  - intros _. exists cached. cbn. by rewrite lookup_insert_eq.
  - destruct (readFile fs uri) as [bytes|]; [|done].
    intros _. exists (decode bytes). cbn. by rewrite !lookup_insert_eq.
Qed.

End Manager.

(** X10.  Once the manager has read a file, a later create or change event for it
    leaves the manager exactly as it was, whatever the file holds by then (as
    long as its size stays within the limit): [readFileContent] answers from
    [fileCache] without reading the file, so the project context keeps the
    first text.  Only a delete event for the file makes the next event read
    it again. *)
Theorem projectContext_keeps_first_text
    (decode : list N -> jsstring) (asRelativePath : jsstring -> jsstring)
    (maxFileSize : Z) (fs fs' : FileSystem) (uri : jsstring) (m : Manager)
    (size' : Z) (bytes' : list N) :
  (refresh decode asRelativePath maxFileSize fs uri m).1 = Ok tt ->
  stat_size fs' uri = Ok size' -> size' <= maxFileSize ->
  readFile fs' uri = Ok bytes' ->
  let m1 := (refresh decode asRelativePath maxFileSize fs uri m).2 in
  refresh decode asRelativePath maxFileSize fs' uri m1 = (Ok tt, m1) /\
  projectContext
    (refresh decode asRelativePath maxFileSize fs' uri
       (handleFileDelete asRelativePath true uri m1)).2
    !! asRelativePath uri = Some (decode bytes').
Proof.
  intros Hok Hstat Hsize Hread m1.
  destruct (refresh_Ok decode asRelativePath maxFileSize fs uri m Hok)
    as (content & Hpc & Hfc).
  fold m1 in Hpc, Hfc. clearbody m1. split.
  - unfold refresh, P4_readFileContent. rewrite Hstat.
    destruct (Z.ltb_spec maxFileSize size'); [lia|].
    cbn [mbind option_bind]. rewrite Hfc. cbn [default].
    destruct m1 as [pc fc]. cbn in *. f_equal. f_equal.
    by apply insert_id.
  - unfold refresh, P4_readFileContent, handleFileDelete. cbn [negb fileCache].
    rewrite Hstat. destruct (Z.ltb_spec maxFileSize size'); [lia|].
    cbn [mbind option_bind]. rewrite lookup_delete_eq, Hread.
    cbn. by rewrite lookup_insert_eq.
Qed.

(** A file that holds [old] when the manager first reads it, and [newer]
    when the change event arrives. *)
Lemma projectContext_keeps_first_text_witness :
  let m1 := (refresh id id 100000 (holding "old") (js "/w/a.ts") emptyManager).2 in
  projectContext (refresh id id 100000 (holding "newer") (js "/w/a.ts") m1).2
    !! js "/w/a.ts" = Some (js "old").
Proof.
  intros m1.
  destruct (projectContext_keeps_first_text id id 100000 (holding "old")
              (holding "newer") (js "/w/a.ts") emptyManager 5 (js "newer"))
    as [H _]; [reflexivity|reflexivity|lia|reflexivity|].
  fold m1 in H. rewrite H. by vm_compute.
Defined.

End RealTimeFacts.

(** ** Provider setup *)

Module ProviderSetupFacts.
Import ProviderSetup.

Lemma connectionTests_app (a b : list Event) :
  connectionTests (a ++ b) = connectionTests a ++ connectionTests b.
Proof. apply omap_app. Qed.

Lemma prompts_app (a b : list Event) : prompts (a ++ b) = (prompts a + prompts b)%nat.
Proof. unfold prompts. by rewrite omap_app, length_app. Qed.

Lemma secretOrAsk_frame (key : jsstring) (w : World) :
  same_dialogue w (secretOrAsk key w).1.2 /\
  tests (secretOrAsk key w).1.2 = tests w /\
  connectionTests (secretOrAsk key w).2 = [].
Proof.
  unfold secretOrAsk, same_dialogue.
  repeat case_match; cbn; by repeat split.
Qed.

Lemma connect_fails (provider : Provider) (failure : jsstring) (w : World) :
  next_test_fails w ->
  is_throw (connect provider failure w).1.1 = true /\
  same_dialogue w (connect provider failure w).1.2 /\
  tests (connect provider failure w).1.2 = tail (tests w) /\
  length (connectionTests (connect provider failure w).2) = 1%nat.
Proof.
  unfold next_test_fails, connect, same_dialogue. intros ->. by cbn.
Qed.

(** An attempt whose connection test fails: it throws, and it has used up
    at most that one test. *)
Lemma attempt_fails (config : Config) (w : World) :
  next_test_fails w ->
  is_throw (attempt config w).1.1 = true /\
  same_dialogue w (attempt config w).1.2 /\
  (tests (attempt config w).1.2 = tests w \/
   tests (attempt config w).1.2 = tail (tests w)) /\
  (length (connectionTests (attempt config w).2) <= 1)%nat.
Proof.
  intros Ht. unfold attempt.
  assert (forall key (provider : jsstring -> Provider) failure,
    let '(value, w', evs) := secretOrAsk key w in
    forall apiKey,
    let '(r, w'', evs') := connect (provider apiKey) failure w' in
    (is_throw r = true /\ same_dialogue w w'' /\
     (tests w'' = tests w \/ tests w'' = tail (tests w)) /\
     (length (connectionTests (evs ++ evs')) <= 1)%nat) /\
    (same_dialogue w w' /\
     (tests w' = tests w \/ tests w' = tail (tests w)) /\
     (length (connectionTests evs) <= 1)%nat)) as Hstep.
  { intros key provider failure.
    pose proof (secretOrAsk_frame key w) as (Hd & Htests & Hev).
    destruct (secretOrAsk key w) as [[value w'] evs]. cbn [fst snd] in *.
    intros apiKey.
    assert (next_test_fails w') as Ht'
      by (unfold next_test_fails; by rewrite Htests).
    pose proof (connect_fails (provider apiKey) failure w' Ht') as (H1 & H2 & H3 & H4).
    destruct (connect (provider apiKey) failure w') as [[r w''] evs'].
    cbn [fst snd] in *. rewrite connectionTests_app, Hev.
    unfold same_dialogue in *. cbn [app length]. rewrite H4, H3, Htests.
    destruct H2 as (?&?&?), Hd as (?&?&?).
    repeat split; auto with lia congruence; congruence. }
  case_bool_decide; [|case_bool_decide].
  - specialize (Hstep (js "openaiApiKey")
      (fun k => OpenAIProvider k (openaiModel config))
      (js "OpenAI connection test failed")).
    destruct (secretOrAsk _ w) as [[[apiKey|] w'] evs].
    + destruct (validateApiKey apiKey) as [k|e].
      * specialize (Hstep k). destruct (connect _ _ w') as [[r w''] evs'].
        cbn [fst snd]. tauto.
      * specialize (Hstep apiKey). destruct (connect _ _ w') as [[r w''] evs'].
        cbn [fst snd is_throw]. tauto.
    + specialize (Hstep []). destruct (connect _ _ w') as [[r w''] evs'].
      cbn [fst snd is_throw]. tauto.
  - pose proof (connect_fails OllamaProvider
      (js "Ollama connection test failed. Ensure Ollama server is running at http://localhost:11434.")
      w Ht) as (H1 & H2 & H3 & H4).
    auto with lia.
  - specialize (Hstep (js "flowiseApiToken")
      (fun t => FlowiseProvider (flowiseUrl config) t)
      (js "Flowise connection test failed")).
    destruct (secretOrAsk _ w) as [[[apiToken|] w'] evs].
    + destruct (validateToken apiToken) as [k|e].
      * specialize (Hstep k). destruct (connect _ _ w') as [[r w''] evs'].
        cbn [fst snd]. tauto.
      * specialize (Hstep apiToken). destruct (connect _ _ w') as [[r w''] evs'].
        cbn [fst snd is_throw]. tauto.
    + specialize (Hstep []). destruct (connect _ _ w') as [[r w''] evs'].
      cbn [fst snd is_throw]. tauto.
Qed.

Lemma take_tail_false (k : nat) (l : list bool) :
  Forall (fun ok => ok = false) (take (S k) l) ->
  default false (head l) = false /\
  Forall (fun ok => ok = false) (take k l) /\
  Forall (fun ok => ok = false) (take k (tail l)).
Proof.
  destruct l as [|x l]; cbn; [by rewrite take_nil|].
  intros [-> H]%Forall_cons. split; [done|]. split; [|done].
  destruct k; cbn; [done|]. apply Forall_cons. split; [done|].
  apply (Forall_take _ k) in H. by rewrite take_take, Nat.min_l in H by lia.
Qed.

Lemma while_retry (config : Config) (R : Z) (k : nat) (attempts : Z)
    (fuel : nat) (w : World) (rest : list (option jsstring)) :
  (1 <= k)%nat -> attempts + Z.of_nat k = R -> (k < fuel)%nat ->
  Forall (fun ok => ok = false) (take k (tests w)) ->
  actions w = Some (js "Retry") :: rest ->
  exists w' evs,
    while fuel config R attempts w = Some (Throw unexpected, w', evs) /\
    (length (connectionTests evs) <= k)%nat /\
    actions w' = rest.
Proof.
  revert attempts fuel w. induction k as [|k IH]; intros attempts fuel w Hk HR Hf Ht Ha; [lia|].
  destruct fuel as [|fuel]; [lia|]. cbn [while].
  destruct (Z.ltb_spec attempts R); [|lia].
  apply take_tail_false in Ht as (Hhead & Ht1 & Ht2).
  pose proof (attempt_fails config w Hhead) as (H1 & (Hp & Hact & Hpick) & H3 & H4).
  destruct (attempt config w) as [[[p|error] w1] evs]; [done|]. cbn [fst snd] in *.
  unfold recover.
  destruct (Z.leb_spec R (attempts + 1)) as [Hlast|Hmore].
  - assert (k = 0%nat) as -> by lia. rewrite Hact, Ha. cbn [head mjoin option_join tail].
    rewrite bool_decide_eq_false_2 by (by intros [=]).
    rewrite bool_decide_eq_false_2 by (by intros [=]).
    rewrite bool_decide_eq_true_2 by done.
    destruct fuel as [|fuel]; [lia|]. cbn [while].
    destruct (Z.ltb_spec (attempts + 1) R); [lia|]. cbn.
    eexists _, _. split; [reflexivity|].
    rewrite !connectionTests_app. cbn. rewrite app_nil_r. split; [lia|done].
  - destruct (IH (attempts + 1) fuel w1) as (w' & evs' & E & Hn & Hrest);
      [lia|lia|lia| |congruence|].
    { by destruct H3 as [-> | ->]. }
    rewrite E. cbn. eexists _, _. split; [reflexivity|].
    rewrite connectionTests_app. cbn. rewrite length_app. split; [lia|done].
Qed.

(** X11.  Retry does not retry.  When the first [maxRetries] connection
    tests fail and the user answers the warning with Retry, no further
    attempt follows: the loop condition ends the loop, and the call fails
    with [Unexpected error in getLLMProvider], having tested the connection
    at most [maxRetries] times and asked the user once. *)
Theorem getLLMProvider_retry_never_retries (config : Config) (R fuel : nat)
    (w : World) (rest : list (option jsstring)) :
  (1 <= R)%nat -> (R < fuel)%nat ->
  Forall (fun ok => ok = false) (take R (tests w)) ->
  actions w = Some (js "Retry") :: rest ->
  exists w' evs,
    getLLMProvider fuel config (Z.of_nat R) w = Some (Throw unexpected, w', evs) /\
    (length (connectionTests evs) <= R)%nat /\
    actions w' = rest.
Proof.
  intros HR Hf Ht Ha. unfold getLLMProvider.
  by apply (while_retry config (Z.of_nat R) R 0 fuel w rest); [|lia|..].
Qed.

(** Ollama down, two attempts allowed: Retry ends the call although a third
    test would succeed. *)
Lemma getLLMProvider_retry_never_retries_witness :
  exists w' evs,
    getLLMProvider 5 defaults 2 ollamaDown = Some (Throw unexpected, w', evs) /\
    (length (connectionTests evs) <= 2)%nat /\ actions w' = [].
Proof.
  apply (getLLMProvider_retry_never_retries defaults 2 5 ollamaDown []);
    [lia|lia| |reflexivity].
  cbn. repeat constructor.
Defined.

(** With a stored key that the constructor rejects, an attempt fails before
    anything is asked or tested, and changes nothing. *)
Lemma attempt_stored_bad_key (config : Config) (w : World) (key : jsstring) :
  llmProvider w = js "openai" ->
  secrets w !! js "openaiApiKey" = Some key -> key <> [] ->
  JsString.startsWith (js "sk-") key = false ->
  attempt config w = (Throw keyRejected, w, []).
Proof.
  intros Hp Hs Hk Hsk. unfold attempt, secretOrAsk, validateApiKey.
  rewrite Hp.
  match goal with
  | |- context [@lookup ?K ?A ?M ?I ?k ?m] =>
      replace (@lookup K A M I k m) with (Some key) by (symmetry; exact Hs)
  end. cbn [bool_decide decide_rel]. rewrite bool_decide_eq_true_2 by done.
  destruct key as [|c key]; [done|]. rewrite Hsk.
  by rewrite bool_decide_eq_false_2.
Qed.

Lemma while_dismissed (config : Config) (R : Z) (k : nat) (attempts : Z)
    (fuel : nat) (w : World) (error : Error) :
  (1 <= k)%nat -> attempts + Z.of_nat k = R -> (k <= fuel)%nat ->
  attempt config w = (Throw error, w, []) -> actions w = [] ->
  while fuel config R attempts w =
    Some (Throw cannotProceed, w,
          [EvWarning (js "Failed to configure " ++ llmProvider w ++
                      js " provider: " ++ message error);
           EvShowError (message cannotProceed)]).
Proof.
  revert attempts fuel. induction k as [|k IH]; intros attempts fuel Hk HR Hf Hat Ha; [lia|].
  destruct fuel as [|fuel]; [lia|]. cbn [while].
  destruct (Z.ltb_spec attempts R); [|lia]. rewrite Hat. unfold recover.
  destruct (Z.leb_spec R (attempts + 1)) as [Hlast|Hmore].
  - rewrite Ha. cbn. destruct w. cbn in *. by subst.
  - rewrite (IH (attempts + 1) fuel); [done|lia|lia|lia|done|done].
Qed.

(** X12.  An OpenAI key that the user types is stored before it is checked.  If
    it does not start with [sk-], the first attempt fails on the check, and so
    does every later attempt, in this call and in the next ones: the stored
    key is found, so the user is not asked again, and no connection is ever
    tested. *)
Theorem getLLMProvider_keeps_rejected_key (config : Config) (R fuel : nat)
    (w : World) (key : jsstring) (more : list (option jsstring)) :
  (1 <= R)%nat -> (R <= fuel)%nat ->
  llmProvider w = js "openai" ->
  secrets w !! js "openaiApiKey" = None ->
  inputs w = Some key :: more ->
  key <> [] -> JsString.startsWith (js "sk-") key = false ->
  actions w = [] ->
  (exists w1 evs,
     getLLMProvider fuel config (Z.of_nat R) w = Some (Throw cannotProceed, w1, evs) /\
     secrets w1 = <[js "openaiApiKey" := key]> (secrets w) /\
     llmProvider w1 = js "openai" /\ actions w1 = [] /\
     prompts evs = 1%nat /\ connectionTests evs = []) /\
  (forall w2 : World,
     llmProvider w2 = js "openai" ->
     secrets w2 !! js "openaiApiKey" = Some key ->
     actions w2 = [] ->
     exists evs,
       getLLMProvider fuel config (Z.of_nat R) w2 = Some (Throw cannotProceed, w2, evs) /\
       prompts evs = 0%nat /\ connectionTests evs = []).
Proof.
  intros HR Hf Hp Hs Hin Hk Hsk Ha.
  assert (forall w2 : World,
     llmProvider w2 = js "openai" ->
     secrets w2 !! js "openaiApiKey" = Some key ->
     actions w2 = [] ->
     forall (k : nat) (attempts : Z) (fuel : nat),
       (1 <= k)%nat -> attempts + Z.of_nat k = Z.of_nat R -> (k <= fuel)%nat ->
       exists evs,
         while fuel config (Z.of_nat R) attempts w2 = Some (Throw cannotProceed, w2, evs) /\
         prompts evs = 0%nat /\ connectionTests evs = []) as Hlater.
  { intros w2 Hp2 Hs2 Ha2 k attempts fuel2 H1 H2 H3.
    eexists. split.
    - apply (while_dismissed config _ k); try done.
      by apply (attempt_stored_bad_key config w2 key).
    - done. }
  split; [|intros w2 Hp2 Hs2 Ha2; by apply (Hlater w2 Hp2 Hs2 Ha2 R 0 fuel); [|lia|]].
  unfold getLLMProvider. destruct fuel as [|fuel]; [lia|]. cbn [while].
  destruct (Z.ltb_spec 0 (Z.of_nat R)); [|lia].
  set (w1 := {| secrets := <[js "openaiApiKey" := key]> (secrets w);
                llmProvider := js "openai"; inputs := tail (inputs w);
                tests := tests w; actions := actions w; picks := picks w |}).
  assert (attempt config w =
    (Throw keyRejected, w1, [EvInputBox; EvStore (js "openaiApiKey") key])) as ->.
  { unfold attempt, secretOrAsk, validateApiKey. rewrite Hp.
    match goal with
    | |- context [@lookup ?K ?A ?M ?I ?k ?m] =>
        replace (@lookup K A M I k m) with (@None jsstring) by (symmetry; exact Hs)
    end.
    rewrite Hin.
    rewrite bool_decide_eq_true_2 by done. cbn [head mjoin option_join].
    destruct key as [|c key]; [done|]. rewrite Hsk.
    rewrite bool_decide_eq_false_2 by done. subst w1. by rewrite Hin. }
  unfold recover. destruct (Z.leb_spec (Z.of_nat R) (0 + 1)) as [Hlast|Hmore].
  - subst w1. cbn [actions llmProvider]. rewrite Ha. cbn.
    eexists _, _. split; [reflexivity|]. done.
  - destruct (Hlater w1) with (k := (R - 1)%nat) (attempts := 0 + 1) (fuel := fuel)
      as (evs & E & Hpr & Hct); subst w1; cbn [llmProvider secrets actions];
      try done; try lia.
    { apply lookup_insert_eq. }
    rewrite E. cbn [mbind option_bind].
    eexists _, _. split; [reflexivity|].
    cbn [secrets llmProvider actions]. rewrite !prompts_app, !connectionTests_app.
    rewrite Hpr, Hct. by repeat split.
Qed.

(** The user types [hunter2]; two attempts allowed. *)
Lemma getLLMProvider_keeps_rejected_key_witness :
  exists w1 evs,
    getLLMProvider 2 defaults 2 typedBadKey = Some (Throw cannotProceed, w1, evs) /\
    secrets w1 = <[js "openaiApiKey" := js "hunter2"]> (secrets typedBadKey) /\
    llmProvider w1 = js "openai" /\ actions w1 = [] /\
    prompts evs = 1%nat /\ connectionTests evs = [].
Proof.
  destruct (getLLMProvider_keeps_rejected_key defaults 2 2 typedBadKey
              (js "hunter2") [Some (js "sk-good")]) as [H _];
    [lia|lia|reflexivity|reflexivity|reflexivity|done|by vm_compute|reflexivity|exact H].
Defined.

End ProviderSetupFacts.

(** ** File Mutation Gate: what the caller is told *)

Module MutationGateReportFacts.
Import MutationGate MutationGateFacts.

Local Arguments js : simpl never.
Local Arguments num : simpl never.
Local Arguments join : simpl never.
Local Arguments Ext_backupPath : simpl never.
Local Arguments P4_backupPath : simpl never.

Lemma no_error_shown (events : list Event) (msg : jsstring) :
  Forall (fun e => match e with EvShowError _ => False | _ => True end) events ->
  EvShowError msg ∉ events.
Proof. intros Hl Hin. eapply Forall_forall in Hl; [|exact Hin]. done. Qed.

(** The statement about a run, as a predicate applied to the run. *)
Ltac about_run run :=
  pattern run;
  lazymatch goal with
  | |- ?P _ => let spec := fresh "spec" in set (spec := P)
  end.

(** X13.  Both revisions ignore what [applyEdit] and [save] resolve to: when the
    change is confirmed and the backup is made, but the editor refuses the
    edit or does not save, the call still returns [true] and shows no error.
    The backup holds the content of the file.  The target holds the text
    the document had before, unsaved edits included, when the edit was
    refused and the save went through; it holds what the failed save left of
    it (its old content, if the save wrote nothing) when the save did not go
    through, and the document then holds the new text unsaved if the edit was
    applied. *)
Theorem applyFileChanges_true_without_write
    (env : Env) (uri newContent text old : jsstring)
    (autoApply applied saved : bool) (w : World) :
  opens env w uri text -> text <> newContent ->
  disk w !! uri = Some old ->
  confirmed env autoApply -> copy_error env = None ->
  disk w !! Ext_backupPath uri (now_backup env) = None ->
  disk w !! P4_backupPath uri (now_backup env) = None ->
  applyEdit_result env = Ok applied -> save_result env = Ok saved ->
  applied && saved = false ->
  let ext := Ext_applyFileChanges env uri newContent autoApply w in
  let p4 := P4_applyFileContent env uri newContent autoApply w in
  let target := if saved then text else default old (save_left env) in
  let document := if applied then newContent else text in
  (ext.1.1 = Ok true /\ disk ext.1.2 !! uri = Some target /\
   disk ext.1.2 !! Ext_backupPath uri (now_backup env) = Some old /\
   editor ext.1.2 !! uri = Some document /\
   (forall msg, EvShowError msg ∉ ext.2)) /\
  (p4.1.1 = Ok true /\ disk p4.1.2 !! uri = Some target /\
   disk p4.1.2 !! P4_backupPath uri (now_backup env) = Some old /\
   editor p4.1.2 !! uri = Some document /\
   (forall msg, EvShowError msg ∉ p4.2)).
Proof.
  intros Hopen Hne Hu Hconf Hcopy Hfree1 Hfree2 Happ Hsave Hno ext p4.
  subst ext p4.
  pose proof (tempFile_ne_uri (tmpdir env) uri (now_suggested env)) as Htmp.
  pose proof (Ext_backupPath_ne_uri uri (now_backup env)) as Hbak1.
  pose proof (P4_backupPath_ne_uri uri (now_backup env)) as Hbak2.
  pose proof (tempFile_ne_Ext_backupPath (tmpdir env) uri (now_suggested env)
                (now_backup env)) as Htb1.
  pose proof (tempFile_ne_P4_backupPath (tmpdir env) uri (now_suggested env)
                (now_backup env)) as Htb2.
  unfold opens, confirmed in *.
  destruct w as [d e], env.
  cbn [tmpdir now_suggested now_backup open_error writeFile_error
       writeFile_left diff_error answer unlink_error copy_error copy_left
       applyEdit_result save_result save_left disk editor] in *.
  subst. cbv zeta.
  assert (applied = false \/ saved = false) as Hcases
    by (destruct applied, saved; auto; discriminate).
  split.
  - about_run (Ext_applyFileChanges
      {| tmpdir := tmpdir0; now_suggested := now_suggested0;
         now_backup := now_backup0; open_error := open_error0;
         writeFile_error := writeFile_error0;
         writeFile_left := writeFile_left0; diff_error := diff_error0;
         answer := answer0; unlink_error := unlink_error0;
         copy_error := None; copy_left := copy_left0;
         applyEdit_result := Ok applied; save_result := Ok saved;
         save_left := save_left0 |} uri newContent autoApply
      {| disk := d; editor := e |}).
    gate_cases;
      lazymatch goal with spec := _ |- _ => subst spec end;
      cbv beta; cbn [fst snd disk editor app];
      try (destruct_or!; destruct_and?; congruence);
      split_and!; try done; gate_lookup;
      try (destruct_or!; destruct_and?; congruence);
      try (intros msg; apply no_error_shown; by repeat constructor);
      match goal with
      | |- context [match ?o with _ => _ end] => by destruct o
      end.
  - about_run (P4_applyFileContent
      {| tmpdir := tmpdir0; now_suggested := now_suggested0;
         now_backup := now_backup0; open_error := open_error0;
         writeFile_error := writeFile_error0;
         writeFile_left := writeFile_left0; diff_error := diff_error0;
         answer := answer0; unlink_error := unlink_error0;
         copy_error := None; copy_left := copy_left0;
         applyEdit_result := Ok applied; save_result := Ok saved;
         save_left := save_left0 |} uri newContent autoApply
      {| disk := d; editor := e |}).
    gate_cases;
      lazymatch goal with spec := _ |- _ => subst spec end;
      cbv beta; cbn [fst snd disk editor app];
      try (destruct_or!; destruct_and?; congruence);
      split_and!; try done; gate_lookup;
      try (destruct_or!; destruct_and?; congruence);
      try (intros msg; apply no_error_shown; by repeat constructor);
      match goal with
      | |- context [match ?o with _ => _ end] => by destruct o
      end.
Qed.

(** The editor accepts nothing: [applyEdit] resolves to [false], and the
    unsaved text of the document is what the save writes. *)
Lemma applyFileChanges_true_without_write_witness :
  let run :=
    Ext_applyFileChanges GateCallers.refusingEnv (js "/w/a.ts") (js "new")
      false unsavedDraft in
  run.1.1 = Ok true /\ disk run.1.2 !! js "/w/a.ts" = Some (js "draft").
Proof.
  destruct (applyFileChanges_true_without_write GateCallers.refusingEnv
              (js "/w/a.ts") (js "new") (js "draft") (js "old") false false
              true unsavedDraft)
    as [(H1 & H2 & _) _];
    [by left|done|reflexivity|right; by repeat split|reflexivity|by vm_compute
    |by vm_compute|reflexivity|reflexivity|reflexivity|].
  by split.
Defined.

(** X14.  The temporary file of the preview, written when the text of the
    document is not the proposed text.  When the diff cannot be shown, the
    file stays on the disk with the suggested text: extension.ts returns
    [false] after an error message, part_004 rejects.  When the diff is shown
    and the user does not choose Apply, the call returns [false] and nothing
    else has happened; the file is removed again if [unlink] succeeds, and
    it stays, without a word to the user, if [unlink] rejects. *)
Theorem applyFileChanges_preview_file
    (env : Env) (uri newContent text : jsstring) (w : World) :
  opens env w uri text -> text <> newContent ->
  writeFile_error env = None ->
  let tmp :=
    join (tmpdir env)
      (basename uri ++ js ".suggested." ++ num (now_suggested env)) in
  let written := with_disk (<[tmp := newContent]> (disk w)) (with_text uri text w) in
  let removed :=
    with_disk (delete tmp (<[tmp := newContent]> (disk w))) (with_text uri text w) in
  let ext := Ext_applyFileChanges env uri newContent false w in
  let p4 := P4_applyFileContent env uri newContent false w in
  (forall error, diff_error env = Some error ->
     ext = (Ok false, written,
            [EvWriteTemp tmp;
             EvShowError (js "Failed to apply changes to " ++ uri ++ js ": " ++
                          message error)]) /\
     p4 = (Throw error, written, [EvWriteTemp tmp])) /\
  (diff_error env = None -> answer env <> Some (js "Apply") ->
     p4 = ext /\
     (unlink_error env = None ->
        ext = (Ok false, removed, [EvWriteTemp tmp; EvUnlink tmp])) /\
     (is_Some (unlink_error env) ->
        ext = (Ok false, written, [EvWriteTemp tmp]))).
Proof.
  intros Hopen Hne Hw tmp written removed ext p4.
  assert (openTextDocument env uri w = (Ok text, with_text uri text w, []))
    as Hdoc.
  { unfold openTextDocument, with_text.
    destruct Hopen as [He|(He & Ho & Hd)].
    - rewrite He, insert_id by done. by destruct w.
    - by rewrite He, Ho, Hd. }
  subst ext p4 written removed.
  unfold Ext_applyFileChanges, P4_applyFileContent, try_catch, mbind, M_bind,
    bind. rewrite Hdoc.
  rewrite (bool_decide_eq_false_2 (text = newContent)) by done.
  unfold confirm, mbind, M_bind, bind, fs_writeFile, showDiff, fs_unlink.
  fold tmp. rewrite Hw. cbn [negb].
  split.
  - intros error ->. by cbn.
  - intros -> Hans. rewrite (bool_decide_eq_false_2 _ Hans).
    split; [by destruct (unlink_error env)|]. split.
    + intros ->. by cbn.
    + intros [error ->]. by cbn.
Qed.

(** The user answers Cancel, and the temporary file cannot be removed: it
    stays on the disk. *)
Lemma applyFileChanges_preview_file_witness :
  let run :=
    Ext_applyFileChanges GateCallers.cancelEnv (js "/w/a.ts") (js "new") false
      oneFile in
  run.1.1 = Ok false /\
  disk run.1.2 !! js "/tmp/a.ts.suggested.1700000000000" = Some (js "new") /\
  run.2 = [EvWriteTemp (js "/tmp/a.ts.suggested.1700000000000")].
Proof.
  destruct (applyFileChanges_preview_file GateCallers.cancelEnv (js "/w/a.ts")
              (js "new") (js "old") oneFile) as [_ H];
    [right; by repeat split|done|reflexivity|].
  destruct H as (_ & _ & H); [reflexivity|done|].
  rewrite H by (by eexists). by vm_compute.
Defined.

End MutationGateReportFacts.

(** ** The per-file pipeline of part_004 *)

Module ReviewFileFacts.
Import ContentLoader ReviewFile.

Lemma mapM_Ok {A B : Type} (f : A -> Res B) (l : list A) (ys : list B) :
  mapM f l = Ok ys -> Forall (fun x => is_ok (f x) = true) l.
Proof.
  revert ys. induction l as [|x l IH]; intros ys; cbn [mapM]; [by constructor|].
  destruct (f x) eqn:E; [|done]. destruct (mapM f l); [|done].
  intros _. constructor; [by rewrite E|by eapply IH].
Qed.

(** X15.  [reviewFile] of part_004 returns a review only if every issue of the
    reply names a line of the document: an issue with the line 0, or with a
    line beyond the last one, makes [document.lineAt] throw, and the review
    is lost although the backend has answered.  A review that is returned
    carries the reply with the suggested replacement and the issues parsed
    from it. *)
Theorem P4_reviewFile_issue_lines_inside_document
    (decode : list N -> jsstring) (fs : FileSystem)
    (asRelativePath : jsstring -> jsstring)
    (getRelatedFiles : jsstring -> Res (list jsstring))
    (inWorkspace : jsstring -> jsstring)
    (lineCount : jsstring -> Res LineCount)
    (sanitizeHtml : jsstring -> jsstring) (uri : jsstring) (maxFileSize : Z)
    (reviewPrompt : jsstring) (retry : RetryDispatcher.Config)
    (projectContext : option (list (jsstring * jsstring)))
    (provider : option RetryDispatcher.LLMProvider)
    (fileReview : FileReview) (events : list RetryDispatcher.Event) :
  P4_reviewFile decode fs asRelativePath getRelatedFiles inWorkspace lineCount
    sanitizeHtml uri maxFileSize reviewPrompt retry projectContext provider
    = (Ok fileReview, events) ->
  suggestedChanges fileReview = ReviewParser.suggestedChanges (review fileReview) /\
  issues fileReview = Some (ReviewParser.parseIssues (review fileReview)) /\
  exists count,
    lineCount uri = Ok count /\
    Forall (fun issue =>
              exists n, ReviewParser.line issue = ReviewParser.Finite n /\
                        1 <= n <= count_of count)
      (ReviewParser.parseIssues (review fileReview)).
Proof.
  unfold P4_reviewFile. destruct provider as [p|]; [|done].
  destruct (P4_readFileContent _ _ _ _ _).1 as [text|]; [|done].
  destruct (getRelatedFiles uri) as [related|]; [|done].
  destruct (mapM _ related) as [blocks|]; [|done].
  destruct (RetryDispatcher.getLLMResponse _ _ _ _ _) as [[reply|] evs]; [|done].
  destruct (lineCount uri) as [count|]; [|done].
  destruct (mapM (P4_lineAt count) _) as [units|] eqn:E; [|done].
  intros [= <- <-]. cbn. split; [done|]. split; [done|].
  exists count. split; [done|].
  apply mapM_Ok in E. eapply Forall_impl; [exact E|].
  intros issue. unfold P4_lineAt.
  destruct (ReviewParser.line issue) as [n|] eqn:En; [|done].
  destruct (ReviewParser.minus_one (ReviewParser.Finite n)) as [l|] eqn:El;
    [|done].
  destruct (Z.leb_spec 0 l), (Z.ltb_spec l (count_of count)); cbn; try done.
  intros _. exists n. split; [done|].
  pose proof (count_bound count) as Hbound.
  apply Is_true_true, Z.leb_le in Hbound.
  apply IssueFacts.minus_one_small in El; lia.
Qed.

(** A reply with one issue on line 2, for a document of three lines. *)
Lemma P4_reviewFile_issue_lines_inside_document_witness :
  Forall (fun issue =>
            exists n, ReviewParser.line issue = ReviewParser.Finite n /\
                      1 <= n <= 3)
    (ReviewParser.parseIssues (js "Line 2: Low severity - typo")).
Proof.
  assert (exists fileReview events,
    PipelineExamples.reviewOf
      (PipelineExamples.answers "Line 2: Low severity - typo")
      PipelineExamples.threeLines
      = (Ok fileReview, events) /\
    review fileReview = js "Line 2: Low severity - typo")
    as (fileReview & events & Hrun & Hreview)
    by (eexists _, _; split; by vm_compute).
  destruct (P4_reviewFile_issue_lines_inside_document _ _ _ _ _ _ _ _ _ _ _ _ _ _ _
              Hrun) as (_ & _ & count & Hcount & Hall).
  injection Hcount as <-. by rewrite Hreview in Hall.
Defined.

End ReviewFileFacts.

(** ** Review Parser: what the suggested replacement can hold *)

Module SuggestedChangesMoreFacts.
Import ReviewParser SuggestedChangesFacts.

Lemma trimStart_suffix (s : jsstring) : exists pre, s = pre ++ trimStart s.
Proof.
  induction s as [|c s [pre IH]]; [by exists []|]. cbn.
  destruct (is_space c); [|by exists []].
  exists (c :: pre). cbn. by f_equal.
Qed.

Lemma trimEnd_prefix (s : jsstring) : exists suf, s = trimEnd s ++ suf.
Proof.
  unfold trimEnd. destruct (trimStart_suffix (reverse s)) as [pre H].
  exists (reverse pre). apply (f_equal reverse) in H.
  by rewrite reverse_involutive, reverse_app in H.
Qed.

Lemma trimStart_idemp (s : jsstring) : trimStart (trimStart s) = trimStart s.
Proof.
  induction s as [|c s IH]; [done|]. cbn.
  destruct (is_space c) eqn:E; [done|]. cbn. by rewrite E.
Qed.

Lemma trimStart_id (s : jsstring) :
  trimStart s = s <-> match s with [] => True | c :: _ => is_space c = false end.
Proof.
  destruct s as [|c s]; [done|]. cbn. destruct (is_space c) eqn:E; [|done].
  split; [|done]. intros H. destruct (trimStart_suffix s) as [pre Hp].
  apply (f_equal length) in H, Hp. rewrite length_app in Hp. cbn in H. lia.
Qed.

Lemma trim_trimmed (s : jsstring) :
  trimStart (trim s) = trim s /\ trimEnd (trim s) = trim s.
Proof.
  unfold trim. split.
  - apply trimStart_id.
    destruct (trimEnd_prefix (trimStart s)) as [suf H].
    destruct (trimEnd (trimStart s)) as [|c t] eqn:E; [done|].
    pose proof (trimStart_idemp s) as Hi. rewrite H in Hi.
    by apply trimStart_id in Hi.
  - unfold trimEnd. by rewrite reverse_involutive, trimStart_idemp.
Qed.

Lemma trim_inside (s : jsstring) : exists pre suf, s = pre ++ trim s ++ suf.
Proof.
  unfold trim. destruct (trimStart_suffix s) as [pre H1].
  destruct (trimEnd_prefix (trimStart s)) as [suf H2].
  exists pre, suf. by rewrite <- H2.
Qed.

(** What stands before the first fence holds no fence. *)
Lemma find_fence_body (t body post : jsstring) :
  find_fence t = Some (body, post) ->
  forall p q, body <> p ++ fence ++ q.
Proof.
  intros H p q ->. pose proof (find_fence_Some _ _ _ H) as Ht.
  assert (t = p ++ fence ++ (q ++ fence ++ post)) as Ht'
    by (by rewrite Ht, <- !app_assoc).
  pose proof (find_fence_first _ _ _ _ _ H Ht') as Hlen.
  rewrite !length_app in Hlen. cbn in Hlen. lia.
Qed.

(** X16.  The suggested replacement never holds a fence, and it is trimmed: no
    white space at either end. *)
Theorem suggestedChanges_is_clean (review changes : jsstring) :
  suggestedChanges review = Some changes ->
  (forall pre post, changes <> pre ++ fence ++ post) /\
  trim changes = changes /\
  match changes with
  | [] => True
  | first :: _ => is_space first = false /\ (exists l, last changes = Some l /\ is_space l = false)
  end.
Proof.
  unfold suggestedChanges. rewrite search_fence_re. unfold fenced_match.
  destruct (find_fence review) as [[pre r]|]; [|done]. cbn [mbind option_bind].
  destruct (find_fence r) as [[body post]|] eqn:E; [|done].
  cbn [mbind option_bind]. rewrite (remove_fences_match _ _ _ E).
  intros [= <-]. split; [|split].
  - intros p q Hc. destruct (trim_inside body) as (a & b & Hb).
    rewrite Hc in Hb. eapply (find_fence_body _ _ _ E (a ++ p) (q ++ b)).
    by rewrite Hb, <- !app_assoc.
  - destruct (trim_trimmed body) as [H1 H2]. unfold trim at 1. by rewrite H1.
  - destruct (trim_trimmed body) as [H1 H2].
    destruct (trim body) as [|c t] eqn:Et; [done|].
    split; [by apply trimStart_id in H1|].
    unfold trimEnd in H2. apply (f_equal reverse) in H2.
    rewrite reverse_involutive in H2. apply trimStart_id in H2.
    destruct (reverse (c :: t)) as [|l rt] eqn:Er.
    { apply (f_equal length) in Er. by rewrite length_reverse in Er. }
    exists l. split; [|done].
    apply (f_equal reverse) in Er. rewrite reverse_involutive, reverse_cons in Er.
    rewrite Er. apply last_snoc.
Qed.

(** A reply whose block is [```], a line, and more text. *)
Lemma suggestedChanges_is_clean_witness :
  trim (js "foo") = js "foo".
Proof.
  destruct (suggestedChanges_is_clean
              (js "```" ++ [newline] ++ js "foo" ++ [newline] ++ js "```")
              (js "foo")) as (_ & H & _); [by vm_compute|exact H].
Defined.

Lemma find_fence_no_backtick (pre rest : jsstring) :
  backtick ∉ pre -> find_fence (pre ++ fence ++ rest) = Some (pre, rest).
Proof.
  induction pre as [|a pre IH]; intros Hb; [done|].
  apply not_elem_of_cons in Hb as [Ha Hb].
  rewrite find_fence_unfold.
  assert (strip_fence ((a :: pre) ++ fence ++ rest) = None) as ->.
  { destruct (strip_fence _) as [r|] eqn:E; [|done].
    apply strip_fence_Some in E. by injection E as -> _. }
  cbn [app]. by rewrite IH.
Qed.

Lemma trimStart_app (a b : jsstring) :
  trimStart (a ++ b) =
  if forallb is_space a then trimStart b else trimStart a ++ b.
Proof.
  induction a as [|c a IH]; [done|]. cbn. by destruct (is_space c).
Qed.

Lemma trimEnd_after_word (tag rest : jsstring) :
  tag <> [] -> forallb (fun c => negb (is_space c)) tag = true ->
  trimEnd (tag ++ rest) = tag ++ trimEnd rest.
Proof.
  intros Hne Htag. unfold trimEnd. rewrite reverse_app, trimStart_app.
  assert (trimStart (reverse tag) = reverse tag) as Hrt.
  { apply trimStart_id. destruct (reverse tag) as [|c t] eqn:E; [done|].
    assert (c ∈ tag) as Hc by (apply elem_of_reverse; rewrite E; by left).
    apply list_elem_of_In in Hc.
    eapply forallb_forall in Htag; [|exact Hc]. by apply negb_true_iff. }
  destruct (forallb is_space (reverse rest)) eqn:Esp.
  - rewrite Hrt, reverse_involutive.
    assert (trimStart (reverse rest) = []) as ->; [|by rewrite app_nil_r].
    rewrite <- (app_nil_r (reverse rest)), trimStart_app, Esp. done.
  - by rewrite reverse_app, reverse_involutive.
Qed.

(** X17.  A language tag after the opening fence is not recognised: it becomes
    the first line of the suggested replacement.  For a reply with no stray
    backticks whose first block opens with a tag free of white space, the
    tag, the line break and the code are kept. *)
Theorem suggestedChanges_keeps_language_tag (pre tag code post : jsstring) :
  backtick ∉ pre -> backtick ∉ tag -> backtick ∉ code ->
  tag <> [] -> forallb (fun c => negb (is_space c)) tag = true ->
  suggestedChanges (pre ++ fence ++ tag ++ [newline] ++ code ++ fence ++ post)
    = Some (tag ++ trimEnd ([newline] ++ code)).
Proof.
  intros Hpre Htag Hcode Hne Hsp.
  unfold suggestedChanges. rewrite search_fence_re. unfold fenced_match.
  rewrite find_fence_no_backtick by done. cbn [mbind option_bind].
  assert (find_fence (tag ++ [newline] ++ code ++ fence ++ post) =
          Some (tag ++ [newline] ++ code, post)) as E.
  { replace (tag ++ [newline] ++ code ++ fence ++ post)
      with ((tag ++ [newline] ++ code) ++ fence ++ post)
      by (by rewrite <- !app_assoc).
    apply find_fence_no_backtick.
    rewrite !not_elem_of_app. split; [done|]. split; [|done].
    apply not_elem_of_cons. split; [done|apply not_elem_of_nil]. }
  rewrite E. cbn [mbind option_bind]. rewrite (remove_fences_match _ _ _ E).
  f_equal. unfold trim.
  assert (trimStart (tag ++ [newline] ++ code) = tag ++ [newline] ++ code) as ->.
  { apply trimStart_id. destruct tag as [|c t]; [done|]. cbn in *.
    apply andb_true_iff in Hsp as [Hc _]. by apply negb_true_iff. }
  by apply trimEnd_after_word.
Qed.

(** The block [```ts], a line of code, [```]. *)
Lemma suggestedChanges_keeps_language_tag_witness :
  suggestedChanges
    (js "Use:" ++ fence ++ js "ts" ++ [newline] ++ js "let x = 1;" ++ fence ++ [])
    = Some (js "ts" ++ [newline] ++ js "let x = 1;").
Proof.
  rewrite (suggestedChanges_keeps_language_tag (js "Use:") (js "ts")
             (js "let x = 1;") []); [reflexivity|..];
    try (apply (bool_decide_unpack _); by vm_compute); done.
Defined.

End SuggestedChangesMoreFacts.

(** ** Retry Dispatcher: giving up *)

Module RetryDispatcherGiveUpFacts.
Import RetryDispatcher RetryDispatcherFacts.

(** The geometric sum of the backoff schedule. *)
Lemma backoff_total (b a : Z) (n : nat) :
  0 <= a ->
  foldr Z.add 0 ((fun i : nat => b * 2 ^ (a + Z.of_nat i)) <$> seq 0 n) =
  b * 2 ^ a * (2 ^ Z.of_nat n - 1).
Proof.
  revert a. induction n as [|n IH]; intros a Ha.
  - cbn. lia.
  - rewrite backoff_cons. cbn [foldr]. rewrite IH by lia.
    rewrite Nat2Z.inj_succ, Z.pow_succ_r by lia.
    rewrite (Z.pow_add_r 2 a 1) by lia. change (2 ^ 1) with 2. lia.
Qed.

Section Runs.
Variable sanitizeHtml : jsstring -> jsstring.
Variable config : Config.
Variable provider : LLMProvider.
Variable prompt : jsstring.
Variable chatHistory : list ChatMessage.

Local Abbreviation run := (attempts sanitizeHtml config provider prompt chatHistory).
Local Abbreviation outcome i := (getResponse provider prompt chatHistory i).

(** The error of a run in which every attempt fails names the last failure. *)
Lemma attempts_last_error (left : nat) (attempt : Z) (served : nat)
    (last_error : Error) :
  (1 <= left)%nat ->
  apiMaxRetries config = attempt + Z.of_nat left ->
  (forall i, (served <= i < served + left)%nat -> is_throw (outcome i) = true) ->
  outcome (served + left - 1)%nat = Throw last_error ->
  let msg :=
    js "Failed to fetch " ++ getName provider ++ js " response: " ++
    message last_error ++ js " (All " ++ num (apiMaxRetries config) ++
    js " retries failed)" in
  (run left attempt served).1 = Throw (mkError msg) /\
  last (run left attempt served).2 = Some (EvShowError msg).
Proof.
  revert attempt served. induction left as [|left IH];
    intros attempt served Hl HR Hf Hlast msg; [lia|].
  cbn [attempts].
  pose proof (Hf served ltac:(lia)) as Hs.
  destruct (outcome served) as [r|e] eqn:Eo; [discriminate|].
  destruct (Z.ltb_spec attempt (apiMaxRetries config - 1)) as [Hlt|Hge].
  - destruct left as [|left]; [lia|].
    destruct (IH (attempt + 1) (S served)) as (H1 & H2); [lia|lia| | |].
    { intros i Hi. apply Hf. lia. }
    { rewrite <- Hlast. f_equal. lia. }
    destruct (run (S left) (attempt + 1) (S served)) as [r evs].
    cbn [fst snd] in *. split; [exact H1|].
    destruct evs as [|ev evs]; [discriminate H2|]. exact H2.
  - assert (left = 0%nat) as -> by lia.
    replace (served + 1 - 1)%nat with served in Hlast by lia.
    rewrite Eo in Hlast. injection Hlast as ->. subst msg.
    cbn [fst snd last]. by rewrite <- !app_assoc.
Qed.

End Runs.

(** X18.  When every one of the [R] attempts fails, the error that leaves
    [getLLMResponse] (and the message shown to the user, the last thing the
    run does) names the backend, the message of the last failure only, and
    [R]; and the run has slept [apiRetryDelay * (2^(R-1) - 1)] milliseconds
    in all. *)
Theorem getLLMResponse_gives_up_with_last_error
    (sanitizeHtml : jsstring -> jsstring) (config : Config)
    (provider : LLMProvider) (prompt : jsstring)
    (chatHistory : list ChatMessage) (R : nat) (last_error : Error) :
  apiMaxRetries config = Z.of_nat R -> (1 <= R)%nat ->
  (forall i, (i < R)%nat ->
     is_throw (getResponse provider prompt chatHistory i) = true) ->
  getResponse provider prompt chatHistory (R - 1) = Throw last_error ->
  let run := getLLMResponse sanitizeHtml config provider prompt chatHistory in
  let msg :=
    js "Failed to fetch " ++ getName provider ++ js " response: " ++
    message last_error ++ js " (All " ++ num (Z.of_nat R) ++
    js " retries failed)" in
  run.1 = Throw (mkError msg) /\
  last run.2 = Some (EvShowError msg) /\
  foldr Z.add 0 (sleeps run.2) =
    apiRetryDelay config * (2 ^ (Z.of_nat R - 1) - 1).
Proof.
  intros HR H1 Hf Hlast run msg. subst run msg. unfold getLLMResponse.
  rewrite <- HR. rewrite HR at 1 3 5. rewrite Nat2Z.id.
  destruct (attempts_last_error sanitizeHtml config provider prompt chatHistory
              R 0 0%nat last_error) as (E1 & E2); [lia|lia| |done|].
  { intros i Hi. apply Hf. lia. }
  split; [exact E1|]. split; [exact E2|].
  destruct (attempts_all_fail sanitizeHtml config provider prompt chatHistory
              R 0 0%nat) as (_ & _ & E3); [lia|lia| |].
  { intros i Hi. apply Hf. lia. }
  rewrite E3, backoff_total by lia.
  replace (Z.of_nat (R - 1)) with (Z.of_nat R - 1) by lia.
  change (2 ^ 0) with 1. rewrite HR. lia.
Qed.

(** Three attempts at one second of base delay against a backend that is
    down: three seconds of sleep in all. *)
Lemma getLLMResponse_gives_up_with_last_error_witness :
  let run := getLLMResponse id defaultRetry unreachable (js "hi") [] in
  run.1 = Throw (mkError (js "Failed to fetch Ollama response: connect ECONNREFUSED (All 3 retries failed)")) /\
  foldr Z.add 0 (sleeps run.2) = 3000.
Proof.
  destruct (getLLMResponse_gives_up_with_last_error id defaultRetry unreachable
              (js "hi") [] 3 (mkError (js "connect ECONNREFUSED")))
    as (H1 & _ & H3); [reflexivity|lia|done|reflexivity|].
  split; [exact H1|exact H3].
Defined.

End RetryDispatcherGiveUpFacts.

(** ** Batch Scheduler: what is yielded *)

Module BatchSchedulerYieldFacts.
Import BatchScheduler.

(** Induction on a file tree, with the hypothesis for every entry of a
    directory. *)
Lemma FsNode_tree_ind (P : FsNode -> Prop) :
  P FsFile ->
  (forall entries, Forall (fun e => P e.2) entries -> P (FsDir entries)) ->
  P FsUnreadable -> P FsOther ->
  forall node, P node.
Proof.
  intros Hfile Hdir Hunreadable Hother. fix IH 1.
  intros [ |entries| | ]; [exact Hfile| |exact Hunreadable|exact Hother].
  apply Hdir. induction entries as [|[name child] rest IHrest].
  - constructor.
  - constructor; [apply IH|exact IHrest].
Qed.

Section Ext.
Variable shouldIncludeFile : jsstring -> bool.
Variable maxFiles : Z.

Lemma Ext_folder_included (node : FsNode) :
  forall dir fileCount uri,
    uri ∈ (Ext_folder shouldIncludeFile maxFiles dir node fileCount).1.1 ->
    shouldIncludeFile uri = true.
Proof.
  induction node as [|entries IH| |] using FsNode_tree_ind;
    intros dir fileCount uri; try (by intros ?%elem_of_nil).
  cbn [Ext_folder]. revert fileCount.
  induction entries as [|[name child] rest IHrest]; intros fileCount;
    [by intros ?%elem_of_nil|].
  apply Forall_cons in IH as [Hchild Hrest]. specialize (IHrest Hrest).
  destruct (maxFiles <=? fileCount); [by intros ?%elem_of_nil|].
  destruct child as [|sub| |].
  - destruct (shouldIncludeFile (join dir name)) eqn:E; [|apply IHrest].
    specialize (IHrest (fileCount + 1)).
    match type of IHrest with
    | context [?loop rest (fileCount + 1)] =>
        destruct (loop rest (fileCount + 1)) as [[ys n] returned]
    end.
    intros [->|H]%elem_of_cons; [done|by apply IHrest].
  - specialize (IHrest fileCount).
    match type of IHrest with
    | context [?loop rest fileCount] =>
        destruct (loop rest fileCount) as [[ys n] returned]
    end.
    intros [H|H]%elem_of_app; [by eapply Hchild|by apply IHrest].
  - specialize (IHrest fileCount).
    match type of IHrest with
    | context [?loop rest fileCount] =>
        destruct (loop rest fileCount) as [[ys n] returned]
    end.
    intros [H|H]%elem_of_app; [by eapply Hchild|by apply IHrest].
  - apply IHrest.
Qed.

Lemma Ext_folders_included (folders : list (jsstring * FsNode)) :
  forall fileCount uri,
    uri ∈ Ext_folders shouldIncludeFile maxFiles folders fileCount ->
    shouldIncludeFile uri = true.
Proof.
  induction folders as [|[dir node] rest IH]; intros fileCount uri;
    [by intros ?%elem_of_nil|].
  cbn [Ext_folders].
  pose proof (Ext_folder_included node dir fileCount uri) as Hn.
  destruct (Ext_folder shouldIncludeFile maxFiles dir node fileCount)
    as [[ys n] returned].
  destruct returned; [exact Hn|].
  intros [H|H]%elem_of_app; [by apply Hn|by eapply IH].
Qed.

End Ext.

Section P4.
Variable shouldIncludeFile : jsstring -> Res bool.
Variable maxFiles : Z.

Lemma P4_entries_included (dir : jsstring) (entries : list (jsstring * FsNode)) :
  forall fileCount stack uri,
    uri ∈ (P4_entries shouldIncludeFile maxFiles dir entries fileCount stack).1.1.1 ->
    shouldIncludeFile uri = Ok true.
Proof.
  induction entries as [|[name child] rest IH]; intros fileCount stack uri;
    [by intros ?%elem_of_nil|].
  cbn [P4_entries]. destruct child as [|sub| |]; try apply IH.
  destruct (shouldIncludeFile (join dir name)) as [[|]|] eqn:E;
    [|apply IH|by intros ?%elem_of_nil].
  destruct (maxFiles <? fileCount + 1); [by intros ?%elem_of_nil|].
  specialize (IH (fileCount + 1) stack uri).
  destruct (P4_entries _ _ dir rest (fileCount + 1) stack) as [[[ys n] st] status].
  intros [->|H]%elem_of_cons; [done|by apply IH].
Qed.

Lemma P4_while_included (fuel : nat) :
  forall stack fileCount uri,
    uri ∈ (P4_while shouldIncludeFile maxFiles fuel stack fileCount).1.1 ->
    shouldIncludeFile uri = Ok true.
Proof.
  induction fuel as [|fuel IH]; intros stack fileCount uri;
    [by intros ?%elem_of_nil|].
  cbn [P4_while]. destruct (reverse stack) as [|[dir node] below];
    [by intros ?%elem_of_nil|].
  destruct (fileCount <? maxFiles); [|by intros ?%elem_of_nil].
  destruct node as [|entries| |]; try apply IH.
  pose proof (P4_entries_included dir entries fileCount (reverse below) uri) as He.
  destruct (P4_entries _ _ dir entries fileCount (reverse below))
    as [[[ys n] st] status].
  specialize (IH st n uri).
  destruct (P4_while _ _ fuel st n) as [[ys' n'] returned].
  destruct status; cbn [fst snd] in *; try exact He;
    intros [H|H]%elem_of_app; auto.
Qed.

Lemma P4_folders_included (folders : list (jsstring * FsNode)) :
  forall fileCount uri,
    uri ∈ P4_folders shouldIncludeFile maxFiles folders fileCount ->
    shouldIncludeFile uri = Ok true.
Proof.
  induction folders as [|[dir node] rest IH]; intros fileCount uri;
    [by intros ?%elem_of_nil|].
  cbn [P4_folders].
  pose proof (P4_while_included (nodes node) [(dir, node)] fileCount uri) as Hw.
  destruct (P4_while _ _ (nodes node) [(dir, node)] fileCount)
    as [[ys n] returned].
  destruct returned; [exact Hw|].
  intros [H|H]%elem_of_app; [by apply Hw|by eapply IH].
Qed.

End P4.

(** X19.  [findFiles] yields nothing the inclusion filter rejects: every path it
    yields is a path for which [shouldIncludeFile] returned [true], in both
    revisions, whatever the tree, the limit and the order of the walk. *)
Theorem findFiles_yields_only_included
    (folders : list (jsstring * FsNode)) (maxFiles : Z) (uri : jsstring) :
  (forall shouldIncludeFile : jsstring -> bool,
     uri ∈ Ext_findFiles shouldIncludeFile maxFiles folders ->
     shouldIncludeFile uri = true) /\
  (forall shouldIncludeFile : jsstring -> Res bool,
     uri ∈ P4_findFiles shouldIncludeFile maxFiles folders ->
     shouldIncludeFile uri = Ok true).
Proof.
  split; intros shouldIncludeFile.
  - apply Ext_folders_included.
  - apply P4_folders_included.
Qed.

End BatchSchedulerYieldFacts.

(** ** The first revision *)

Module LegacyFacts.
Import ContentLoader ReviewFile Legacy.

Section Project.
Variable shouldIncludeFile : jsstring -> bool.
Variable reviewFile : jsstring -> FileReview.
Variable cancelled : nat -> bool.

Local Abbreviation included :=
  (filter (fun uri => shouldIncludeFile uri = true)).

Lemma slice_batch {A : Type} (i b : Z) (l : list A) :
  0 <= i -> 1 <= b ->
  JsString.slice i (i + b) l = take (Z.to_nat b) (drop (Z.to_nat i) l).
Proof.
  intros Hi Hb. unfold JsString.slice.
  destruct (Z.ltb_spec i 0); [lia|]. destruct (Z.ltb_spec (i + b) 0); [lia|].
  destruct (Z.le_gt_cases (Z.of_nat (length l)) i) as [Hout|Hin].
  - rewrite (Z.min_r i) by lia. rewrite Nat2Z.id, drop_all.
    rewrite (drop_ge l (Z.to_nat i)) by lia. by rewrite !take_nil.
  - rewrite (Z.min_l i) by lia.
    destruct (Z.le_gt_cases (i + b) (Z.of_nat (length l))).
    + rewrite Z.min_l by lia. f_equal. lia.
    + rewrite Z.min_r by lia.
      rewrite !take_ge; [done|rewrite length_drop; lia..].
Qed.

Lemma Old_batches_all (fuel : nat) (files : list jsstring) (batchSize : Z)
    (turn : nat) (i : Z) (reviews : list FileReview) :
  1 <= batchSize -> 0 <= i ->
  (forall t, cancelled t = false) ->
  Z.max 0 (Z.of_nat (length files) - i) < Z.of_nat fuel ->
  Old_batches shouldIncludeFile reviewFile cancelled fuel files batchSize turn i reviews =
    Some (reviews ++ (reviewFile <$> included (drop (Z.to_nat i) files))).
Proof.
  intros Hb Hi Hc. revert turn i reviews Hi.
  induction fuel as [|fuel IH]; intros turn i reviews Hi Hf.
  - lia.
  - cbn [Old_batches]. rewrite Hc. cbn [negb]. rewrite andb_true_r.
    destruct (Z.ltb_spec i (Z.of_nat (length files))) as [Hin|Hout].
    + rewrite IH by lia. f_equal. rewrite <- app_assoc. f_equal.
      rewrite <- fmap_app. f_equal. rewrite slice_batch by done.
      rewrite <- filter_app. f_equal.
      replace (Z.to_nat (i + batchSize)) with (Z.to_nat i + Z.to_nat batchSize)%nat
        by lia.
      by rewrite <- drop_drop, take_drop.
    + rewrite drop_ge by lia. by rewrite app_nil_r.
Qed.

Lemma Old_batches_forever (fuel : nat) (files : list jsstring) (batchSize : Z)
    (turn : nat) (i : Z) (reviews : list FileReview) :
  batchSize <= 0 -> i <= 0 -> files <> [] ->
  (forall t, cancelled t = false) ->
  Old_batches shouldIncludeFile reviewFile cancelled fuel files batchSize turn i reviews =
    None.
Proof.
  intros Hb Hi Hne Hc. revert turn i reviews Hi.
  induction fuel as [|fuel IH]; intros turn i reviews Hi; [done|].
  cbn [Old_batches]. rewrite Hc. cbn [negb]. rewrite andb_true_r.
  destruct (Z.ltb_spec i (Z.of_nat (length files))) as [Hin|Hout].
  - apply IH. lia.
  - destruct files; [done|]. cbn [length] in Hout. lia.
Qed.

End Project.

(** X20.  The batch loop of the first revision.  With a batch size of at least
    one and no cancellation it ends, and it has reviewed each file that the
    filter accepts exactly once, in the order of the list, whatever the batch
    size.  With a batch size of zero or less it never ends when there is a
    file: no amount of fuel lets it return. *)
Theorem Old_reviewProject_batches
    (shouldIncludeFile : jsstring -> bool) (reviewFile : jsstring -> FileReview)
    (files : list jsstring) (batchSize : Z) :
  (1 <= batchSize ->
   forall fuel, (length files < fuel)%nat ->
     Old_reviews shouldIncludeFile reviewFile (fun _ => false) fuel files batchSize =
       Some (reviewFile <$>
               filter (fun uri => shouldIncludeFile uri = true) files)) /\
  (batchSize <= 0 -> files <> [] ->
   forall fuel,
     Old_reviews shouldIncludeFile reviewFile (fun _ => false) fuel files batchSize =
       None).
Proof.
  split.
  - intros Hb fuel Hf. unfold Old_reviews.
    rewrite Old_batches_all; [done|done|lia|done|lia].
  - intros Hb Hne fuel. unfold Old_reviews.
    by apply Old_batches_forever.
Qed.

(** Three files in batches of two; and with a batch size of zero. *)
Lemma Old_reviewProject_batches_witness :
  let review := fun uri =>
    {| uri := uri; content := []; review := js "ok"; suggestedChanges := None;
       issues := None; relatedFiles := None |} in
  Old_reviews (fun _ => true) review (fun _ => false) 4
    WorkerPool.threeFiles 2 = Some (review <$> WorkerPool.threeFiles) /\
  Old_reviews (fun _ => true) review (fun _ => false) 1000
    WorkerPool.threeFiles 0 = None.
Proof.
  intros review.
  destruct (Old_reviewProject_batches (fun _ => true) review
              WorkerPool.threeFiles 2) as [H1 _].
  destruct (Old_reviewProject_batches (fun _ => true) review
              WorkerPool.threeFiles 0) as [_ H2].
  split.
  - rewrite H1; [reflexivity|lia|cbn; lia].
  - apply H2; [lia|done].
Defined.

(** X21.  [reviewFile] of the first revision tells a failed read from a text by
    its first words.  A file that cannot be read is not sent to the backend,
    and the error text is its review; but so is a file that was read and whose
    text starts with [Error reading file]: it is not sent either, and its own
    text is returned as the review.  Whenever the backend is asked, the file
    was read and its text is at most [maxFileSize] code units long. *)
Theorem Old_reviewFile_reads_errors_off_the_text
    (decode : list N -> jsstring) (fs : FileSystem)
    (extname : jsstring -> jsstring) (getLLMResponse : jsstring -> Res jsstring)
    (maxFileSize : Z) (uri : jsstring) :
  let run := Old_reviewFile decode fs extname getLLMResponse maxFileSize uri in
  (forall error, readFile fs uri = Throw error ->
     run.2 = [] /\
     review run.1 = js "Error reading file " ++ uri ++ js ": " ++ message error) /\
  (forall bytes rest, readFile fs uri = Ok bytes ->
     decode bytes = js "Error reading file" ++ rest ->
     run.2 = [] /\ review run.1 = decode bytes) /\
  (run.2 <> [] ->
     exists bytes, readFile fs uri = Ok bytes /\
       content run.1 = decode bytes /\
       Z.of_nat (length (decode bytes)) <= maxFileSize /\
       run.2 = [Old_prompt extname uri (decode bytes)]).
Proof.
  intros run. subst run. unfold Old_reviewFile, Old_readFileContent.
  assert (forall rest, JsString.startsWith (js "Error reading file")
            (js "Error reading file" ++ rest) = true) as Hstart.
  { intros rest. unfold JsString.startsWith.
    rewrite IssueFacts.strip_app. by apply bool_decide_eq_true. }
  split; [|split].
  - intros error ->.
    change (js "Error reading file " ++ uri ++ js ": " ++ message error)
      with (js "Error reading file" ++ (js " " ++ uri ++ js ": " ++ message error)).
    by rewrite Hstart.
  - intros bytes rest -> ->. by rewrite Hstart.
  - destruct (readFile fs uri) as [bytes|error].
    + destruct (JsString.startsWith _ _); [done|].
      destruct (Z.ltb_spec maxFileSize (Z.of_nat (length (decode bytes)))); [done|].
      intros _. exists bytes. by destruct (getLLMResponse _).
    + change (js "Error reading file " ++ uri ++ js ": " ++ message error)
        with (js "Error reading file" ++ (js " " ++ uri ++ js ": " ++ message error)).
      by rewrite Hstart.
Qed.

End LegacyFacts.

(** ** Provider setup: what a returned provider has passed *)

Module ProviderSetupReturnFacts.
Import ProviderSetup ProviderExamples.

Lemma secretOrAsk_Some (key : jsstring) (w w' : World) (value : jsstring)
    (evs : list Event) :
  secretOrAsk key w = (Some value, w', evs) ->
  secrets w' !! key = Some value /\ llmProvider w' = llmProvider w.
Proof.
  unfold secretOrAsk. intros H.
  repeat case_match; simplify_eq; cbn; try done;
    by rewrite lookup_insert_eq.
Qed.

Lemma connect_Ok (provider p : Provider) (failure : jsstring) (w w' : World)
    (evs : list Event) :
  connect provider failure w = (Ok p, w', evs) ->
  p = provider /\ evs = [EvTestConnection provider] /\
  secrets w' = secrets w /\ llmProvider w' = llmProvider w.
Proof.
  unfold connect. destruct (default false (head (tests w))); intros H; by simplify_eq.
Qed.

Lemma attempt_Ok (config : Config) (w w' : World) (provider : Provider)
    (evs : list Event) :
  attempt config w = (Ok provider, w', evs) ->
  last evs = Some (EvTestConnection provider) /\ checked config w' provider.
Proof.
  unfold attempt. intros H.
  case_bool_decide as Hopenai; [|case_bool_decide as Hollama].
  - destruct (secretOrAsk _ w) as [[[apiKey|] w1] evs1] eqn:Hask; [|done].
    apply secretOrAsk_Some in Hask as [Hsecret Hprov].
    unfold validateApiKey in H.
    destruct (bool_decide (apiKey = []) || _) eqn:Hvalid; [done|].
    apply orb_false_iff in Hvalid as [_ Hsk%negb_false_iff].
    destruct (connect _ _ w1) as [[r w2] evs2] eqn:Hconnect. simplify_eq.
    apply connect_Ok in Hconnect as (-> & -> & Hsec & Hp).
    split; [by rewrite last_snoc|]. cbn. rewrite Hsec, Hp, Hprov. done.
  - apply connect_Ok in H as (-> & -> & Hsec & Hp). cbn. by rewrite Hp.
  - destruct (secretOrAsk _ w) as [[[apiToken|] w1] evs1] eqn:Hask; [|done].
    apply secretOrAsk_Some in Hask as [Hsecret Hprov].
    unfold validateToken in H.
    destruct (bool_decide (apiToken = []) || _) eqn:Hvalid; [done|].
    apply orb_false_iff in Hvalid as [_ Hlen%Nat.ltb_ge].
    destruct (connect _ _ w1) as [[r w2] evs2] eqn:Hconnect. simplify_eq.
    apply connect_Ok in Hconnect as (-> & -> & Hsec & Hp).
    split; [by rewrite last_snoc|]. cbn. rewrite Hsec, Hp, Hprov. done.
Qed.

Lemma while_Ok (fuel : nat) (config : Config) (maxRetries attempts : Z)
    (w w' : World) (provider : Provider) (evs : list Event) :
  while fuel config maxRetries attempts w = Some (Ok provider, w', evs) ->
  last evs = Some (EvTestConnection provider) /\ checked config w' provider /\
  attempts < maxRetries.
Proof.
  revert attempts w evs. induction fuel as [|fuel IH]; intros attempts w evs; [done|].
  cbn [while]. destruct (Z.ltb_spec attempts maxRetries); [|done].
  destruct (attempt config w) as [[[p|error] w1] evs1] eqn:Hattempt.
  - intros [= -> -> ->]. apply attempt_Ok in Hattempt as [? ?]. done.
  - destruct (recover _ _ _ _) as [[[attempts'|error'] w2] evs2]; [|done].
    destruct (while fuel _ _ _ _) as [[[r w3] evs3]|] eqn:Hwhile; [|done].
    cbn. intros [= -> -> <-].
    apply IH in Hwhile as (Hlast & Hchecked & _).
    split; [|done].
    rewrite !app_assoc. destruct evs3 as [|e evs3 _] using rev_ind; [done|].
    rewrite last_snoc in Hlast. by rewrite app_assoc, last_snoc.
Qed.

(** X22.  A provider that [getLLMProvider] returns has passed its checks: it
    is the provider of the configured kind (after any switch), the last thing
    the call did was its connection test, which succeeded; an OpenAI key
    starts with [sk-] and a Flowise token has at least ten code units, and
    either is the secret now stored under its name.  So the token test
    at the head of [FlowiseProvider.getResponse] cannot fail for it.  With
    [maxRetries] of zero or less no provider is returned at all. *)
Theorem getLLMProvider_returns_checked_provider
    (fuel : nat) (config : Config) (maxRetries : Z) (w w' : World)
    (provider : Provider) (evs : list Event) :
  getLLMProvider fuel config maxRetries w = Some (Ok provider, w', evs) ->
  last evs = Some (EvTestConnection provider) /\
  checked config w' provider /\
  1 <= maxRetries /\
  (forall stringify url token outcome,
     provider = FlowiseProvider url token ->
     BackendAdapter.Flowise_getResponse stringify url token outcome <>
       Throw (mkError (js "Flowise API token is invalid or missing"))).
Proof.
  intros (Hlast & Hchecked & Hretries)%while_Ok.
  split; [done|]. split; [done|]. split; [lia|].
  intros stringify url token outcome ->.
  destruct Hchecked as (_ & _ & _ & Hlen & _).
  destruct token as [|c token]; [cbn in Hlen; lia|].
  cbn. destruct outcome as [status data|status code msg]; [done|].
  repeat case_bool_decide; intros [= Heq]; by vm_compute in Heq.
Qed.

(** Flowise with a stored token, and a server that answers. *)
Lemma getLLMProvider_returns_checked_provider_witness :
  exists w' evs,
    getLLMProvider 1 defaults 2 storedToken =
      Some (Ok (FlowiseProvider (flowiseUrl defaults) (js "flow-0123456789")),
            w', evs) /\
    last evs = Some (EvTestConnection
                       (FlowiseProvider (flowiseUrl defaults) (js "flow-0123456789"))) /\
    secrets w' !! js "flowiseApiToken" = Some (js "flow-0123456789").
Proof.
  set (provider := FlowiseProvider (flowiseUrl defaults) (js "flow-0123456789")).
  set (w' := {| secrets := secrets storedToken; llmProvider := js "flowise";
                inputs := []; tests := []; actions := []; picks := [] |}).
  assert (getLLMProvider 1 defaults 2 storedToken =
            Some (Ok provider, w', [EvTestConnection provider])) as Hrun
    by (by vm_compute).
  exists w', [EvTestConnection provider]. split; [exact Hrun|].
  destruct (getLLMProvider_returns_checked_provider _ _ _ _ _ _ _ Hrun)
    as (Hlast & Hchecked & _).
  split; [exact Hlast|]. by destruct Hchecked as (_ & _ & _ & _ & Hsecret).
Defined.

End ProviderSetupReturnFacts.

(** ** Backend adapters: what they return and what they throw *)

Module BackendAdapterResultFacts.
Import BackendAdapter.

Lemma or_empty_string (v : Value) :
  truthy (or v (Some (JStr []))) = true \/ or v (Some (JStr [])) = Some (JStr []).
Proof. unfold or. destruct (truthy v) eqn:E; [by left|by right]. Qed.

Lemma or_truthy (v w : Value) : truthy v = true -> or v w = v.
Proof. unfold or. by intros ->. Qed.

Lemma field_here (name : jsstring) (j : JSON) :
  field name [(name, j)] = Some j.
Proof. cbn. by rewrite bool_decide_eq_true_2. Qed.

(** X23.  What the three adapters hand back.  A value they return is truthy
    or the empty string, never [undefined] or [null]; but it need not be a
    string: a truthy reply field of any type is returned as it is.  An error
    of the Ollama adapter always starts with [Ollama API error: ].  An error
    of the OpenAI adapter starts with [OpenAI API error: ], also when it comes
    from reading a reply of an unexpected shape, with one exception: the
    status 401 gives the fixed message [Invalid OpenAI API key. Please update
    your key in settings.], which has no such prefix.  The Flowise adapter
    throws only without a token or when the request fails. *)
Theorem getResponse_values_and_errors
    (stringify : JSON -> jsstring) (url token : jsstring) :
  (forall outcome v,
     Flowise_getResponse stringify url token outcome = Ok v \/
     OpenAI_getResponse outcome = Ok v \/ Ollama_getResponse outcome = Ok v ->
     truthy v = true \/ v = Some (JStr [])) /\
  (forall status j, truthy (Some j) = true ->
     (token <> [] ->
      Flowise_getResponse stringify url token
        (Resolved status (Some (JObj [(js "text", j)]))) = Ok (Some j)) /\
     OpenAI_getResponse
       (Resolved status
          (Some (JObj [(js "choices",
             JArr [JObj [(js "message", JObj [(js "content", j)])]])])))
       = Ok (Some j) /\
     Ollama_getResponse (Resolved status (Some (JObj [(js "response", j)])))
       = Ok (Some j)) /\
  (forall outcome error, OpenAI_getResponse outcome = Throw error ->
     (exists code msg,
        outcome = Rejected (Some 401) code msg /\
        message error =
          js "Invalid OpenAI API key. Please update your key in settings.") \/
     (exists why, message error = js "OpenAI API error: " ++ why)) /\
  (forall code msg,
     OpenAI_getResponse (Rejected (Some 401) code msg) =
       Throw (mkError (js "Invalid OpenAI API key. Please update your key in settings."))) /\
  (forall outcome error, Ollama_getResponse outcome = Throw error ->
     exists why, message error = js "Ollama API error: " ++ why) /\
  (forall outcome error,
     Flowise_getResponse stringify url token outcome = Throw error ->
     token = [] \/ exists status code msg, outcome = Rejected status code msg).
Proof.
  split; [|split; [|split; [|split; [|split]]]].
  - intros outcome v [H|[H|H]].
    + unfold Flowise_getResponse in H. destruct token; [done|].
      destruct outcome; [|by repeat case_bool_decide].
      cbv beta iota in H. injection H as <-. apply or_empty_string.
    + unfold OpenAI_getResponse in H. destruct outcome; [|by case_bool_decide].
      destruct (bindR _ _); [|done]. injection H as <-. apply or_empty_string.
    + unfold Ollama_getResponse in H. destruct outcome; [|done].
      destruct (get _ _); [|done]. injection H as <-. apply or_empty_string.
  - intros status j Hj. split; [|split].
    + intros Htoken. unfold Flowise_getResponse. destruct token; [done|].
      unfold get_opt. rewrite field_here. by rewrite !(or_truthy (Some j)) by done.
    + unfold OpenAI_getResponse, get. rewrite field_here. cbn [bindR index0 head].
      rewrite field_here. cbn [bindR]. rewrite field_here.
      by rewrite (or_truthy (Some j)) by done.
    + unfold Ollama_getResponse, get. rewrite field_here. by rewrite (or_truthy (Some j)) by done.
  - intros outcome error H. unfold OpenAI_getResponse in H.
    destruct outcome.
    + destruct (bindR _ _); [done|]. injection H as <-. right. by eexists.
    + case_bool_decide as Hs; injection H as <-; [|right; by eexists].
      left. subst. by eexists _, _.
  - intros code msg. unfold OpenAI_getResponse.
    by rewrite bool_decide_eq_true_2.
  - intros outcome error H. unfold Ollama_getResponse in H.
    destruct outcome; [destruct (get _ _); [done|]|]; injection H as <-; by eexists.
  - intros outcome error H. unfold Flowise_getResponse in H.
    destruct token; [by left|]. destruct outcome; [done|]. right. by eexists _, _, _.
Qed.

End BackendAdapterResultFacts.

(** ** Batch Scheduler: below the limit no file is missed *)

Module FileWalkFacts.
Import BatchScheduler FileWalk.

Lemma files_dir (dir : jsstring) (entries : list (jsstring * FsNode)) :
  files dir (FsDir entries) = entries_files dir entries.
Proof.
  cbn [files]. induction entries as [|[name child] rest IH]; [done|].
  cbn [entries_files]. by rewrite IH.
Qed.

Lemma workspace_files_app (s1 s2 : list (jsstring * FsNode)) :
  workspace_files (s1 ++ s2) = workspace_files s1 ++ workspace_files s2.
Proof. apply bind_app. Qed.

Lemma workspace_files_one (dir : jsstring) (node : FsNode) :
  workspace_files [(dir, node)] = files dir node.
Proof. unfold workspace_files. cbn. by rewrite app_nil_r. Qed.

Lemma accepted_app (accept : jsstring -> bool) (a b : list jsstring) :
  accepted accept (a ++ b) = accepted accept a ++ accepted accept b.
Proof. apply filter_app. Qed.

Lemma accepted_cons (accept : jsstring -> bool) (uri : jsstring)
    (uris : list jsstring) :
  accepted accept (uri :: uris) =
    if accept uri then uri :: accepted accept uris else accepted accept uris.
Proof.
  unfold accepted. rewrite filter_cons.
  destruct (accept uri); [by rewrite decide_True|by rewrite decide_False].
Qed.

Lemma accepted_nil (accept : jsstring -> bool) (uris : list jsstring) :
  length (accepted accept uris) = 0%nat -> accepted accept uris = [].
Proof. apply nil_length_inv. Qed.

(** A directory holds its own files and those of its subdirectories. *)
Lemma entries_files_split (dir : jsstring) (entries : list (jsstring * FsNode)) :
  entries_files dir entries ≡ₚ
    direct dir entries ++ workspace_files (subdirs dir entries).
Proof.
  induction entries as [|[name child] rest IH]; [done|].
  cbn [entries_files direct subdirs]. destruct child as [|sub| |].
  - cbn. by rewrite IH.
  - change (workspace_files ((join dir name, FsDir sub) :: subdirs dir rest))
      with (files (join dir name) (FsDir sub) ++ workspace_files (subdirs dir rest)).
    rewrite IH. by rewrite Permutation_app_swap_app.
  - cbn. exact IH.
  - cbn. exact IH.
Qed.

Section Ext.
Variable accept : jsstring -> bool.
Variable maxFiles : Z.

Lemma Ext_folder_all (node : FsNode) :
  forall dir fileCount,
    0 <= fileCount ->
    fileCount + Z.of_nat (length (accepted accept (files dir node))) <= maxFiles ->
    let run := Ext_folder accept maxFiles dir node fileCount in
    run.1.1 = accepted accept (files dir node) /\
    fileCount <= run.1.2 <= fileCount + Z.of_nat (length run.1.1) /\
    (run.2 = true -> maxFiles <= run.1.2).
Proof.
  induction node as [|entries IH| |] using BatchSchedulerYieldFacts.FsNode_tree_ind;
    intros dir fileCount Hpos Hroom; try (cbn; split; [done|split; [lia|done]]).
  rewrite files_dir in *. cbn [Ext_folder]. revert fileCount Hpos Hroom.
  induction entries as [|[name child] rest IHrest]; intros fileCount Hpos Hroom.
  { cbn. split; [done|split; [lia|done]]. }
  apply Forall_cons in IH as [Hchild Hrest]. specialize (IHrest Hrest).
  cbn [entries_files] in *. rewrite accepted_app, length_app in Hroom.
  rewrite accepted_app.
  destruct (Z.leb_spec maxFiles fileCount) as [Hfull|Hfree].
  { cbn [fst snd].
    rewrite (accepted_nil accept (match child with FsFile => _ | _ => _ end)) by lia.
    rewrite (accepted_nil accept (entries_files dir rest)) by lia.
    split; [done|]. split; [cbn; lia|done]. }
  destruct child as [|sub| |].
  - rewrite accepted_cons in *. change (accepted accept []) with (@nil jsstring) in *.
    destruct (accept (join dir name)) eqn:E.
    + cbn [length app] in *.
      specialize (IHrest (fileCount + 1)).
      match type of IHrest with
      | context [?loop rest (fileCount + 1)] =>
          destruct (loop rest (fileCount + 1)) as [[ys n] returned]
      end.
      cbn [fst snd length] in *.
      destruct IHrest as (-> & ? & ?); [lia|lia|]. split; [done|]. split; [lia|done].
    + cbn [length app] in *. apply IHrest; [lia|lia].
  - cbn [snd] in Hchild.
    destruct (Hchild (join dir name) 0) as (Hnested & _); [lia|lia|].
    specialize (IHrest fileCount).
    match type of IHrest with
    | context [?loop rest fileCount] =>
        destruct (loop rest fileCount) as [[ys n] returned]
    end.
    cbn [fst snd] in *.
    destruct IHrest as (-> & ? & ?); [lia|lia|].
    rewrite Hnested. split; [done|]. rewrite length_app. split; [lia|done].
  - specialize (IHrest fileCount).
    match type of IHrest with
    | context [?loop rest fileCount] =>
        destruct (loop rest fileCount) as [[ys n] returned]
    end.
    cbn [fst snd] in *. cbn in Hroom.
    destruct IHrest as (-> & ? & ?); [lia|lia|]. cbn. split; [done|]. split; [lia|done].
  - cbn in Hroom |- *. apply IHrest; [lia|lia].
Qed.

Lemma Ext_folders_all (folders : list (jsstring * FsNode)) :
  forall fileCount,
    0 <= fileCount ->
    fileCount + Z.of_nat (length (accepted accept (workspace_files folders)))
      <= maxFiles ->
    Ext_folders accept maxFiles folders fileCount =
      accepted accept (workspace_files folders).
Proof.
  induction folders as [|[dir node] rest IH]; intros fileCount Hpos Hroom; [done|].
  change (workspace_files ((dir, node) :: rest))
    with (files dir node ++ workspace_files rest) in *.
  rewrite accepted_app in *. rewrite length_app in Hroom.
  cbn [Ext_folders].
  destruct (Ext_folder_all node dir fileCount) as (Hys & Hn & Hreturned);
    [lia|lia|].
  destruct (Ext_folder accept maxFiles dir node fileCount) as [[ys n] returned].
  cbn [fst snd] in *. subst ys.
  destruct returned.
  - specialize (Hreturned eq_refl).
    rewrite (accepted_nil accept (workspace_files rest)) by lia.
    by rewrite app_nil_r.
  - f_equal. apply IH; lia.
Qed.

End Ext.
Section P4.
Variable accept : jsstring -> bool.
Variable shouldIncludeFile : jsstring -> Res bool.
Variable maxFiles : Z.

(** The filter answers on these files, and never throws. *)
Local Abbreviation answers uris :=
  (forall uri, uri ∈ uris -> shouldIncludeFile uri = Ok (accept uri)).

Lemma P4_entries_all (dir : jsstring) (entries : list (jsstring * FsNode)) :
  forall fileCount stack,
    answers (direct dir entries) ->
    fileCount + Z.of_nat (length (accepted accept (direct dir entries)))
      <= maxFiles ->
    P4_entries shouldIncludeFile maxFiles dir entries fileCount stack =
      (accepted accept (direct dir entries),
       fileCount + Z.of_nat (length (accepted accept (direct dir entries))),
       stack ++ subdirs dir entries, Completed).
Proof.
  induction entries as [|[name child] rest IH]; intros fileCount stack Hok Hroom.
  { cbn. by rewrite Z.add_0_r, app_nil_r. }
  cbn [P4_entries direct subdirs]. destruct child as [|sub| |].
  - cbn [direct] in Hok, Hroom. rewrite accepted_cons in *.
    rewrite (Hok (join dir name)) by apply list_elem_of_here.
    assert (answers (direct dir rest)) as Hok'
      by (intros uri Huri; apply Hok; by apply list_elem_of_further).
    destruct (accept (join dir name)).
    + cbn [length] in *.
      destruct (Z.ltb_spec maxFiles (fileCount + 1)); [lia|].
      rewrite (IH (fileCount + 1) stack) by (done || lia).
      do 3 f_equal. lia.
    + by apply IH.
  - rewrite (IH fileCount (stack ++ [(join dir name, FsDir sub)])) by done.
    by rewrite <- app_assoc.
  - rewrite (IH fileCount (stack ++ [(join dir name, FsUnreadable)])) by done.
    by rewrite <- app_assoc.
  - by apply IH.
Qed.

Lemma P4_while_all (fuel : nat) :
  forall stack fileCount,
    (stack_nodes stack <= fuel)%nat ->
    answers (workspace_files stack) ->
    fileCount + Z.of_nat (length (accepted accept (workspace_files stack)))
      <= maxFiles ->
    exists ys,
      P4_while shouldIncludeFile maxFiles fuel stack fileCount =
        (ys, fileCount + Z.of_nat (length ys), false) /\
      ys ≡ₚ accepted accept (workspace_files stack).
Proof.
  induction fuel as [|fuel IH]; intros stack fileCount Hfuel Hok Hroom.
  { assert (stack = []) as -> by (apply BatchSchedulerFacts.stack_nodes_0; lia).
    exists []. cbn. by rewrite Z.add_0_r. }
  cbn [P4_while].
  destruct (reverse stack) as [|[dir node] below] eqn:Er.
  { exists []. assert (stack = []) as ->.
    { rewrite <- (reverse_involutive stack), Er. done. }
    cbn. by rewrite Z.add_0_r. }
  assert (stack = reverse below ++ [(dir, node)]) as ->.
  { rewrite <- (reverse_involutive stack), Er. by rewrite reverse_cons. }
  rewrite workspace_files_app, workspace_files_one in *.
  rewrite accepted_app in *. rewrite length_app in Hroom.
  rewrite BatchSchedulerFacts.stack_nodes_app in Hfuel.
  change (stack_nodes [(dir, node)]) with (nodes node + 0)%nat in Hfuel.
  destruct (Z.ltb_spec fileCount maxFiles) as [Hfree|Hfull]; cycle 1.
  { exists []. cbn [length]. rewrite Z.add_0_r. split; [done|].
    rewrite (accepted_nil accept (workspace_files (reverse below))) by lia.
    by rewrite (accepted_nil accept (files dir node)) by lia. }
  assert (forall st, (stack_nodes st <= fuel)%nat ->
            answers (workspace_files st) ->
            accepted accept (workspace_files st) ≡ₚ
              accepted accept (workspace_files (reverse below)) ->
            files dir node = [] ->
            exists ys,
              P4_while shouldIncludeFile maxFiles fuel st fileCount =
                (ys, fileCount + Z.of_nat (length ys), false) /\
              ys ≡ₚ accepted accept (workspace_files (reverse below)) ++
                    accepted accept (files dir node)) as Hskip.
  { intros st Hst Hst_ok Hsame Hnone.
    destruct (IH st fileCount Hst Hst_ok) as (ys & Hrun & Hys).
    - rewrite Hsame. rewrite Hnone in Hroom. cbn in Hroom. lia.
    - exists ys. split; [done|]. rewrite Hnone. cbn. by rewrite app_nil_r, Hys, Hsame. }
  pose proof (BatchSchedulerFacts.nodes_pos node) as Hpos.
  assert (answers (workspace_files (reverse below))) as Hbelow
    by (intros uri Huri; apply Hok, elem_of_app; by left).
  destruct node as [|entries| |];
    try (apply Hskip; [lia|done|done|done]).
  rewrite files_dir in *.
  pose proof (entries_files_split dir entries) as Hsplit.
  assert (accepted accept (entries_files dir entries) ≡ₚ
            accepted accept (direct dir entries) ++
            accepted accept (workspace_files (subdirs dir entries))) as Hacc.
  { unfold accepted. rewrite Hsplit. by rewrite filter_app. }
  pose proof (Permutation_length Hacc) as Hlen. rewrite length_app in Hlen.
  pose proof (BatchSchedulerFacts.P4_entries_stack shouldIncludeFile maxFiles
                dir entries fileCount (reverse below)) as Hstack.
  rewrite P4_entries_all in Hstack |- *; cycle 1.
  { intros uri Huri. apply Hok, elem_of_app. right.
    rewrite Hsplit. apply elem_of_app. by left. }
  { lia. }
  { intros uri Huri. apply Hok, elem_of_app. right.
    rewrite Hsplit. apply elem_of_app. by left. }
  { lia. }
  cbn [fst snd] in Hstack. rewrite BatchSchedulerFacts.nodes_dir in Hfuel.
  destruct (IH (reverse below ++ subdirs dir entries)
              (fileCount + Z.of_nat (length (accepted accept (direct dir entries)))))
    as (ys & -> & Hys).
  - lia.
  - rewrite workspace_files_app. intros uri [Huri|Huri]%elem_of_app.
    + by apply Hbelow.
    + apply Hok, elem_of_app. right. rewrite Hsplit. apply elem_of_app. by right.
  - rewrite workspace_files_app, accepted_app, length_app. lia.
  - eexists. split.
    + f_equal. f_equal. rewrite length_app. lia.
    + rewrite Hys, workspace_files_app, accepted_app, Hacc.
      apply Permutation_app_swap_app.
Qed.

Lemma P4_folders_all (folders : list (jsstring * FsNode)) :
  forall fileCount,
    answers (workspace_files folders) ->
    fileCount + Z.of_nat (length (accepted accept (workspace_files folders)))
      <= maxFiles ->
    P4_folders shouldIncludeFile maxFiles folders fileCount ≡ₚ
      accepted accept (workspace_files folders).
Proof.
  induction folders as [|[dir node] rest IH]; intros fileCount Hok Hroom; [done|].
  change (workspace_files ((dir, node) :: rest))
    with (files dir node ++ workspace_files rest) in *.
  rewrite accepted_app in *. rewrite length_app in Hroom.
  cbn [P4_folders].
  destruct (P4_while_all (nodes node) [(dir, node)] fileCount) as (ys & -> & Hys).
  - change (stack_nodes [(dir, node)]) with (nodes node + 0)%nat. lia.
  - rewrite workspace_files_one. intros uri Huri. apply Hok, elem_of_app. by left.
  - rewrite workspace_files_one. lia.
  - rewrite workspace_files_one in Hys.
    pose proof (Permutation_length Hys) as Hlen.
    rewrite (IH (fileCount + Z.of_nat (length ys))), Hys; [done| |lia].
    intros uri Huri. apply Hok, elem_of_app. by right.
Qed.

End P4.

(** X24.  When the files the filter accepts are no more than [maxFiles], no
    file is missed: [findFiles] of extension.ts yields every accepted file
    of the workspace once, in the order of a depth-first walk; so does
    [findFiles] of part_004, in another order, when its filter gives the same
    answers and throws on no file of the workspace. *)
Theorem findFiles_below_limit_yields_every_file
    (accept : jsstring -> bool) (shouldIncludeFile : jsstring -> Res bool)
    (maxFiles : Z) (folders : list (jsstring * FsNode)) :
  Z.of_nat (length (accepted accept (workspace_files folders))) <= maxFiles ->
  (forall uri, uri ∈ workspace_files folders ->
     shouldIncludeFile uri = Ok (accept uri)) ->
  Ext_findFiles accept maxFiles folders =
    accepted accept (workspace_files folders) /\
  P4_findFiles shouldIncludeFile maxFiles folders ≡ₚ
    accepted accept (workspace_files folders).
Proof.
  intros Hroom Hok. split.
  - apply Ext_folders_all; [done|lia].
  - apply P4_folders_all; [done|lia].
Qed.

(** The two directories of one file each, with room for two files. *)
Lemma findFiles_below_limit_yields_every_file_witness :
  Ext_findFiles Ext_defaultFilter 2 [(root, twoDirectories)] =
    [js "/w/a/x.ts"; js "/w/b/y.ts"] /\
  P4_findFiles P4_defaultFilter 2 [(root, twoDirectories)] ≡ₚ
    [js "/w/a/x.ts"; js "/w/b/y.ts"].
Proof.
  assert (accepted Ext_defaultFilter (workspace_files [(root, twoDirectories)])
            = [js "/w/a/x.ts"; js "/w/b/y.ts"]) as Hacc by (by vm_compute).
  rewrite <- Hacc.
  apply (findFiles_below_limit_yields_every_file Ext_defaultFilter
           P4_defaultFilter 2 [(root, twoDirectories)]).
  - rewrite Hacc. cbn. lia.
  - intros uri Huri.
    assert (workspace_files [(root, twoDirectories)] =
              [js "/w/a/x.ts"; js "/w/b/y.ts"]) as Hfiles by (by vm_compute).
    rewrite Hfiles in Huri.
    apply elem_of_cons in Huri as [->|Huri]; [by vm_compute|].
    apply elem_of_cons in Huri as [->|Huri]; [by vm_compute|].
    by apply elem_of_nil in Huri.
Defined.

End FileWalkFacts.

(** ** Real-time code access: one timer per file *)

Module DebounceFacts.
Import Debounce.

Lemma elem_of_without (timer : nat) (timers : list (nat * jsstring))
    (p : nat * jsstring) :
  p ∈ without timer timers <-> p.1 <> timer /\ p ∈ timers.
Proof. unfold without. by rewrite list_elem_of_filter. Qed.

Lemma without_NoDup (timer : nat) (timers : list (nat * jsstring)) :
  NoDup timers.*1 -> NoDup (without timer timers).*1.
Proof.
  intros H. eapply sublist_NoDup; [exact H|].
  apply fmap_sublist, sublist_filter.
Qed.

Lemma find_timer_Some (timer : nat) (timers : list (nat * jsstring))
    (key : jsstring) :
  find_timer timer timers = Some key -> (timer, key) ∈ timers.
Proof.
  unfold find_timer. destruct (list_find _ timers) as [[i [t k]]|] eqn:E; [|done].
  apply list_find_Some in E as (Hi & Ht & _). cbn in *. intros [= <-]. subst t.
  by eapply list_elem_of_lookup_2.
Qed.

(** Clearing every registered timer. *)
Lemma clear_registered (entries : list (jsstring * nat))
    (timers : list (nat * jsstring)) (p : nat * jsstring) :
  p ∈ foldr (fun entry timers => clearTimeout entry.2 timers) timers entries ->
  p ∈ timers /\ forall entry, entry ∈ entries -> entry.2 <> p.1.
Proof.
  induction entries as [|entry entries IH]; cbn [foldr].
  - intros H. split; [done|]. by intros entry ?%elem_of_nil.
  - intros [Hne [Hp Hall]%IH]%elem_of_without. split; [done|].
    intros e [->|He]%elem_of_cons; [done|by apply Hall].
Qed.

Lemma registered_init : registered init.
Proof.
  split; [|split].
  - by intros timer key ?%elem_of_nil.
  - constructor.
  - by intros timer key ?%elem_of_nil.
Qed.

Lemma pending_for_nil (key : jsstring) (st : State) (timer : nat) :
  pending_for key st = [] -> (timer, key) ∉ pending st.
Proof.
  unfold pending_for. intros H Hin.
  assert ((timer, key) ∈ filter (fun p : nat * jsstring => p.2 = key) (pending st))
    as Hf by (by apply list_elem_of_filter).
  apply (list_elem_of_fmap_2 fst) in Hf. rewrite H in Hf. by apply elem_of_nil in Hf.
Qed.

Lemma step_registered (s : Step) (st : State) :
  registered st -> quiet_step s st -> registered (step s st).
Proof.
  intros (Hreg & Hnodup & Hfresh) Hquiet. destruct s as [key|timer|timer ok|].
  - (* Call *)
    cbn [step].
    set (kept := match debounceTimers st !! key with
                 | Some old => clearTimeout old (pending st)
                 | None => pending st
                 end).
    assert (forall p, p ∈ kept -> p ∈ pending st /\ p.2 <> key) as Hkept.
    { intros [t k] Hp. subst kept.
      destruct (debounceTimers st !! key) as [old|] eqn:E.
      - apply elem_of_without in Hp as [Hne Hp]. split; [done|].
        cbn in *. intros ->. apply Hreg in Hp. congruence.
      - split; [done|]. cbn. intros ->. apply Hreg in Hp. congruence. }
    split; [|split]; cbn [pending debounceTimers next].
    + intros t k [Hp|Hp]%elem_of_app.
      * destruct (Hkept _ Hp) as [Hin Hne]. cbn in Hne.
        rewrite lookup_insert_ne by done. by apply Hreg.
      * apply list_elem_of_singleton in Hp. simplify_eq.
        by rewrite lookup_insert_eq.
    + rewrite fmap_app. apply NoDup_app. split; [|split].
      * subst kept. destruct (debounceTimers st !! key); [|done].
        by apply without_NoDup.
      * intros t Ht Hnew. cbn in Hnew. apply list_elem_of_singleton in Hnew.
        apply list_elem_of_fmap in Ht as ([t' k] & Heq & Hp). cbn in Heq.
        destruct (Hkept _ Hp) as [Hin _]. apply Hfresh in Hin. lia.
      * cbn. apply NoDup_singleton.
    + intros t k [Hp|Hp]%elem_of_app.
      * destruct (Hkept _ Hp) as [Hin _]. apply Hfresh in Hin. lia.
      * apply list_elem_of_singleton in Hp. simplify_eq. lia.
  - (* Fire *)
    cbn [step]. destruct (find_timer timer (pending st)); [|done].
    split; [|split]; cbn [pending debounceTimers next].
    + intros t k [_ Hp]%elem_of_without. by apply Hreg.
    + by apply without_NoDup.
    + intros t k [_ Hp]%elem_of_without. by apply (Hfresh t k).
  - (* Settle *)
    cbn [step]. destruct (find_timer timer (running st)) as [key|] eqn:E; [|done].
    split; [|split]; cbn [pending debounceTimers next]; [|done|done].
    intros t k Hp. destruct ok; [|by apply Hreg].
    assert (k <> key) as Hne.
    { intros ->. by apply (pending_for_nil key st t (Hquiet key E)). }
    rewrite lookup_delete_ne by done. by apply Hreg.
  - (* ClearAll *)
    assert (pending (step ClearAll st) = []) as Hnone.
    { apply elem_of_nil_inv. intros [t k] [Hp Hall]%clear_registered.
      apply Hreg, elem_of_map_to_list in Hp. by apply (Hall _ Hp). }
    split; [|split]; rewrite Hnone.
    + by intros t k ?%elem_of_nil.
    + constructor.
    + by intros t k ?%elem_of_nil.
Qed.

Lemma quiet_cons (s : Step) (later : list Step) (st : State) :
  quiet (s :: later) st = true -> quiet_step s st /\ quiet later (step s st) = true.
Proof.
  cbn [quiet]. intros [H1 H2]%andb_true_iff. split; [|done].
  destruct s as [| |timer [|]|]; try done.
  intros key E. cbn [quiet_step] in *. rewrite E in H1.
  by apply bool_decide_eq_true in H1.
Qed.

Lemma run_registered (steps : list Step) (st : State) :
  registered st -> quiet steps st = true -> registered (run steps st).
Proof.
  revert st. induction steps as [|s later IH]; intros st Hreg Hquiet; [done|].
  apply quiet_cons in Hquiet as [Hs Hlater].
  apply IH; [by apply step_registered|done].
Qed.

(** An edit while [func] is at work on the file, and another one after. *)
Lemma race_pending (key : jsstring) :
  let race := [Call key; Fire 0; Call key; Settle 0 true; Call key] in
  pending_for key (run race init) = [1; 2]%nat /\
  pending (step ClearAll (run race init)) = [(1%nat, key)].
Proof.
  set (s1 := {| debounceTimers := <[key := 0%nat]> ∅; pending := [(0%nat, key)];
                running := []; next := 1; calls := [] |}).
  set (s2 := {| debounceTimers := <[key := 0%nat]> ∅; pending := [];
                running := [(0%nat, key)]; next := 1; calls := [key] |}).
  set (s3 := {| debounceTimers := <[key := 1%nat]> (<[key := 0%nat]> ∅);
                pending := [(1%nat, key)];
                running := [(0%nat, key)]; next := 2; calls := [key] |}).
  set (s4 := {| debounceTimers := ∅; pending := [(1%nat, key)];
                running := []; next := 2; calls := [key] |}).
  set (s5 := {| debounceTimers := {[key := 2%nat]};
                pending := [(1%nat, key); (2%nat, key)];
                running := []; next := 3; calls := [key] |}).
  assert (step (Call key) init = s1) as H1.
  { unfold step, init. cbn [debounceTimers pending running next calls].
    by rewrite lookup_empty. }
  assert (step (Fire 0) s1 = s2) as H2 by done.
  assert (step (Call key) s2 = s3) as H3.
  { unfold step, s2. cbn [debounceTimers pending running next calls].
    by rewrite lookup_insert_eq. }
  assert (step (Settle 0 true) s3 = s4) as H4.
  { unfold step, s3, s4.
    change (find_timer 0 (running _)) with (Some key).
    cbn [debounceTimers pending running next calls].
    f_equal. by rewrite !delete_insert_eq, delete_empty. }
  assert (step (Call key) s4 = s5) as H5.
  { unfold step, s4. cbn [debounceTimers pending running next calls].
    rewrite lookup_empty. by rewrite insert_empty. }
  intros race. subst race. unfold run. cbn [foldl]. rewrite H1, H2, H3, H4, H5.
  split.
  - unfold pending_for, s5. cbn [pending].
    rewrite !filter_cons, filter_nil. by rewrite !decide_True.
  - unfold step, s5. cbn [debounceTimers pending].
    by rewrite map_to_list_singleton.
Qed.

(** X25.  The debounce guarantee and its limit.  As long as no call of
    [func] is fulfilled while an edit of its file is waiting, at most one
    timer is pending for a file: a call of [debounce] leaves its own timer as
    the only one for the file, however many came before, and after
    [toggleRealTime(false)] or [dispose()] no timer is pending at all.
    Otherwise not: when the file is edited while [func] is at work on it,
    [delete(key)] forgets the newer timer, the next edit sets a second one
    beside it, and clearing all timers leaves the forgotten one to fire. *)
Theorem debounce_one_timer_per_file (steps : list Step) :
  quiet steps init = true ->
  let st := run steps init in
  (forall key, (length (pending_for key st) <= 1)%nat) /\
  (forall key, pending_for key (step (Call key) st) = [next st]) /\
  pending (step ClearAll st) = [] /\
  (forall key,
     let race := [Call key; Fire 0; Call key; Settle 0 true; Call key] in
     pending_for key (run race init) = [1; 2]%nat /\
     pending (step ClearAll (run race init)) = [(1%nat, key)]).
Proof.
  intros Hquiet st.
  assert (registered st) as Hst by (apply run_registered; [apply registered_init|done]).
  split; [|split; [|split]].
  - intros key. destruct Hst as (Hreg & Hnodup & _).
    assert (NoDup (pending_for key st)) as Hnd.
    { eapply sublist_NoDup; [exact Hnodup|]. apply fmap_sublist, sublist_filter. }
    assert (forall t, t ∈ pending_for key st ->
              debounceTimers st !! key = Some t) as Hall.
    { intros t ([t' k] & -> & [Hk Hp]%list_elem_of_filter)%list_elem_of_fmap.
      cbn in Hk. subst k. by apply Hreg. }
    destruct (pending_for key st) as [|a [|b l]]; cbn; [lia|lia|].
    assert (a = b) as ->.
    { pose proof (Hall a ltac:(left)) as Ha.
      pose proof (Hall b ltac:(right; left)) as Hb. congruence. }
    apply NoDup_cons in Hnd as [Hnd _]. exfalso. apply Hnd. left.
  - intros key.
    pose proof (step_registered (Call key) st Hst I) as (Hreg & Hnodup & _).
    assert ((next st, key) ∈ pending (step (Call key) st)) as Hnew
      by (cbn; apply elem_of_app; right; left).
    assert (forall t, t ∈ pending_for key (step (Call key) st) -> t = next st) as Hall.
    { intros t ([t' k] & -> & [Hk Hp]%list_elem_of_filter)%list_elem_of_fmap.
      cbn in Hk. subst k. apply Hreg in Hp. cbn in Hp.
      rewrite lookup_insert_eq in Hp. by injection Hp. }
    assert (next st ∈ pending_for key (step (Call key) st)) as Hin.
    { unfold pending_for. apply (list_elem_of_fmap_2 fst (_ : list (nat * jsstring)) (next st, key)).
      by apply list_elem_of_filter. }
    assert (NoDup (pending_for key (step (Call key) st))) as Hnd.
    { eapply sublist_NoDup; [exact Hnodup|]. apply fmap_sublist, sublist_filter. }
    destruct (pending_for key (step (Call key) st)) as [|a [|b l]].
    + by apply elem_of_nil in Hin.
    + by rewrite (Hall a ltac:(left)).
    + rewrite (Hall a ltac:(left)), (Hall b ltac:(right; left)) in Hnd.
      apply NoDup_cons in Hnd as [Hnd _]. exfalso. apply Hnd. left.
  - destruct Hst as (Hreg & _).
    apply elem_of_nil_inv. intros [t k] [Hp Hall]%clear_registered.
    apply Hreg, elem_of_map_to_list in Hp. by apply (Hall _ Hp).
  - intros key race. subst race. apply race_pending.
Qed.

(** Three edits of one file in a row leave one timer; and real time is
    switched off after two. *)
Lemma debounce_one_timer_per_file_witness :
  pending_for (js "/w/a.ts")
    (run [Call (js "/w/a.ts"); Call (js "/w/a.ts"); Call (js "/w/a.ts")] init)
    = [2%nat] /\
  pending (step ClearAll (run [Call (js "/w/a.ts"); Call (js "/w/a.ts")] init))
    = [].
Proof.
  destruct (debounce_one_timer_per_file
              [Call (js "/w/a.ts"); Call (js "/w/a.ts")])
    as (_ & Hcall & Hclear & _); [by vm_compute|].
  split; [|exact Hclear].
  specialize (Hcall (js "/w/a.ts")).
  vm_compute in Hcall. vm_compute. exact Hcall.
Defined.

End DebounceFacts.

(** ** Real-time code access: one watcher *)

Module RealTimeToggleFacts.
Import RealTimeToggle.

Lemma live_app (events events' : list Event) :
  live (events ++ events') = foldl after (live events) events'.
Proof. apply foldl_app. Qed.

Lemma toggleRealTime_one_watcher (enable : bool) (st : State)
    (events : list Event) :
  one_watcher st events ->
  one_watcher (toggleRealTime enable st).1
    (events ++ (toggleRealTime enable st).2) /\
  isRealTimeEnabled (toggleRealTime enable st).1 = enable /\
  realTimeDiagnostics (toggleRealTime enable st).1 = realTimeDiagnostics st.
Proof.
  intros (Hlive & Henabled & Hfresh). unfold toggleRealTime.
  case_bool_decide as Hsame.
  - cbn [fst snd]. split; [|done].
    split; [|done]. by rewrite live_app.
  - destruct enable; cbn [fst snd].
    + split; [|done]. split; [|split]; cbn.
      * rewrite live_app. cbn. rewrite Hlive.
        destruct (watcher st) as [id|] eqn:E; [|done].
        exfalso. apply Hsame, Henabled. by eexists.
      * split; [by eexists|done].
      * intros id [= <-]. lia.
    + split; [|done]. split; [|split]; cbn.
      * rewrite live_app, Hlive. destruct (watcher st) as [id|]; [|done].
        cbn. by rewrite decide_False by (intros H; by apply H).
      * split; [done|]. by intros [? ?].
      * done.
Qed.

Lemma handle_one_watcher (input : Input) (st : State) (events : list Event) :
  one_watcher st events ->
  one_watcher (handle input st).1 (events ++ (handle input st).2).
Proof.
  intros Hone. destruct input as [|setting|uri included]; cbn [handle].
  - by apply toggleRealTime_one_watcher.
  - by apply toggleRealTime_one_watcher.
  - cbn [fst snd]. destruct Hone as (Hlive & ?). split; [|done].
    rewrite live_app. by destruct (_ && _).
Qed.

Lemma session_snoc (setting : bool) (inputs : list Input) (input : Input) :
  session setting (inputs ++ [input]) =
    ((handle input (session setting inputs).1).1,
     (session setting inputs).2 ++ (handle input (session setting inputs).1).2).
Proof.
  unfold session. rewrite foldl_app. cbn [foldl].
  destruct (foldl _ _ inputs) as [st events]. cbn [fst snd].
  by destruct (handle input st).
Qed.

Lemma session_one_watcher (setting : bool) (inputs : list Input) :
  one_watcher (session setting inputs).1 (session setting inputs).2.
Proof.
  induction inputs as [|input inputs IH] using rev_ind.
  - unfold session, construct. cbn [foldl].
    apply (toggleRealTime_one_watcher setting _ []).
    split; [done|]. split; [|done]. cbn. split; [done|]. by intros [? ?].
  - rewrite session_snoc. cbn [fst snd]. by apply handle_one_watcher.
Qed.

(** X26.  Switching real time on and off never leaks a file watcher: at any
    point of a session the watchers created and not yet disposed are the one
    the manager holds, and it holds one exactly when real time is enabled.
    The command always switches.  But the command leaves the setting alone,
    and edits are debounced by the setting: after the command has switched
    real time off, with no watcher left, an edit of an included file still
    schedules a review. *)
Theorem toggleRealTime_keeps_one_watcher (setting : bool) (inputs : list Input) :
  let run := session setting inputs in
  live run.2 = option_list (watcher run.1) /\
  (isRealTimeEnabled run.1 = true <-> is_Some (watcher run.1)) /\
  isRealTimeEnabled (session setting (inputs ++ [Command])).1 =
    negb (isRealTimeEnabled run.1) /\
  (forall uri,
     let off := session true [Command] in
     isRealTimeEnabled off.1 = false /\ live off.2 = [] /\
     (handle (TextChanged uri true) off.1).2 = [EvDebounce uri]).
Proof.
  intros run. destruct (session_one_watcher setting inputs) as (Hlive & Henabled & _).
  split; [done|]. split; [done|]. split.
  - rewrite session_snoc. cbn [fst handle].
    by destruct (toggleRealTime_one_watcher (negb (isRealTimeEnabled run.1))
                   run.1 run.2 (session_one_watcher setting inputs)) as (_ & ? & _).
  - intros uri off. by vm_compute.
Qed.

End RealTimeToggleFacts.
